(** * Verification of the MDF-4 to ADX export script

    A shallow embedding of [mdf42adx/PrepareMDF4FileForADX.py] and the
    properties of its signal extraction and export engine.

    Python code that can raise is embedded in an error monad ([Py.result]);
    code that also touches the file system or the console is embedded in a
    state-and-error monad ([IO.M]) over an explicit [world].  Calls into
    third-party packages (numpy, pyarrow, asammdf, the operating system) are
    modelled by small definitions of their documented behaviour, or are
    fields of the class [Externals]. *)

From Stdlib Require Import ZArith List String Ascii Bool Lia Arith.
From Stdlib Require Import Decimal DecimalString DecimalNat DecimalZ.
From Stdlib Require Import SpecFloat Permutation.
Import ListNotations.

Open Scope string_scope.
Open Scope list_scope.

(* ------------------------------------------------------------------ *)
(** ** Python runtime                                                  *)
(* ------------------------------------------------------------------ *)

Module Py.

(** The exception classes the script can meet. *)
Inductive exn : Type :=
| IndexError
| KeyError
| AttributeError
| TypeError
| ValueError
| UnicodeDecodeError
| UnboundLocalError
| OSError
| ArrowInvalid.

(** Outcome of evaluating an expression: a value or a raised exception. *)
Inductive result (A : Type) : Type :=
| Ok (a : A)
| Raise (e : exn).

Arguments Ok {A} a.
Arguments Raise {A} e.

Definition bind {A B} (m : result A) (k : A -> result B) : result B :=
  match m with
  | Ok a => k a
  | Raise e => Raise e
  end.

(** [try: body / except: handler] with a bare [except], which catches
    every exception. *)
Definition try_except {A} (body : result A) (handler : exn -> result A)
  : result A :=
  match body with
  | Ok a => Ok a
  | Raise e => handler e
  end.

(** [l[i]] for a Python list: a negative index counts from the end, an
    index outside [-len(l), len(l)) raises IndexError. *)
Definition getitem {A} (l : list A) (i : Z) : result A :=
  let n := Z.of_nat (List.length l) in
  let j := (if i <? 0 then i + n else i)%Z in
  if ((j <? 0) || (n <=? j))%Z then Raise IndexError
  else match nth_error l (Z.to_nat j) with
       | Some a => Ok a
       | None => Raise IndexError
       end.

(** [a[i]] for an index produced by [range]: never negative. *)
Definition getitem_nat {A} (l : list A) (i : nat) : result A :=
  match nth_error l i with
  | Some a => Ok a
  | None => Raise IndexError
  end.

(** [o.attr] where the attribute may be missing, or [o] may be [None]. *)
Definition getattr {A} (o : option A) : result A :=
  match o with
  | Some a => Ok a
  | None => Raise AttributeError
  end.

(** [d[k]] for a dict given as a lookup function. *)
Definition dict_getitem {K V} (d : K -> option V) (k : K) : result V :=
  match d k with
  | Some v => Ok v
  | None => Raise KeyError
  end.

(** [str(n)] for a non-negative int. *)
Definition str_of_nat (n : nat) : string :=
  NilEmpty.string_of_uint (Nat.to_uint n).

(** [str(z)] for an int. *)
Definition str_of_Z (z : Z) : string :=
  NilEmpty.string_of_int (Z.to_int z).

(** [s.endswith("/")] *)
Definition endswith_sep (s : string) : bool :=
  String.eqb (substring (String.length s - 1) 1 s) "/".

(** [os.path.join(a, b)] on POSIX: an absolute [b] replaces [a]; otherwise
    [b] is appended, after a separator unless [a] is empty or ends with
    one. *)
Definition path_join (a b : string) : string :=
  if String.prefix "/" b then b
  else if String.eqb a "" || endswith_sep a then (a ++ b)%string
  else (a ++ "/" ++ b)%string.

End Py.

Import Py.

Declare Scope py_scope.
Delimit Scope py_scope with py.
Notation "x <- m ;; k" := (Py.bind m (fun x => k))
  (at level 61, m at next level, right associativity) : py_scope.
Notation "' p <- m ;; k" := (Py.bind m (fun p => k))
  (at level 61, p pattern, m at next level, right associativity) : py_scope.

(* ------------------------------------------------------------------ *)
(** ** numpy arrays                                                    *)
(* ------------------------------------------------------------------ *)

Module Np.

(** [np.double]: IEEE 754 binary64. *)
Definition double : Type := spec_float.

Definition prec : Z := 53.
Definition emax : Z := 1024.

(** The double [0.0]. *)
Definition zero : double := S754_zero false.

(** Conversion of an integer sample to binary64, round to nearest even. *)
Definition double_of_Z (z : Z) : double :=
  binary_normalize prec emax z 0 false.

(** One element of a structured array: the field names of the dtype, in
    their order, with the [str] of each field's value. *)
Definition record : Type := list (string * string).

(** An element read out of an array.  An element of a structured array is
    an [np.record] when the array has the record dtype ([SRec]) and a plain
    [np.void] otherwise ([SVoid]); text is a byte string ([SBytes], dtype
    [S]) or a unicode string ([SStr], dtype [U]). *)
Inductive scalar : Type :=
| SRec (r : record)
| SVoid (r : record)
| SInt (z : Z)
| SFloat (d : double)
| SBytes (b : string)
| SStr (s : string).

(** A sample array.  The dtype belongs to the array, not to the element:
    structured arrays with the record dtype and without it, the numeric
    dtypes (integers and floats), byte strings and unicode strings.  A byte
    string is a [string] here, every character one byte. *)
Inductive ndarray : Type :=
| RecArray (rows : list record)
| StructArray (rows : list record)
| IntArray (xs : list Z)
| FloatArray (xs : list double)
| BytesArray (xs : list string)
| StrArray (xs : list string).

Inductive scalar_type : Type :=
| np_record
| np_number.

(** [np.issubdtype(a.dtype, t)].  The scalar type of a structured dtype is
    [np.void] unless the dtype was made a record dtype; [np.void] is a
    sub-type neither of [np.record] nor of [np.number]. *)
Definition issubdtype (a : ndarray) (t : scalar_type) : bool :=
  match a, t with
  | RecArray _, np_record => true
  | IntArray _, np_number => true
  | FloatArray _, np_number => true
  | _, _ => false
  end.

(** The elements of [a], as iterating over it yields them. *)
Definition iter (a : ndarray) : list scalar :=
  match a with
  | RecArray rows => map SRec rows
  | StructArray rows => map SVoid rows
  | IntArray xs => map SInt xs
  | FloatArray xs => map SFloat xs
  | BytesArray xs => map SBytes xs
  | StrArray xs => map SStr xs
  end.

(** [len(a)]. *)
Definition len (a : ndarray) : nat := List.length (iter a).

(** [a[i]] for an index produced by [range]. *)
Definition getitem (a : ndarray) (i : nat) : result scalar :=
  getitem_nat (iter a) i.

(** [np.full(n, fill_value=v)]. *)
Definition full {A} (n : nat) (v : A) : list A := repeat v n.

(** [mapM] over the elements: the first exception wins. *)
Fixpoint traverse {A B} (f : A -> result B) (l : list A) : result (list B) :=
  match l with
  | [] => Ok []
  | x :: l' =>
      Py.bind (f x) (fun y => Py.bind (traverse f l') (fun ys => Ok (y :: ys)))
  end.

(** Right-justify [s] in a field of [w] characters, as [%ws] does. *)
Definition rjust (w : nat) (s : string) : string :=
  (string_of_list_ascii (repeat " "%char (w - String.length s)) ++ s)%string.

(** [max(...)] over a sequence of lengths: ValueError on an empty one. *)
Definition max_of (l : list nat) : result nat :=
  match l with
  | [] => Raise ValueError
  | n :: l' => Ok (fold_left Nat.max l' n)
  end.

(** The value of the field [name] of [r]. *)
Definition field (r : record) (name : string) : option string :=
  option_map snd (find (fun f => String.eqb (fst f) name) r).

(** [str(getattr(r, name))] on a record.  [np.record.__getattribute__]
    asks the object first and the fields second: a name that is an
    attribute or a method of [np.record] ([attribute r name] is its [str])
    hides the field of that name. *)
Definition record_getattr (attribute : record -> string -> option string)
  (r : record) (name : string) : result string :=
  match attribute r name with
  | Some a => Ok a
  | None =>
      match field r name with
      | Some v => Ok v
      | None => Raise AttributeError
      end
  end.

(** The line of [pprint] for the field [name], of value [v]. *)
Definition pprint_line (maxlen : nat) (name v : string) : string :=
  (rjust maxlen name ++ ": " ++ v)%string.

(** [record.pprint()]:
    [names = self.dtype.names; maxlen = max(len(name) for name in names);
     fmt = '%% %ds: %%s' % maxlen;
     rows = [fmt % (name, getattr(self, name)) for name in names];
     return "\n".join(rows)]. *)
Definition record_pprint (attribute : record -> string -> option string)
  (r : record) : result string :=
  (let names := map fst r in
   maxlen <- max_of (map String.length names) ;;
   rows <- traverse
             (fun name =>
                v <- record_getattr attribute r name ;;
                Ok (pprint_line maxlen name v))
             names ;;
   Ok (String.concat (String (ascii_of_nat 10) "") rows))%py.

(** [x.pprint()] on an element: only [np.record] has the method. *)
Definition pprint (attribute : record -> string -> option string)
  (x : scalar) : result string :=
  match x with
  | SRec r => record_pprint attribute r
  | _ => Raise AttributeError
  end.

(** [float(x)] on an element; [parse] is Python's parser of float
    literals, which takes a byte string as it takes a string. *)
Definition to_float (parse : string -> result double) (x : scalar)
  : result double :=
  match x with
  | SInt z => Ok (double_of_Z z)
  | SFloat d => Ok d
  | SStr s => parse s
  | SBytes b => parse b
  | SRec _ => Raise TypeError
  | SVoid _ => Raise TypeError
  end.

(** Every byte of [b] is below 128. *)
Definition is_ascii (b : string) : bool :=
  forallb (fun c => Nat.ltb (nat_of_ascii c) 128) (list_ascii_of_string b).

(** The [ascii] codec on a byte string: a byte above 127 cannot be
    decoded. *)
Definition decode_ascii (b : string) : result string :=
  if is_ascii b then Ok b else Raise UnicodeDecodeError.

(** The cast of one element to the unicode dtype: byte strings go through
    the [ascii] codec, structured elements cannot be cast; [repr] prints a
    double. *)
Definition to_str (repr : double -> string) (x : scalar) : result string :=
  match x with
  | SStr s => Ok s
  | SBytes b => decode_ascii b
  | SInt z => Ok (str_of_Z z)
  | SFloat d => Ok (repr d)
  | SRec _ => Raise TypeError
  | SVoid _ => Raise TypeError
  end.

(** [a.astype(np.double)]. *)
Definition astype_double (parse : string -> result double) (a : ndarray)
  : result (list double) :=
  traverse (to_float parse) (iter a).

(** [a.astype(str)].  numpy has no cast from a structured dtype to the
    unicode dtype: TypeError, whatever the array holds.  The other casts go
    element by element. *)
Definition astype_str (repr : double -> string) (a : ndarray)
  : result (list string) :=
  match a with
  | RecArray _ => Raise TypeError
  | StructArray _ => Raise TypeError
  | _ => traverse (to_str repr) (iter a)
  end.

End Np.

(* ------------------------------------------------------------------ *)
(** ** The measurement container (asammdf)                             *)
(* ------------------------------------------------------------------ *)

(** [signal.source]. *)
Module Source.
Record t : Type := {
  name : string;
  source_type : Z;
  bus_type : Z
}.
End Source.

(** One channel yielded by [mdf.iter_channels()]. *)
Module Signal.
Record t : Type := {
  name : string;
  unit : string;
  comment : string;
  group_index : Z;
  channel_index : Z;
  timestamps : list Np.double;
  samples : Np.ndarray;
  source : Source.t
}.
End Signal.

(** [channel_group.acq_source]; a field that is [None] here is a missing
    attribute. *)
Record SourceInformation : Type := {
  si_name : option string;
  si_path : option string
}.

Record ChannelGroup : Type := {
  acq_name : option string;
  acq_source : option SourceInformation
}.

Record Group : Type := {
  channel_group : option ChannelGroup
}.

Record MDF : Type := {
  header_comment : string;
  groups : list Group;
  iter_channels : list Signal.t
}.

(* ------------------------------------------------------------------ *)
(** ** Output artifacts and the world                                  *)
(* ------------------------------------------------------------------ *)

(** A cell handed to [csv.writer.writerow]. *)
Inductive cell : Type :=
| CStr (s : string)
| CFloat (d : Np.double).

(** The pyarrow table built for one signal, column by column. *)
Record Table : Type := {
  col_source_uuid : list string;
  col_name : list string;
  col_unit : list string;
  col_timestamp : list Np.double;
  col_value : list Np.double;
  col_value_string : list string;
  col_source : list string;
  col_channel_group_acq_name : list string;
  col_acq_source_name : list string;
  col_acq_source_path : list string;
  col_source_type : list string;
  col_bus_type : list string
}.

(** One entry of the manifest's ["signals"] list. *)
Record SignalDescriptor : Type := {
  d_name : string;
  d_unit : string;
  d_comment : string;
  d_group_index : Z;
  d_channel_index : Z;
  d_channel_group_acq_name : string;
  d_acq_source_name : string;
  d_acq_source_path : string;
  d_source : string;
  d_source_type : string;
  d_bus_type : string
}.

(** The manifest dictionary of [writeMetadata]. *)
Record Metadata : Type := {
  md_name : string;
  md_source_uuid : string;
  md_preparation_startDate : string;
  md_signals : list SignalDescriptor;
  md_comments : string;
  md_numberOfChunks : nat
}.

(** What a file holds: the rows written through a [csv.writer], or the JSON
    documents written to a manifest file. *)
Inductive file : Type :=
| CsvFile (rows : list (list cell))
| JsonFile (docs : list Metadata).

Record world : Type := {
  files : list (string * file);
  dirs : list string;
  datasets : list (string * Table);
  stdout : list string
}.

(** The calls that reach outside the process and may fail there. *)
Inductive syscall : Type :=
| MakeDirs (path : string)
| GzipOpen (path : string)
| WriteRow (path : string) (row : list cell)
| OpenW (path : string)
| FileWrite (path : string)
| WriteToDataset (root_path : string) (table : Table).

(** What the script takes from its environment. *)
Class Externals : Type := {
  (** [v4c.SOURCE_TYPE_TO_STRING] and [v4c.BUS_TYPE_TO_STRING] *)
  SOURCE_TYPE_TO_STRING : Z -> option string;
  BUS_TYPE_TO_STRING : Z -> option string;
  (** the exception, if any, with which an outside call fails *)
  fault : syscall -> world -> option exn;
  (** [MDF(filename)] *)
  MDF_open : string -> result MDF;
  (** [Path(filename).stem] *)
  Path_stem : string -> string;
  (** [uuid.uuid4()], as its [str] *)
  uuid4 : string;
  (** [str(datetime.utcnow())] *)
  utcnow : string;
  (** Python's [float] on a string and [str] on a float *)
  float_of_str : string -> result Np.double;
  str_of_float : Np.double -> string;
  (** the [str] of the attribute or method [np.record] has under a name,
      if it has one: [shape], [dtype], [item], ... *)
  record_attribute : Np.record -> string -> option string;
  (** [np.empty(n, dtype=str)]: [n] strings in a buffer that numpy does
      not initialise; what they read as is whatever the memory held *)
  np_empty_str : nat -> list string;
  np_empty_str_length : forall n, List.length (np_empty_str n) = n;
  (** the tasks the workers of the pool bring to their end while the
      parent is at one of its calls into the pool, in the order in which
      they end, given which of the tasks handed over so far are still
      running *)
  scheduler : list bool -> world -> list nat
}.

(** The global [args] set by the argument parser. *)
Record Args : Type := {
  dump : bool;
  exportFormat : string;
  target : string
}.

(* ------------------------------------------------------------------ *)
(** ** State and exceptions                                            *)
(* ------------------------------------------------------------------ *)

Module IO.

Definition M (A : Type) : Type := world -> result A * world.

Definition ret {A} (a : A) : M A := fun w => (Ok a, w).

Definition bind {A B} (m : M A) (k : A -> M B) : M B :=
  fun w =>
    match m w with
    | (Ok a, w') => k a w'
    | (Raise e, w') => (Raise e, w')
    end.

Definition raise {A} (e : exn) : M A := fun w => (Raise e, w).

Definition lift {A} (r : result A) : M A := fun w => (r, w).

Definition modify (f : world -> world) : M unit := fun w => (Ok tt, f w).

(** [try: body / except Exception: handler]. *)
Definition try_except {A} (body : M A) (handler : exn -> M A) : M A :=
  fun w =>
    match body w with
    | (Ok a, w') => (Ok a, w')
    | (Raise e, w') => handler e w'
    end.

(** [for x in xs: body], the body updating the locals [s]. *)
Fixpoint for_in {A St} (body : A -> St -> M St) (xs : list A) (s : St)
  : M St :=
  match xs with
  | [] => ret s
  | x :: xs' => bind (body x s) (fun s' => for_in body xs' s')
  end.

(** [for counter, x in enumerate(xs): body], counting from [start].  Besides
    the locals it returns the binding of the loop variable [counter] after
    the loop: [None] while it has never been assigned. *)
Fixpoint for_enumerate {A St} (body : nat -> A -> St -> M St) (start : nat)
  (xs : list A) (counter : option nat) (s : St) : M (option nat * St) :=
  match xs with
  | [] => ret (counter, s)
  | x :: xs' =>
      bind (body start x s)
        (fun s' => for_enumerate body (S start) xs' (Some start) s')
  end.

(** Reading a local variable that may not have been bound. *)
Definition local {A} (v : option A) : M A :=
  match v with
  | Some a => ret a
  | None => raise UnboundLocalError
  end.

End IO.

Declare Scope io_scope.
Delimit Scope io_scope with io.
Notation "x <- m ;; k" := (IO.bind m (fun x => k))
  (at level 61, m at next level, right associativity) : io_scope.
Notation "' p <- m ;; k" := (IO.bind m (fun p => k))
  (at level 61, p pattern, m at next level, right associativity) : io_scope.
Notation "m ;; k" := (IO.bind m (fun _ => k))
  (at level 61, right associativity) : io_scope.

(* ------------------------------------------------------------------ *)
(** ** Operating system and sinks                                      *)
(* ------------------------------------------------------------------ *)

Fixpoint get_file (path : string) (fs : list (string * file)) : option file :=
  match fs with
  | [] => None
  | (p, f) :: fs' => if String.eqb path p then Some f else get_file path fs'
  end.

Fixpoint set_file (path : string) (f : file) (fs : list (string * file))
  : list (string * file) :=
  match fs with
  | [] => [(path, f)]
  | (p, g) :: fs' =>
      if String.eqb path p then (path, f) :: fs'
      else (p, g) :: set_file path f fs'
  end.

Definition with_files (w : world) (fs : list (string * file)) : world :=
  {| files := fs; dirs := dirs w; datasets := datasets w;
     stdout := stdout w |}.

(** The rows of the CSV file at [path], none when there is no such file. *)
Definition csv_rows (path : string) (w : world) : list (list cell) :=
  match get_file path (files w) with
  | Some (CsvFile rows) => rows
  | _ => []
  end.

(** The documents written to the manifest at [path]. *)
Definition json_docs (path : string) (w : world) : list Metadata :=
  match get_file path (files w) with
  | Some (JsonFile docs) => docs
  | _ => []
  end.

Section Sinks.

Context {ext : Externals}.
Local Open Scope io_scope.

(** An outside call either fails with the fault the environment has for it,
    leaving the world as it was, or goes on. *)
Definition outside (c : syscall) : IO.M unit :=
  fun w =>
    match fault c w with
    | Some e => (Raise e, w)
    | None => (Ok tt, w)
    end.

(** [os.makedirs(path, exist_ok=True)] *)
Definition os_makedirs (path : string) : IO.M unit :=
  outside (MakeDirs path) ;;
  IO.modify (fun w =>
    {| files := files w;
       dirs := if existsb (String.eqb path) (dirs w) then dirs w
               else path :: dirs w;
       datasets := datasets w; stdout := stdout w |}).

(** [gzip.open(path, 'wt')] followed by [csv.writer]: the file is created or
    truncated. *)
Definition gzip_open (path : string) : IO.M unit :=
  outside (GzipOpen path) ;;
  IO.modify (fun w => with_files w (set_file path (CsvFile []) (files w))).

(** [writer.writerow(row)] on the writer of the file at [path]. *)
Definition writerow (path : string) (row : list cell) : IO.M unit :=
  outside (WriteRow path row) ;;
  IO.modify (fun w =>
    with_files w (set_file path (CsvFile (csv_rows path w ++ [row])) (files w))).

(** [open(path, 'w')] *)
Definition open_w (path : string) : IO.M unit :=
  outside (OpenW path) ;;
  IO.modify (fun w => with_files w (set_file path (JsonFile []) (files w))).

(** [f.write(json.dumps(doc))] on the file at [path]. *)
Definition file_write (path : string) (doc : Metadata) : IO.M unit :=
  outside (FileWrite path) ;;
  IO.modify (fun w =>
    with_files w (set_file path (JsonFile (json_docs path w ++ [doc])) (files w))).

(** [pq.write_to_dataset(table, root_path=root_path)]: one more partition
    under [root_path]. *)
Definition write_to_dataset (table : Table) (root_path : string)
  : IO.M unit :=
  outside (WriteToDataset root_path table) ;;
  IO.modify (fun w =>
    {| files := files w; dirs := dirs w;
       datasets := datasets w ++ [(root_path, table)];
       stdout := stdout w |}).

(** [print(line)] *)
Definition print (line : string) : IO.M unit :=
  IO.modify (fun w =>
    {| files := files w; dirs := dirs w; datasets := datasets w;
       stdout := stdout w ++ [line] |}).

End Sinks.

(** [pa.table({...})]: the columns must all have one length. *)
Definition pa_table (t : Table) : result Table :=
  let n := List.length (col_source_uuid t) in
  if forallb (Nat.eqb n)
       [ List.length (col_name t); List.length (col_unit t);
         List.length (col_timestamp t); List.length (col_value t);
         List.length (col_value_string t); List.length (col_source t);
         List.length (col_channel_group_acq_name t);
         List.length (col_acq_source_name t);
         List.length (col_acq_source_path t);
         List.length (col_source_type t); List.length (col_bus_type t) ]
  then Ok t
  else Raise ArrowInvalid.

(** *** The process pool *)

(** A task handed to the pool: still running, or ended with an outcome,
    which may be an exception. *)
Inductive slot : Type :=
| Pending (task : IO.M unit)
| Done (outcome : result unit).

(** The pool, [mp.Pool(...)]: the tasks handed to it so far, in the order
    of their dispatch. *)
Definition pool : Type := list slot.

(** The handle [pool.apply_async] returns: it names its task in the pool,
    which keeps what the task did until somebody asks with [get]. *)
Record AsyncResult : Type := {
  task_id : nat
}.

Definition is_pending (s : slot) : bool :=
  match s with
  | Pending _ => true
  | Done _ => false
  end.

(** [l] with [x] in the place of its element at index [k]; [l] itself when
    it has no such element. *)
Fixpoint set_nth {A} (k : nat) (x : A) (l : list A) : list A :=
  match k, l with
  | _, [] => []
  | 0, _ :: l' => x :: l'
  | S k', y :: l' => y :: set_nth k' x l'
  end.

(** A worker brings task [i] to its end: the effects of the task reach the
    world now, and its outcome, exception included, stays in the pool.
    Nothing happens when the task has ended before. *)
Definition complete (i : nat) (p : pool) : IO.M pool :=
  fun w =>
    match nth_error p i with
    | Some (Pending task) =>
        let (r, w') := task w in (Ok (set_nth i (Done r) p), w')
    | _ => (Ok p, w)
    end.

Section Workers.

Context {ext : Externals}.
Local Open Scope io_scope.

(** What the workers do while the parent is at a call into the pool: the
    tasks the [scheduler] names end, one after the other. *)
Definition workers (p : pool) : IO.M pool :=
  fun w => IO.for_in complete (scheduler (map is_pending p) w) p w.

(** [pool.apply_async(task)]: the task joins the pool and the handle comes
    back at once; the workers may already have ended it by then, or not. *)
Definition apply_async (task : IO.M unit) (p : pool)
  : IO.M (AsyncResult * pool) :=
  p' <- workers (p ++ [Pending task]) ;;
  IO.ret ({| task_id := List.length p |}, p').

(** [r.wait()]: returns, with [None], once the task of [r] has ended,
    whatever its outcome. *)
Definition wait (r : AsyncResult) (p : pool) : IO.M pool :=
  p' <- workers p ;;
  complete (task_id r) p'.

End Workers.

(* ------------------------------------------------------------------ *)
(** ** The script                                                      *)
(* ------------------------------------------------------------------ *)

(** Progress and timing messages ([print] of a counter, a name, a dtype or
    an elapsed time) are left out: their arguments cannot raise and no
    property below reads them.  The listing printed by [dumpSignals] is
    kept. *)

Section Script.

Context {ext : Externals}.

(** *** Source resolver *)

(** [mdf.groups[signal.group_index].channel_group] *)
Definition lookup_channel_group (mdf : MDF) (signal : Signal.t)
  : result ChannelGroup :=
  (g <- getitem (groups mdf) (Signal.group_index signal) ;;
   getattr (channel_group g))%py.

(** [mdf.groups[signal.group_index].channel_group.acq_name] *)
Definition lookup_acq_name (mdf : MDF) (signal : Signal.t) : result string :=
  (cg <- lookup_channel_group mdf signal ;;
   getattr (acq_name cg))%py.

(** [mdf.groups[signal.group_index].channel_group.acq_source.name] *)
Definition lookup_acq_source_name (mdf : MDF) (signal : Signal.t)
  : result string :=
  (cg <- lookup_channel_group mdf signal ;;
   src <- getattr (acq_source cg) ;;
   getattr (si_name src))%py.

(** [mdf.groups[signal.group_index].channel_group.acq_source.path] *)
Definition lookup_acq_source_path (mdf : MDF) (signal : Signal.t)
  : result string :=
  (cg <- lookup_channel_group mdf signal ;;
   src <- getattr (acq_source cg) ;;
   getattr (si_path src))%py.

Definition getSource (mdf : MDF) (signal : Signal.t)
  : result (string * string * string) :=
  (channel_group_acq_name <-
     try_except (lookup_acq_name mdf signal) (fun _ => Ok "") ;;
   acq_source_name <-
     try_except (lookup_acq_source_name mdf signal) (fun _ => Ok "") ;;
   acq_source_path <-
     try_except (lookup_acq_source_path mdf signal) (fun _ => Ok "") ;;
   Ok (channel_group_acq_name, acq_source_name, acq_source_path))%py.

(** *** Type classifier *)

Definition extractSignalsByType (signal : Signal.t)
  : result (list Np.double * list string) :=
  (if Np.issubdtype (Signal.samples signal) Np.np_record then
     let numericSignals :=
       Np.full (List.length (Signal.timestamps signal)) Np.zero in
     stringSignals <- Np.traverse (Np.pprint record_attribute)
                        (Np.iter (Signal.samples signal)) ;;
     Ok (numericSignals, stringSignals)
   else if Np.issubdtype (Signal.samples signal) Np.np_number then
     numericSignals <- Np.astype_double float_of_str (Signal.samples signal) ;;
     let stringSignals :=
       np_empty_str (List.length (Signal.timestamps signal)) in
     Ok (numericSignals, stringSignals)
   else
     let numericSignals :=
       Np.full (List.length (Signal.timestamps signal)) Np.zero in
     stringSignals <- Np.astype_str str_of_float (Signal.samples signal) ;;
     Ok (numericSignals, stringSignals))%py.

(** *** Columnar export *)

Definition processSignal (counter : nat)
  (channel_group_acq_name acq_source_name acq_source_path : string)
  (signal : Signal.t) (uuid : string) (targetdir : string) : IO.M unit :=
  let n := List.length (Signal.timestamps signal) in
  IO.try_except
    ('(numericSignals, stringSignals) <- IO.lift (extractSignalsByType signal) ;;
     source_type <- IO.lift (dict_getitem SOURCE_TYPE_TO_STRING
                               (Source.source_type (Signal.source signal))) ;;
     bus_type <- IO.lift (dict_getitem BUS_TYPE_TO_STRING
                            (Source.bus_type (Signal.source signal))) ;;
     table <- IO.lift (pa_table
       {| col_source_uuid := Np.full n uuid;
          col_name := Np.full n (Signal.name signal);
          col_unit := Np.full n (Signal.unit signal);
          col_timestamp := Signal.timestamps signal;
          col_value := numericSignals;
          col_value_string := stringSignals;
          col_source := Np.full n (Source.name (Signal.source signal));
          col_channel_group_acq_name := Np.full n channel_group_acq_name;
          col_acq_source_name := Np.full n acq_source_name;
          col_acq_source_path := Np.full n acq_source_path;
          col_source_type := Np.full n source_type;
          col_bus_type := Np.full n bus_type |}) ;;
     write_to_dataset table targetdir)%io
    (fun e => IO.ret tt).

(** Lines 76 to 92 of [writeParquet]: the dispatch of one task per signal
    and the wait on every handle.  The creation of the pool,
    [mp.Pool(mp.cpu_count())], is taken to succeed; the pool and the list
    [result] of handles are locals.  Returned are the three as they stand
    when the second loop ends: the binding of [counter], [result] and the
    pool. *)
Definition dispatch_and_wait (basename : string) (mdf : MDF) (uuid : string)
  (target : string) : IO.M (option nat * list AsyncResult * pool) :=
  (let targetdir := path_join target (basename ++ "-" ++ uuid)%string in
   '(counter, (result, pool)) <-
     IO.for_enumerate
       (fun counter signal '(result, pool) =>
          '(channel_group_acq_name, acq_source_name, acq_source_path) <-
            IO.lift (getSource mdf signal) ;;
          '(r, pool) <-
            apply_async
              (processSignal counter channel_group_acq_name acq_source_name
                 acq_source_path signal uuid targetdir) pool ;;
          IO.ret (result ++ [r], pool))
       0 (iter_channels mdf) None ([], []) ;;
   pool <- IO.for_in (fun r pool => wait r pool) result pool ;;
   IO.ret (counter, result, pool))%io.

Definition writeParquet (basename : string) (mdf : MDF) (uuid : string)
  (target : string) : IO.M nat :=
  ('(counter, _, _) <- dispatch_and_wait basename mdf uuid target ;;
   IO.local counter)%io.

(** *** Row export *)

(** The header row of every CSV file. *)
Definition csv_header : list cell :=
  map CStr
    [ "source_uuid"; "name"; "unit"; "timestamp"; "value"; "value_string";
      "source"; "channel_group_acq_name"; "acq_source_name";
      "acq_source_path"; "source_type"; "bus_type" ].

(** [f"{uuid}-{counter}.csv.gz"] *)
Definition csv_filename (uuid : string) (counter : nat) : string :=
  (uuid ++ "-" ++ str_of_nat counter ++ ".csv.gz")%string.

(** What the local [numericValue] of [processSignalCSV] can hold: a float,
    or the one-element tuple [("",)] of the handler. *)
Inductive numeric_value : Type :=
| NvFloat (d : Np.double)
| NvTuple (items : list string).

(** The body of the loop over the entries of a signal (lines 219 to 239):
    the attempt to convert the sample, then the row. *)
Definition write_entry (path : string)
  (channel_group_acq_name acq_source_name acq_source_path : string)
  (signal : Signal.t) (uuid : string)
  (numericSignals : list Np.double) (stringSignals : list string)
  (indx : nat) : IO.M unit :=
  (numericValue <-
     IO.lift
       (try_except
          (x <- Np.getitem (Signal.samples signal) indx ;;
           d <- Np.to_float float_of_str x ;;
           Ok (NvFloat d))%py
          (fun _ => Ok (NvTuple [""]))) ;;
   timestamp <- IO.lift (getitem_nat (Signal.timestamps signal) indx) ;;
   value <- IO.lift (getitem_nat numericSignals indx) ;;
   value_string <- IO.lift (getitem_nat stringSignals indx) ;;
   source_type <- IO.lift (dict_getitem SOURCE_TYPE_TO_STRING
                             (Source.source_type (Signal.source signal))) ;;
   bus_type <- IO.lift (dict_getitem BUS_TYPE_TO_STRING
                          (Source.bus_type (Signal.source signal))) ;;
   writerow path
     [ CStr uuid;
       CStr (Signal.name signal);
       CStr (Signal.unit signal);
       CFloat timestamp;
       CFloat value;
       CStr value_string;
       CStr (Source.name (Signal.source signal));
       CStr channel_group_acq_name;
       CStr acq_source_name;
       CStr acq_source_path;
       CStr source_type;
       CStr bus_type ])%io.

Definition processSignalCSV (counter : nat)
  (channel_group_acq_name acq_source_name acq_source_path : string)
  (signal : Signal.t) (uuid : string) (targetdir : string)
  (basename : string) : IO.M unit :=
  ('(numericSignals, stringSignals) <- IO.lift (extractSignalsByType signal) ;;
   os_makedirs targetdir ;;
   let path := path_join targetdir (csv_filename uuid counter) in
   gzip_open path ;;
   writerow path csv_header ;;
   IO.for_in
     (fun indx _ =>
        write_entry path channel_group_acq_name acq_source_name
          acq_source_path signal uuid numericSignals stringSignals indx)
     (seq 0 (List.length (Signal.timestamps signal))) tt)%io.

Definition writeCsv (basename : string) (mdf : MDF) (uuid : string)
  (target : string) : IO.M nat :=
  (let targetdir := path_join target (basename ++ "-" ++ uuid)%string in
   '(counter, _) <-
     IO.for_enumerate
       (fun counter signal _ =>
          '(channel_group_acq_name, acq_source_name, acq_source_path) <-
            IO.lift (getSource mdf signal) ;;
          processSignalCSV counter channel_group_acq_name acq_source_name
            acq_source_path signal uuid targetdir basename)
       0 (iter_channels mdf) None tt ;;
   IO.local counter)%io.

(** *** Signal dump *)

Definition dumpSignals (mdf : MDF) : IO.M nat :=
  ('(counter, _) <-
     IO.for_enumerate
       (fun counter signal _ =>
          '(channel_group_acq_name, acq_source_name, acq_source_path) <-
            IO.lift (getSource mdf signal) ;;
          source_type <- IO.lift (dict_getitem SOURCE_TYPE_TO_STRING
                                    (Source.source_type (Signal.source signal))) ;;
          bus_type <- IO.lift (dict_getitem BUS_TYPE_TO_STRING
                                 (Source.bus_type (Signal.source signal))) ;;
          print (String.concat ", "
                   [ Source.name (Signal.source signal);
                     channel_group_acq_name; acq_source_name; acq_source_path;
                     Signal.name signal; Signal.unit signal;
                     source_type; bus_type;
                     str_of_Z (Signal.group_index signal);
                     str_of_Z (Signal.channel_index signal) ]))
       0 (iter_channels mdf) None tt ;;
   IO.local counter)%io.

(** *** Manifest *)

(** [f"{basename}-{uuid}.metadata.json"] under [target]. *)
Definition metadata_path (basename uuid target : string) : string :=
  path_join target (basename ++ "-" ++ uuid ++ ".metadata.json")%string.

Definition writeMetadata (basename : string) (mdf : MDF) (uuid : string)
  (target : string) (numberOfChunks : nat) : IO.M unit :=
  (let path := metadata_path basename uuid target in
   open_w path ;;
   let preparation_startDate := utcnow in
   signals <-
     IO.for_in
       (fun signal signals =>
          '(channel_group_acq_name, acq_source_name, acq_source_path) <-
            IO.lift (getSource mdf signal) ;;
          source_type <- IO.lift (dict_getitem SOURCE_TYPE_TO_STRING
                                    (Source.source_type (Signal.source signal))) ;;
          bus_type <- IO.lift (dict_getitem BUS_TYPE_TO_STRING
                                 (Source.bus_type (Signal.source signal))) ;;
          IO.ret (signals ++
            [ {| d_name := Signal.name signal;
                 d_unit := Signal.unit signal;
                 d_comment := Signal.comment signal;
                 d_group_index := Signal.group_index signal;
                 d_channel_index := Signal.channel_index signal;
                 d_channel_group_acq_name := channel_group_acq_name;
                 d_acq_source_name := acq_source_name;
                 d_acq_source_path := acq_source_path;
                 d_source := Source.name (Signal.source signal);
                 d_source_type := source_type;
                 d_bus_type := bus_type |} ]))
       (iter_channels mdf) [] ;;
   file_write path
     {| md_name := basename;
        md_source_uuid := uuid;
        md_preparation_startDate := preparation_startDate;
        md_signals := signals;
        md_comments := header_comment mdf;
        md_numberOfChunks := numberOfChunks |})%io.

(** *** One recording *)

Definition processFile (args : Args) (filename : string) : IO.M unit :=
  (mdf <- IO.lift (MDF_open filename) ;;
   if dump args then
     numberOfChunks <- dumpSignals mdf ;;
     IO.ret tt
   else
     let basename := Path_stem filename in
     let file_uuid := uuid4 in
     numberOfChunks <-
       (if String.eqb (exportFormat args) "parquet" then
          writeParquet basename mdf file_uuid (target args)
        else if String.eqb (exportFormat args) "csv" then
          writeCsv basename mdf file_uuid (target args)
        else
          print "No export Format selected, use --format with parquet or csv" ;;
          IO.ret 0) ;;
     writeMetadata basename mdf file_uuid (target args) numberOfChunks)%io.

End Script.

(* ------------------------------------------------------------------ *)
(** ** Specification vocabulary and test data                          *)
(* ------------------------------------------------------------------ *)

(** The value a lookup contributes to the source metadata: its own result,
    or the empty string when it raised. *)
Definition or_empty (r : result string) : string :=
  match r with
  | Ok s => s
  | Raise _ => ""
  end.

(** [sub] occurs in [s]. *)
Definition contains (sub s : string) : Prop :=
  exists pre post, s = (pre ++ sub ++ post)%string.

(** The fifth cell of a row: its [value] field. *)
Definition value_cell (row : list cell) : option cell := nth_error row 4.

(** The cell [csv.writer] prints as nothing: the empty placeholder. *)
Definition empty_placeholder : cell := CStr "".

(** The binding of [counter] after an [enumerate] loop that ran to its end:
    the index of the last element, or what it was before when there was no
    element. *)
Definition last_index {A} (start : nat) (xs : list A) (counter : option nat)
  : option nat :=
  match xs with
  | [] => counter
  | _ :: xs' => Some (start + List.length xs')
  end.

(** [q] is the same file, or the same absence of a file, in both worlds. *)
Definition same_file (q : string) (w w' : world) : Prop :=
  get_file q (files w') = get_file q (files w).

(** [row] carries, as its [value], the entry at [indx] of the numeric
    column [numericSignals]. *)
Definition entry_row (numericSignals : list Np.double) (indx : nat)
  (row : list cell) : Prop :=
  exists d, nth_error numericSignals indx = Some d /\
            value_cell row = Some (CFloat d).

(** The line feed. *)
Definition newline : string := String (ascii_of_nat 10) "".

(** The length of the longest field name of [r]. *)
Definition longest_name (r : Np.record) : nat :=
  fold_right Nat.max 0 (map (fun f => String.length (fst f)) r).


(** What reading the attribute [name] of the record [r] prints as: the
    attribute [np.record] has under that name, else the field. *)
Definition shown {ext : Externals} (r : Np.record) (name : string) : string :=
  match record_attribute r name with
  | Some a => a
  | None =>
      match Np.field r name with
      | Some v => v
      | None => ""
      end
  end.

(** The sample arrays the three rules of the classifier can handle: the
    numeric ones, unicode text, byte text that is all ASCII, and records
    that have at least one field. *)
Definition classifiable (a : Np.ndarray) : Prop :=
  match a with
  | Np.RecArray rows => Forall (fun r => r <> []) rows
  | Np.StructArray _ => False
  | Np.IntArray _ => True
  | Np.FloatArray _ => True
  | Np.BytesArray xs => Forall (fun b => Np.is_ascii b = true) xs
  | Np.StrArray _ => True
  end.

(** The world before the run: nothing written yet. *)
Definition empty_world : world :=
  {| files := []; dirs := []; datasets := []; stdout := [] |}.

Module Demo.

(** The double [m * 2^e]. *)
Definition dbl (m e : Z) : Np.double :=
  binary_normalize Np.prec Np.emax m e false.

Definition ecu : Source.t :=
  {| Source.name := "ECU1"; Source.source_type := 1; Source.bus_type := 2 |}.

(** A numeric signal: 10.0, 20.5 and 30.0 km/h at 0.0, 0.5 and 1.0 s. *)
Definition speed : Signal.t :=
  {| Signal.name := "Speed"; Signal.unit := "km/h"; Signal.comment := "";
     Signal.group_index := 0; Signal.channel_index := 1;
     Signal.timestamps := [Np.zero; dbl 1 (-1); dbl 1 0];
     Signal.samples := Np.FloatArray [dbl 10 0; dbl 41 (-1); dbl 30 0];
     Signal.source := ecu |}.

(** A record signal: one CAN frame. *)
Definition frame : Signal.t :=
  {| Signal.name := "CAN_DataFrame"; Signal.unit := ""; Signal.comment := "";
     Signal.group_index := 0; Signal.channel_index := 2;
     Signal.timestamps := [Np.zero];
     Signal.samples := Np.RecArray [[("ID", "291"); ("DLC", "8")]];
     Signal.source := ecu |}.

(** A text signal. *)
Definition gear : Signal.t :=
  {| Signal.name := "Gear"; Signal.unit := ""; Signal.comment := "";
     Signal.group_index := 0; Signal.channel_index := 3;
     Signal.timestamps := [Np.zero; dbl 1 0];
     Signal.samples := Np.StrArray ["park"; "drive"];
     Signal.source := ecu |}.

Definition group0 : Group :=
  {| channel_group :=
       Some {| acq_name := Some "Frame1";
               acq_source := Some {| si_name := Some "CAN1";
                                     si_path := Some "CAN1.Frame1" |} |} |}.

(** A channel group without acquisition source. *)
Definition group_no_source : Group :=
  {| channel_group := Some {| acq_name := Some "Frame2"; acq_source := None |} |}.

Definition recording (signals : list Signal.t) : MDF :=
  {| header_comment := "demo"; groups := [group0]; iter_channels := signals |}.

(** Three of the attributes every numpy scalar has, as they print for a
    record: [shape], [ndim] and [size]. *)
Definition attribute (r : Np.record) (name : string) : option string :=
  if String.eqb name "shape" then Some "()"
  else if String.eqb name "ndim" then Some "0"
  else if String.eqb name "size" then Some "1"
  else None.

(** Every task ends before [apply_async] returns. *)
Definition eager (pending : list bool) (w : world) : list nat :=
  seq 0 (List.length pending).

(** No task ends before the parent waits for it. *)
Definition lazy (pending : list bool) (w : world) : list nat := [].

(** No task ends until [n] of them have been handed over; then they end
    last in, first out. *)
Definition last_first (n : nat) (pending : list bool) (w : world)
  : list nat :=
  if Nat.eqb (List.length pending) n then List.rev (seq 0 n) else [].

(** An environment: two small tables, the same recording under every file
    name, a float parser that knows integer literals (enough for the text
    above, which Python's [float] rejects too), a float printer that no
    run reaches; [buffer] is what [np.empty] finds in memory and [sched]
    the schedule of the pool. *)
Definition environment (buffer : string)
  (sched : list bool -> world -> list nat) (mdf : MDF)
  (flt : syscall -> world -> option exn) : Externals :=
  {| SOURCE_TYPE_TO_STRING := fun z => if (z =? 1)%Z then Some "ECU" else None;
     BUS_TYPE_TO_STRING := fun z => if (z =? 2)%Z then Some "CAN" else None;
     fault := flt;
     MDF_open := fun _ => Ok mdf;
     Path_stem := fun filename => "drive";
     uuid4 := "6fa459ea";
     utcnow := "2024-01-01 00:00:00";
     float_of_str := fun s =>
       match NilEmpty.int_of_string s with
       | Some i => Ok (Np.double_of_Z (Z.of_int i))
       | None => Raise ValueError
       end;
     str_of_float := fun d => "";
     record_attribute := attribute;
     np_empty_str := fun n => repeat buffer n;
     np_empty_str_length := fun n => repeat_length buffer n;
     scheduler := sched |}.

(** The environment of the runs below: [np.empty] finds zeroed memory, and
    the pool ends every task at its dispatch. *)
Definition externals (mdf : MDF) (flt : syscall -> world -> option exn)
  : Externals :=
  environment "" eager mdf flt.

(** No outside call fails. *)
Definition healthy : syscall -> world -> option exn := fun _ _ => None.

(** The sinks fail for the signal called [nm]: writing its partition, and
    writing any of its rows. *)
Definition sink_down_for (nm : string) : syscall -> world -> option exn :=
  fun c _ =>
    match c with
    | WriteToDataset _ t =>
        if existsb (String.eqb nm) (col_name t) then Some OSError else None
    | WriteRow _ (_ :: CStr n :: _) =>
        if String.eqb nm n then Some OSError else None
    | _ => None
    end.

Definition parquet : Args :=
  {| dump := false; exportFormat := "parquet"; target := "out" |}.

Definition csv : Args :=
  {| dump := false; exportFormat := "csv"; target := "out" |}.

End Demo.

(* ------------------------------------------------------------------ *)
(** ** Batch processing and the command line                           *)
(* ------------------------------------------------------------------ *)

(** What [processDirectory] asks of the operating system.  Whether a path
    is a regular file is asked anew at every entry, hence of the world as
    it is then. *)
Record FileSystem : Type := {
  os_listdir : string -> result (list string);
  os_path_isfile : string -> world -> bool
}.

Section Batch.

(** Every recording runs in its own environment: its own [uuid4] and
    [utcnow], in particular. *)
Variables (fs : FileSystem) (env : string -> Externals).

(** The body of the loop of [processDirectory]. *)
Definition process_entry (args : Args) (directoryname path : string)
  : IO.M unit :=
  fun w =>
    if os_path_isfile fs (path_join directoryname path) w
    then @processFile (env (path_join directoryname path)) args
           (path_join directoryname path) w
    else IO.ret tt w.

Definition processDirectory (args : Args) (directoryname : string)
  : IO.M unit :=
  (listing <- IO.lift (os_listdir fs directoryname) ;;
   IO.for_in (fun path _ => process_entry args directoryname path)
     listing tt)%io.

(** The options [--file] and [--directory] beside the global [args]. *)
Record CommandLine : Type := {
  cl_args : Args;
  cl_file : option string;
  cl_directory : option string
}.

(** [if (x):] on an option that is [None] or a string. *)
Definition truthy (x : option string) : bool :=
  match x with
  | Some (String _ _) => true
  | _ => false
  end.

(** The string an option holds when it is truthy. *)
Definition option_value (x : option string) : string :=
  match x with
  | Some s => s
  | None => ""
  end.

(** The block under [if __name__ == "__main__"], after the parsing. *)
Definition main (cl : CommandLine) : IO.M unit :=
  if truthy (cl_file cl) then
    @processFile (env (option_value (cl_file cl))) (cl_args cl)
      (option_value (cl_file cl))
  else if truthy (cl_directory cl) then
    processDirectory (cl_args cl) (option_value (cl_directory cl))
  else IO.ret tt.

End Batch.

(* ------------------------------------------------------------------ *)
(** ** What the sinks receive                                          *)
(* ------------------------------------------------------------------ *)

(** The table of [processSignal], given the two columns of the classifier
    and the two strings of the [v4c] tables. *)
Definition signal_table (uuid a b c : string) (signal : Signal.t)
  (numericSignals : list Np.double) (stringSignals : list string)
  (source_type bus_type : string) : Table :=
  let n := List.length (Signal.timestamps signal) in
  {| col_source_uuid := Np.full n uuid;
     col_name := Np.full n (Signal.name signal);
     col_unit := Np.full n (Signal.unit signal);
     col_timestamp := Signal.timestamps signal;
     col_value := numericSignals;
     col_value_string := stringSignals;
     col_source := Np.full n (Source.name (Signal.source signal));
     col_channel_group_acq_name := Np.full n a;
     col_acq_source_name := Np.full n b;
     col_acq_source_path := Np.full n c;
     col_source_type := Np.full n source_type;
     col_bus_type := Np.full n bus_type |}.

(** The row of [processSignalCSV] for one entry. *)
Definition signal_row (uuid a b c : string) (signal : Signal.t)
  (timestamp value : Np.double) (value_string source_type bus_type : string)
  : list cell :=
  [ CStr uuid; CStr (Signal.name signal); CStr (Signal.unit signal);
    CFloat timestamp; CFloat value; CStr value_string;
    CStr (Source.name (Signal.source signal));
    CStr a; CStr b; CStr c; CStr source_type; CStr bus_type ].

(** The line of [dumpSignals] for one signal. *)
Definition signal_line (a b c : string) (signal : Signal.t)
  (source_type bus_type : string) : string :=
  String.concat ", "
    [ Source.name (Signal.source signal); a; b; c;
      Signal.name signal; Signal.unit signal; source_type; bus_type;
      str_of_Z (Signal.group_index signal);
      str_of_Z (Signal.channel_index signal) ].

(** The entry of the manifest for one signal. *)
Definition signal_descriptor (a b c : string) (signal : Signal.t)
  (source_type bus_type : string) : SignalDescriptor :=
  {| d_name := Signal.name signal;
     d_unit := Signal.unit signal;
     d_comment := Signal.comment signal;
     d_group_index := Signal.group_index signal;
     d_channel_index := Signal.channel_index signal;
     d_channel_group_acq_name := a;
     d_acq_source_name := b;
     d_acq_source_path := c;
     d_source := Source.name (Signal.source signal);
     d_source_type := source_type;
     d_bus_type := bus_type |}.

Section Expected.

Context {ext : Externals}.

(** The two [v4c] lookups every sink makes for a signal, in their order. *)
Definition source_strings (signal : Signal.t) : result (string * string) :=
  (source_type <- dict_getitem SOURCE_TYPE_TO_STRING
                    (Source.source_type (Signal.source signal)) ;;
   bus_type <- dict_getitem BUS_TYPE_TO_STRING
                 (Source.bus_type (Signal.source signal)) ;;
   Ok (source_type, bus_type))%py.

(** What [processSignal] computes inside its [try] before it writes. *)
Definition partition_of (uuid a b c : string) (signal : Signal.t)
  : result Table :=
  ('(numericSignals, stringSignals) <- extractSignalsByType signal ;;
   '(source_type, bus_type) <- source_strings signal ;;
   pa_table (signal_table uuid a b c signal numericSignals stringSignals
               source_type bus_type))%py.

(** The partition of a signal of the recording [mdf]. *)
Definition partition_for (mdf : MDF) (uuid : string) (signal : Signal.t)
  : result Table :=
  ('(a, b, c) <- getSource mdf signal ;;
   partition_of uuid a b c signal)%py.

(** The line [dumpSignals] prints for a signal of [mdf]. *)
Definition dump_line (mdf : MDF) (signal : Signal.t) : result string :=
  ('(a, b, c) <- getSource mdf signal ;;
   '(source_type, bus_type) <- source_strings signal ;;
   Ok (signal_line a b c signal source_type bus_type))%py.

(** The descriptor [writeMetadata] appends for a signal of [mdf]. *)
Definition descriptor_of (mdf : MDF) (signal : Signal.t)
  : result SignalDescriptor :=
  ('(a, b, c) <- getSource mdf signal ;;
   '(source_type, bus_type) <- source_strings signal ;;
   Ok (signal_descriptor a b c signal source_type bus_type))%py.

(** The body of the loop of [writeCsv] (lines 193 to 196), for the signal
    at index [counter]. *)
Definition csv_turn (basename : string) (mdf : MDF) (uuid targetdir : string)
  (counter : nat) (signal : Signal.t) (_ : unit) : IO.M unit :=
  ('(channel_group_acq_name, acq_source_name, acq_source_path) <-
     IO.lift (getSource mdf signal) ;;
   processSignalCSV counter channel_group_acq_name acq_source_name
     acq_source_path signal uuid targetdir basename)%io.

(** [row] is the row of entry [indx] of [signal], the two columns being
    those of the classifier. *)
Definition is_row_of (uuid a b c : string) (signal : Signal.t)
  (numericSignals : list Np.double) (stringSignals : list string)
  (indx : nat) (row : list cell) : Prop :=
  exists timestamp value value_string source_type bus_type,
    nth_error (Signal.timestamps signal) indx = Some timestamp /\
    nth_error numericSignals indx = Some value /\
    nth_error stringSignals indx = Some value_string /\
    source_strings signal = Ok (source_type, bus_type) /\
    row = signal_row uuid a b c signal timestamp value value_string
            source_type bus_type.

End Expected.

(** Files and directories are the same in [w] and [w']. *)
Definition datasets_only (w w' : world) : Prop :=
  files w' = files w /\ dirs w' = dirs w.

(** Files, directories and dataset are the same in [w] and [w']. *)
Definition stdout_only (w w' : world) : Prop :=
  files w' = files w /\ dirs w' = dirs w /\ datasets w' = datasets w.

(** The dataset is the same in [w] and [w']. *)
Definition files_only (w w' : world) : Prop :=
  datasets w' = datasets w.

Module Cases.

(** A numeric signal with three timestamps and two samples. *)
Definition ragged : Signal.t :=
  {| Signal.name := "Ragged"; Signal.unit := "V"; Signal.comment := "";
     Signal.group_index := 0; Signal.channel_index := 4;
     Signal.timestamps := [Np.zero; Demo.dbl 1 0; Demo.dbl 2 0];
     Signal.samples := Np.IntArray [1; 2]%Z;
     Signal.source := Demo.ecu |}.

(** A signal whose source type the tables do not know. *)
Definition stranger : Signal.t :=
  {| Signal.name := "Stranger"; Signal.unit := ""; Signal.comment := "";
     Signal.group_index := 0; Signal.channel_index := 5;
     Signal.timestamps := [Np.zero];
     Signal.samples := Np.IntArray [7]%Z;
     Signal.source :=
       {| Source.name := "X"; Source.source_type := 9;
          Source.bus_type := 2 |} |}.

(** A signal that addresses its group from the end of the list. *)
Definition from_the_end : Signal.t :=
  {| Signal.name := "Speed"; Signal.unit := "km/h"; Signal.comment := "";
     Signal.group_index := -1; Signal.channel_index := 1;
     Signal.timestamps := []; Signal.samples := Np.IntArray [];
     Signal.source := Demo.ecu |}.



(** A record signal with a field called [shape]. *)
Definition shaped : Signal.t :=
  {| Signal.name := "Window"; Signal.unit := ""; Signal.comment := "";
     Signal.group_index := 0; Signal.channel_index := 7;
     Signal.timestamps := [Np.zero];
     Signal.samples := Np.RecArray [[("shape", "round"); ("width", "3")]];
     Signal.source := Demo.ecu |}.

(** A text signal as the reader hands it out, in bytes: a word whose last
    letter is the Latin-1 byte 233 (an e with an acute accent), and a word
    that is all ASCII. *)
Definition menu : Signal.t :=
  {| Signal.name := "Menu"; Signal.unit := ""; Signal.comment := "";
     Signal.group_index := 0; Signal.channel_index := 8;
     Signal.timestamps := [Np.zero; Demo.dbl 1 0];
     Signal.samples :=
       Np.BytesArray [("caf" ++ String (ascii_of_nat 233) "")%string; "tea"];
     Signal.source := Demo.ecu |}.

(** A text signal in bytes, all ASCII. *)
Definition lever : Signal.t :=
  {| Signal.name := "Lever"; Signal.unit := ""; Signal.comment := "";
     Signal.group_index := 0; Signal.channel_index := 9;
     Signal.timestamps := [Np.zero; Demo.dbl 1 0];
     Signal.samples := Np.BytesArray ["park"; "drive"];
     Signal.source := Demo.ecu |}.

(** [--format json]: a format the script does not know. *)
Definition json : Args :=
  {| dump := false; exportFormat := "json"; target := "out" |}.

(** [--dump] *)
Definition dump_only : Args :=
  {| dump := true; exportFormat := "parquet"; target := "out" |}.

(** A directory with a sub-directory, a recording without signals and a
    recording with one. *)
Definition folder : FileSystem :=
  {| os_listdir := fun _ => Ok ["logs"; "empty.mf4"; "drive.mf4"];
     os_path_isfile := fun path _ => negb (String.eqb path "in/logs") |}.

Definition folder_env (path : string) : Externals :=
  Demo.externals
    (Demo.recording (if String.eqb path "in/empty.mf4" then []
                     else [Demo.speed]))
    Demo.healthy.

End Cases.

(** [steps R xs w w']: one step of [R] per element of [xs], in order, leads
    from [w] to [w']. *)
Inductive steps {A} (R : A -> world -> world -> Prop)
  : list A -> world -> world -> Prop :=
| steps_nil w : steps R [] w w
| steps_cons x xs w w1 w2 :
    R x w w1 -> steps R xs w1 w2 -> steps R (x :: xs) w w2.

Section ColumnarSteps.

Context {ext : Externals}.

(** What the task of one signal does to the world: nothing, or one more
    partition, the signal's; and the partition is there whenever it could
    be built and the sink took it. *)
Definition task_step (mdf : MDF) (uuid targetdir : string)
  (signal : Signal.t) (w w' : world) : Prop :=
  datasets_only w w' /\
  (datasets w' = datasets w \/
   exists table, partition_for mdf uuid signal = Ok table /\
                 datasets w' = datasets w ++ [(targetdir, table)]) /\
  (forall table,
     partition_for mdf uuid signal = Ok table ->
     fault (WriteToDataset targetdir table) w = None ->
     datasets w' = datasets w ++ [(targetdir, table)]).

(** The task [writeParquet] hands to the pool for [signal], the
    [counter]-th of the recording. *)
Definition task_of (mdf : MDF) (uuid targetdir : string) (counter : nat)
  (signal : Signal.t) : IO.M unit :=
  processSignal counter (or_empty (lookup_acq_name mdf signal))
    (or_empty (lookup_acq_source_name mdf signal))
    (or_empty (lookup_acq_source_path mdf signal)) signal uuid targetdir.

(** [s] is the place of the task of [signal] in the pool: the task still
    running, or ended without an exception. *)
Definition slot_for (mdf : MDF) (uuid targetdir : string)
  (signal : Signal.t) (s : slot) : Prop :=
  s = Done (Ok tt) \/
  exists counter, s = Pending (task_of mdf uuid targetdir counter signal).

(** The signals whose task has ended. *)
Fixpoint ended (xs : list Signal.t) (p : pool) : list Signal.t :=
  match xs, p with
  | x :: xs', s :: p' =>
      if is_pending s then ended xs' p' else x :: ended xs' p'
  | _, _ => []
  end.

(** The pool while [writeParquet] runs, [xs] being the signals handed over
    so far: a place for the task of each, and a world that is the world
    [w0] of the start after the step of every task that has ended, in the
    order in which they ended. *)
Definition pool_inv (mdf : MDF) (uuid targetdir : string)
  (xs : list Signal.t) (p : pool) (w0 w : world) : Prop :=
  Forall2 (slot_for mdf uuid targetdir) xs p /\
  exists order,
    Permutation order (ended xs p) /\
    steps (task_step mdf uuid targetdir) order w0 w.

(** The schedule in which every task ends before [apply_async] returns
    its handle. *)
Definition ends_at_dispatch : Prop :=
  forall (pending : list bool) (b : bool) (w : world),
    In (List.length pending) (scheduler (pending ++ [b]) w).

(** The schedule in which no task ends before the parent waits for it. *)
Definition ends_at_wait : Prop :=
  forall (pending : list bool) (w : world), scheduler pending w = [].

End ColumnarSteps.

(** What has ended in [p] has ended in [p']. *)
Definition kept (p p' : pool) : Prop :=
  forall i, nth_error p i = Some (Done (Ok tt)) ->
            nth_error p' i = Some (Done (Ok tt)).

(* ================================================================== *)
(** * Properties                                                       *)
(* ================================================================== *)

(** ** Source resolver *)

Section SourceResolver.

Variables (mdf : MDF) (signal : Signal.t).

Lemma try_except_or_empty (r : result string) :
  try_except r (fun _ => Ok "") = Ok (or_empty r).
Proof. destruct r; reflexivity. Qed.

Lemma getSource_eq :
  getSource mdf signal =
  Ok (or_empty (lookup_acq_name mdf signal),
      or_empty (lookup_acq_source_name mdf signal),
      or_empty (lookup_acq_source_path mdf signal)).
Proof.
  unfold getSource.
  rewrite !try_except_or_empty. reflexivity.
Qed.

(** A group index outside [-len(groups), len(groups)) makes the list lookup
    raise. *)
Lemma getitem_out_of_range {A} (l : list A) (i : Z) :
  (i < - Z.of_nat (List.length l) \/ Z.of_nat (List.length l) <= i)%Z ->
  getitem l i = Raise IndexError.
Proof.
  intros H. unfold getitem.
  destruct (Z.ltb_spec i 0) as [Hneg | Hpos].
  - destruct H as [H | H]; [| lia].
    replace ((i + Z.of_nat (List.length l) <? 0)%Z) with true
      by (symmetry; apply Z.ltb_lt; lia).
    reflexivity.
  - destruct H as [H | H]; [lia |].
    replace ((Z.of_nat (List.length l) <=? i)%Z) with true
      by (symmetry; apply Z.leb_le; lia).
    rewrite orb_true_r. reflexivity.
Qed.

Lemma lookup_channel_group_absent :
  (Signal.group_index signal < - Z.of_nat (List.length (groups mdf)) \/
   Z.of_nat (List.length (groups mdf)) <= Signal.group_index signal)%Z ->
  lookup_channel_group mdf signal = Raise IndexError.
Proof.
  intros H. unfold lookup_channel_group.
  rewrite (getitem_out_of_range _ _ H). reflexivity.
Qed.

End SourceResolver.

(** C4.  [getSource] never raises: it always returns a triple.  Each of the
    three fields is the result of its own lookup, or the empty string when
    that lookup raised (missing attribute, no acquisition source, no channel
    group, no such group), whatever the other two lookups did.  For a group
    index that the list of groups does not have (outside
    [-len(groups), len(groups)), Python's range of valid list indices) the
    triple is three empty strings. *)
Theorem getSource_total_and_fieldwise (mdf : MDF) (signal : Signal.t) :
  (exists a b c,
      getSource mdf signal = Ok (a, b, c) /\
      a = or_empty (lookup_acq_name mdf signal) /\
      b = or_empty (lookup_acq_source_name mdf signal) /\
      c = or_empty (lookup_acq_source_path mdf signal)) /\
  ((Signal.group_index signal < - Z.of_nat (List.length (groups mdf)) \/
    Z.of_nat (List.length (groups mdf)) <= Signal.group_index signal)%Z ->
   getSource mdf signal = Ok ("", "", "")).
Proof.
  split.
  - do 3 eexists. split; [apply getSource_eq |]. repeat split.
  - intros H. rewrite getSource_eq.
    unfold lookup_acq_name, lookup_acq_source_name, lookup_acq_source_path.
    rewrite (lookup_channel_group_absent mdf signal H). reflexivity.
Qed.

(** The three lookups on a group that has an acquisition name and no
    acquisition source: the name is resolved, the other two fields are
    empty. *)
Lemma getSource_without_acq_source (mdf : MDF) (signal : Signal.t)
  (g : Group) (nm : string) :
  getitem (groups mdf) (Signal.group_index signal) = Ok g ->
  channel_group g = Some {| acq_name := Some nm; acq_source := None |} ->
  getSource mdf signal = Ok (nm, "", "").
Proof.
  intros Hg Hcg. rewrite getSource_eq.
  unfold lookup_acq_name, lookup_acq_source_name, lookup_acq_source_path,
    lookup_channel_group.
  rewrite Hg. simpl. rewrite Hcg. reflexivity.
Qed.

(** A missing acquisition name does not stop the source's name and path
    from being resolved. *)
Lemma getSource_without_acq_name (mdf : MDF) (signal : Signal.t)
  (g : Group) (nm pth : string) :
  getitem (groups mdf) (Signal.group_index signal) = Ok g ->
  channel_group g =
    Some {| acq_name := None;
            acq_source := Some {| si_name := Some nm; si_path := Some pth |} |} ->
  getSource mdf signal = Ok ("", nm, pth).
Proof.
  intros Hg Hcg. rewrite getSource_eq.
  unfold lookup_acq_name, lookup_acq_source_name, lookup_acq_source_path,
    lookup_channel_group.
  rewrite Hg. simpl. rewrite Hcg. reflexivity.
Qed.

Lemma getSource_total_and_fieldwise_witness :
  (Signal.group_index
     {| Signal.name := "Speed"; Signal.unit := "km/h"; Signal.comment := "";
        Signal.group_index := 7; Signal.channel_index := 0;
        Signal.timestamps := []; Signal.samples := Np.IntArray [];
        Signal.source := Demo.ecu |}
   < - Z.of_nat (List.length (groups (Demo.recording []))) \/
   Z.of_nat (List.length (groups (Demo.recording []))) <= 7)%Z /\
  getSource (Demo.recording [])
    {| Signal.name := "Speed"; Signal.unit := "km/h"; Signal.comment := "";
       Signal.group_index := 7; Signal.channel_index := 0;
       Signal.timestamps := []; Signal.samples := Np.IntArray [];
       Signal.source := Demo.ecu |} = Ok ("", "", "").
Proof.
  split.
  - right. simpl. lia.
  - apply (proj2 (getSource_total_and_fieldwise (Demo.recording []) _)).
    right. simpl. lia.
Defined.

(** A negative group index inside the range counts from the end of the list
    of groups, as every Python list index does: it is resolved, not
    absent. *)
Example getSource_negative_index :
  getSource (Demo.recording [])
    {| Signal.name := "Speed"; Signal.unit := "km/h"; Signal.comment := "";
       Signal.group_index := -1; Signal.channel_index := 0;
       Signal.timestamps := []; Signal.samples := Np.IntArray [];
       Signal.source := Demo.ecu |} = Ok ("Frame1", "CAN1", "CAN1.Frame1").
Proof. reflexivity. Qed.

(** ** Type classifier *)

Section Classifier.

Context {ext : Externals}.

Lemma traverse_length {A B} (f : A -> result B) (l : list A) (l' : list B) :
  Np.traverse f l = Ok l' -> List.length l' = List.length l.
Proof.
  revert l'. induction l as [| x l IH]; intros l' H; simpl in H.
  - inversion H. reflexivity.
  - destruct (f x) as [y |]; simpl in H; [| discriminate].
    destruct (Np.traverse f l) as [ys |]; simpl in H; [| discriminate].
    inversion H. simpl. f_equal. apply IH. reflexivity.
Qed.

Lemma traverse_map_ok {A B C} (f : B -> result C) (g : A -> B) (h : A -> C)
  (l : list A) :
  (forall x, f (g x) = Ok (h x)) ->
  Np.traverse f (map g l) = Ok (map h l).
Proof.
  intros H. induction l as [| x l IH]; simpl.
  - reflexivity.
  - rewrite H. simpl. rewrite IH. reflexivity.
Qed.

Lemma traverse_in_ok {A B} (f : A -> result B) (g : A -> B) (l : list A) :
  (forall x, In x l -> f x = Ok (g x)) ->
  Np.traverse f l = Ok (map g l).
Proof.
  induction l as [| x l IH]; intros H; simpl.
  - reflexivity.
  - rewrite (H x (or_introl eq_refl)). simpl.
    rewrite IH; [reflexivity |]. intros y Hy. apply H. right. exact Hy.
Qed.

Lemma traverse_ok_inv {A B} (f : A -> result B) (l : list A) (l' : list B) :
  Np.traverse f l = Ok l' -> Forall (fun x => exists y, f x = Ok y) l.
Proof.
  revert l'. induction l as [| x l IH]; intros l' H; simpl in H.
  - constructor.
  - destruct (f x) as [y |] eqn:E; simpl in H; [| discriminate].
    destruct (Np.traverse f l) as [ys |]; simpl in H; [| discriminate].
    constructor; [exists y; exact E | apply (IH ys); reflexivity].
Qed.

(** The first element that raises decides, when all the others can raise
    nothing else. *)
Lemma traverse_raise {A B} (f : A -> result B) (e : exn) (l : list A) :
  (forall x, In x l -> (exists y, f x = Ok y) \/ f x = Raise e) ->
  Exists (fun x => f x = Raise e) l ->
  Np.traverse f l = Raise e.
Proof.
  induction l as [| x l IH]; intros Hall Hex.
  - inversion Hex.
  - simpl. destruct (Hall x (or_introl eq_refl)) as [[y Hy] | Hx].
    + rewrite Hy. simpl. rewrite IH; [reflexivity | |].
      * intros z Hz. apply Hall. right. exact Hz.
      * inversion Hex; subst; [congruence | assumption].
    + rewrite Hx. reflexivity.
Qed.

Lemma astype_double_ints (xs : list Z) :
  Np.astype_double float_of_str (Np.IntArray xs) = Ok (map Np.double_of_Z xs).
Proof. apply traverse_map_ok. reflexivity. Qed.

Lemma astype_double_floats (xs : list Np.double) :
  Np.astype_double float_of_str (Np.FloatArray xs) = Ok xs.
Proof.
  unfold Np.astype_double. simpl.
  rewrite (traverse_map_ok _ Np.SFloat (fun d => d)); [| reflexivity].
  rewrite map_id. reflexivity.
Qed.

(** *** [record.pprint] *)

Lemma fold_left_max (l : list nat) (n : nat) :
  fold_left Nat.max l n = Nat.max n (fold_right Nat.max 0 l).
Proof.
  revert n. induction l as [| m l IH]; intros n; simpl.
  - lia.
  - rewrite IH. lia.
Qed.

Lemma max_of_names (r : Np.record) :
  r <> [] ->
  Np.max_of (map String.length (map fst r)) = Ok (longest_name r).
Proof.
  intros H. destruct r as [| f r]; [congruence |].
  unfold longest_name. simpl. rewrite fold_left_max, map_map. reflexivity.
Qed.

Lemma field_of_name (r : Np.record) (name : string) :
  In name (map fst r) -> exists v, Np.field r name = Some v.
Proof.
  unfold Np.field. induction r as [| [n v] r IH]; intros H; simpl in *.
  - contradiction.
  - destruct (String.eqb n name) eqn:E.
    + exists v. reflexivity.
    + destruct H as [H | H]; [| exact (IH H)].
      subst. rewrite String.eqb_refl in E. discriminate.
Qed.


Lemma record_getattr_field (r : Np.record) (name : string) :
  In name (map fst r) ->
  Np.record_getattr record_attribute r name = Ok (shown r name).
Proof.
  intros H. unfold Np.record_getattr, shown.
  destruct (record_attribute r name); [reflexivity |].
  destruct (field_of_name r name H) as (v & ->). reflexivity.
Qed.

(** A record that has a field prints one line per field; what follows the
    name is what [getattr] finds under it. *)
Lemma record_pprint_fields (r : Np.record) :
  r <> [] ->
  Np.record_pprint record_attribute r =
  Ok (String.concat newline
        (map (fun f => Np.pprint_line (longest_name r) (fst f)
                         (shown r (fst f))) r)).
Proof.
  intros H. unfold Np.record_pprint. cbv zeta.
  rewrite (max_of_names r H). simpl.
  rewrite (traverse_in_ok _
             (fun name => Np.pprint_line (longest_name r) name (shown r name))).
  - simpl. rewrite map_map. reflexivity.
  - intros name Hname. rewrite (record_getattr_field r name Hname).
    reflexivity.
Qed.

Lemma record_pprint_no_field :
  Np.record_pprint record_attribute [] = Raise ValueError.
Proof. reflexivity. Qed.




Lemma append_assoc (a b c : string) :
  ((a ++ b) ++ c = a ++ b ++ c)%string.
Proof.
  induction a as [| x a IH]; simpl; [reflexivity | f_equal; exact IH].
Qed.





(** *** The three rules, one equation each *)

Lemma pprint_records (rows : list Np.record) :
  Np.traverse (Np.pprint record_attribute) (map Np.SRec rows) =
  Np.traverse (Np.record_pprint record_attribute) rows.
Proof.
  induction rows as [| r rows IH]; simpl; [reflexivity |].
  rewrite IH. reflexivity.
Qed.

Lemma extractSignalsByType_record (signal : Signal.t) (rows : list Np.record) :
  Signal.samples signal = Np.RecArray rows ->
  extractSignalsByType signal =
  (stringSignals <- Np.traverse (Np.record_pprint record_attribute) rows ;;
   Ok (repeat Np.zero (List.length (Signal.timestamps signal)),
       stringSignals))%py.
Proof.
  intros H. unfold extractSignalsByType. rewrite H.
  cbn [Np.issubdtype Np.iter]. rewrite pprint_records. reflexivity.
Qed.

Lemma extractSignalsByType_int (signal : Signal.t) (xs : list Z) :
  Signal.samples signal = Np.IntArray xs ->
  extractSignalsByType signal =
  Ok (map Np.double_of_Z xs,
      np_empty_str (List.length (Signal.timestamps signal))).
Proof.
  intros H. unfold extractSignalsByType. rewrite H.
  cbn [Np.issubdtype]. rewrite astype_double_ints. reflexivity.
Qed.

Lemma extractSignalsByType_float (signal : Signal.t) (xs : list Np.double) :
  Signal.samples signal = Np.FloatArray xs ->
  extractSignalsByType signal =
  Ok (xs, np_empty_str (List.length (Signal.timestamps signal))).
Proof.
  intros H. unfold extractSignalsByType. rewrite H.
  cbn [Np.issubdtype]. rewrite astype_double_floats. reflexivity.
Qed.

Lemma extractSignalsByType_text (signal : Signal.t) (xs : list string) :
  Signal.samples signal = Np.StrArray xs ->
  extractSignalsByType signal =
  Ok (repeat Np.zero (List.length (Signal.timestamps signal)), xs).
Proof.
  intros H. unfold extractSignalsByType. rewrite H.
  cbn [Np.issubdtype Np.astype_str Np.iter].
  rewrite (traverse_map_ok _ Np.SStr (fun s => s)); [| reflexivity].
  rewrite map_id. reflexivity.
Qed.

Lemma extractSignalsByType_bytes (signal : Signal.t) (xs : list string) :
  Signal.samples signal = Np.BytesArray xs ->
  extractSignalsByType signal =
  if forallb Np.is_ascii xs
  then Ok (repeat Np.zero (List.length (Signal.timestamps signal)), xs)
  else Raise UnicodeDecodeError.
Proof.
  intros H. unfold extractSignalsByType. rewrite H.
  cbn [Np.issubdtype Np.astype_str Np.iter].
  destruct (forallb Np.is_ascii xs) eqn:E.
  - rewrite (traverse_in_ok _ (fun x => match x with
                                        | Np.SBytes b => b
                                        | _ => ""
                                        end)).
    + simpl. rewrite map_map, map_id. reflexivity.
    + intros x Hx. apply in_map_iff in Hx. destruct Hx as (b & <- & Hb).
      simpl. unfold Np.decode_ascii.
      rewrite forallb_forall in E. rewrite (E b Hb). reflexivity.
  - rewrite (traverse_raise _ UnicodeDecodeError); [reflexivity | |].
    + intros x Hx. apply in_map_iff in Hx. destruct Hx as (b & <- & _).
      simpl. unfold Np.decode_ascii.
      destruct (Np.is_ascii b); [left; eexists; reflexivity | right; reflexivity].
    + apply Exists_exists.
      assert (Hex : exists b, In b xs /\ Np.is_ascii b = false).
      { clear H. induction xs as [| b xs IH]; simpl in E; [discriminate |].
        destruct (Np.is_ascii b) eqn:Eb.
        - destruct (IH E) as (b' & Hin & Hb'). exists b'. split; [right |]; assumption.
        - exists b. split; [left; reflexivity | exact Eb]. }
      destruct Hex as (b & Hin & Hb). exists (Np.SBytes b).
      split; [apply in_map; exact Hin |].
      simpl. unfold Np.decode_ascii. rewrite Hb. reflexivity.
Qed.

Lemma extractSignalsByType_struct (signal : Signal.t) (rows : list Np.record) :
  Signal.samples signal = Np.StructArray rows ->
  extractSignalsByType signal = Raise TypeError.
Proof.
  intros H. unfold extractSignalsByType. rewrite H. reflexivity.
Qed.

(** What a numeric signal is classified as: the cast of the samples, and
    the buffer [np.empty] handed out. *)
Lemma classify_numeric_columns (signal : Signal.t) :
  Np.issubdtype (Signal.samples signal) Np.np_number = true ->
  exists numericColumn,
    extractSignalsByType signal =
      Ok (numericColumn,
          np_empty_str (List.length (Signal.timestamps signal))) /\
    Np.astype_double float_of_str (Signal.samples signal) = Ok numericColumn /\
    match Signal.samples signal with
    | Np.IntArray xs => numericColumn = map Np.double_of_Z xs
    | Np.FloatArray xs => numericColumn = xs
    | _ => False
    end.
Proof.
  intros H.
  destruct (Signal.samples signal) as [rows | rows | xs | xs | xs | xs] eqn:E;
    simpl in H; try discriminate.
  - exists (map Np.double_of_Z xs).
    split; [apply extractSignalsByType_int; exact E |].
    split; [apply astype_double_ints | reflexivity].
  - exists xs.
    split; [apply extractSignalsByType_float; exact E |].
    split; [apply astype_double_floats | reflexivity].
Qed.

(** When the classifier returns, the lengths of its two columns follow
    different arrays: for numeric samples the numeric column is as long as
    the samples and the text column as long as the timestamps; under the
    other two rules it is the other way round. *)
Lemma classifier_lengths (signal : Signal.t)
  (numericColumn : list Np.double) (textColumn : list string) :
  extractSignalsByType signal = Ok (numericColumn, textColumn) ->
  if Np.issubdtype (Signal.samples signal) Np.np_number
  then List.length numericColumn = Np.len (Signal.samples signal) /\
       List.length textColumn = List.length (Signal.timestamps signal)
  else List.length numericColumn = List.length (Signal.timestamps signal) /\
       List.length textColumn = Np.len (Signal.samples signal).
Proof.
  unfold Np.len.
  destruct (Signal.samples signal) as [rows | rows | xs | xs | xs | xs] eqn:E;
    intros H; simpl.
  - rewrite (extractSignalsByType_record _ _ E) in H.
    destruct (Np.traverse (Np.record_pprint record_attribute) rows)
      as [txt |] eqn:Et; simpl in H; [| discriminate].
    inversion H. subst. apply traverse_length in Et.
    rewrite repeat_length, length_map. auto.
  - rewrite (extractSignalsByType_struct _ _ E) in H. discriminate.
  - rewrite (extractSignalsByType_int _ _ E) in H. inversion H.
    rewrite np_empty_str_length, !length_map. auto.
  - rewrite (extractSignalsByType_float _ _ E) in H. inversion H. subst.
    rewrite np_empty_str_length, !length_map. auto.
  - rewrite (extractSignalsByType_bytes _ _ E) in H.
    destruct (forallb Np.is_ascii xs); [| discriminate].
    inversion H. rewrite repeat_length, length_map. auto.
  - rewrite (extractSignalsByType_text _ _ E) in H. inversion H. subst.
    rewrite repeat_length, length_map. auto.
Qed.

(** The classifier returns on the classifiable arrays, and on no other. *)
Lemma classifier_returns (signal : Signal.t) :
  classifiable (Signal.samples signal) <->
  exists numericColumn textColumn,
    extractSignalsByType signal = Ok (numericColumn, textColumn).
Proof.
  destruct (Signal.samples signal) as [rows | rows | xs | xs | xs | xs] eqn:E;
    simpl.
  - rewrite (extractSignalsByType_record _ _ E). split.
    + intros H.
      rewrite (traverse_in_ok _
                 (fun r => String.concat newline
                    (map (fun f => Np.pprint_line (longest_name r) (fst f)
                                     (shown r (fst f))) r))).
      * do 2 eexists. reflexivity.
      * intros r Hr. apply record_pprint_fields.
        rewrite Forall_forall in H. exact (H r Hr).
    + intros (num & txt & H).
      destruct (Np.traverse (Np.record_pprint record_attribute) rows)
        as [t |] eqn:Et; simpl in H; [| discriminate].
      apply traverse_ok_inv in Et.
      eapply Forall_impl; [| exact Et].
      intros r (y & Hy) ->. rewrite record_pprint_no_field in Hy.
      discriminate.
  - rewrite (extractSignalsByType_struct _ _ E). split; [contradiction |].
    intros (num & txt & H). discriminate.
  - rewrite (extractSignalsByType_int _ _ E). split; [| trivial].
    intros _. do 2 eexists. reflexivity.
  - rewrite (extractSignalsByType_float _ _ E). split; [| trivial].
    intros _. do 2 eexists. reflexivity.
  - rewrite (extractSignalsByType_bytes _ _ E). split.
    + intros H.
      replace (forallb Np.is_ascii xs) with true.
      * do 2 eexists. reflexivity.
      * symmetry. apply forallb_forall. rewrite Forall_forall in H. exact H.
    + intros (num & txt & H).
      destruct (forallb Np.is_ascii xs) eqn:Ea; [| discriminate].
      apply Forall_forall. apply forallb_forall. exact Ea.
  - rewrite (extractSignalsByType_text _ _ E). split; [| trivial].
    intros _. do 2 eexists. reflexivity.
Qed.



End Classifier.

(** C5.  A numeric signal in an environment where the memory [np.empty]
    hands out is not zeroed: the numeric column is the samples, the text
    column is what the memory held, not the empty string. *)
Theorem numeric_text_column_uninitialised :
  let ext := Demo.environment "?" Demo.eager (Demo.recording []) Demo.healthy in
  Np.issubdtype (Signal.samples Demo.speed) Np.np_number = true /\
  @extractSignalsByType ext Demo.speed =
    Ok ([Demo.dbl 10 0; Demo.dbl 41 (-1); Demo.dbl 30 0], ["?"; "?"; "?"]) /\
  ~ Forall (fun s => s = "") ["?"; "?"; "?"].
Proof.
  intros ext. split; [reflexivity |]. split; [reflexivity |].
  intros H. inversion H as [| s l Hs _]. discriminate Hs.
Qed.

(** The same signal where the memory happened to be zeroed: the text
    column reads as empty strings. *)
Example numeric_text_column_zeroed :
  @extractSignalsByType (Demo.externals (Demo.recording []) Demo.healthy)
    Demo.speed =
  Ok ([Demo.dbl 10 0; Demo.dbl 41 (-1); Demo.dbl 30 0], [""; ""; ""]).
Proof. reflexivity. Qed.


(** A field whose name is an attribute of [np.record] is not rendered: the
    attribute is. *)
Example shadowed_field_is_not_rendered :
  @extractSignalsByType (Demo.externals (Demo.recording []) Demo.healthy)
    Cases.shaped =
  Ok ([Np.zero], [("shape: ()" ++ newline ++ "width: 3")%string]).
Proof. reflexivity. Qed.


(** The rendering of the frame above. *)
Example frame_rendering :
  @extractSignalsByType (Demo.externals (Demo.recording []) Demo.healthy)
    Demo.frame =
  Ok ([Np.zero], [(" ID: 291" ++ newline ++ "DLC: 8")%string]).
Proof. reflexivity. Qed.



(** ** Reasoning about [IO.M] *)

Section IOFacts.

Lemma bind_ok {A B} (m : IO.M A) (k : A -> IO.M B) (w w' : world) (a : A) :
  m w = (Ok a, w') -> IO.bind m k w = k a w'.
Proof. intros H. unfold IO.bind. rewrite H. reflexivity. Qed.

Lemma bind_raise {A B} (m : IO.M A) (k : A -> IO.M B) (w w' : world) (e : exn) :
  m w = (Raise e, w') -> IO.bind m k w = (Raise e, w').
Proof. intros H. unfold IO.bind. rewrite H. reflexivity. Qed.

Lemma bind_ok_inv {A B} (m : IO.M A) (k : A -> IO.M B) (w w'' : world) (b : B) :
  IO.bind m k w = (Ok b, w'') ->
  exists a w', m w = (Ok a, w') /\ k a w' = (Ok b, w'').
Proof.
  unfold IO.bind. destruct (m w) as [[a | e] w'] eqn:E; intros H.
  - exists a, w'. split; [reflexivity | exact H].
  - discriminate.
Qed.

Lemma bind_frame {A B} (P : world -> world -> Prop) (m : IO.M A)
  (k : A -> IO.M B) :
  (forall w, P w w) ->
  (forall w1 w2 w3, P w1 w2 -> P w2 w3 -> P w1 w3) ->
  (forall w r w', m w = (r, w') -> P w w') ->
  (forall a w r w', k a w = (r, w') -> P w w') ->
  forall w r w', IO.bind m k w = (r, w') -> P w w'.
Proof.
  intros Hrefl Htrans Hm Hk w r w' H. unfold IO.bind in H.
  destruct (m w) as [[a | e] w1] eqn:E.
  - eapply Htrans; [eapply Hm, E | eapply Hk, H].
  - inversion H. subst. eapply Hm, E.
Qed.

Lemma for_enumerate_counter {A St} (body : nat -> A -> St -> IO.M St)
  (xs : list A) :
  forall start counter s w c' s' w',
    IO.for_enumerate body start xs counter s w = (Ok (c', s'), w') ->
    c' = last_index start xs counter.
Proof.
  induction xs as [| x xs IH]; intros start counter s w c' s' w' H; simpl in H.
  - inversion H. reflexivity.
  - apply bind_ok_inv in H. destruct H as (s1 & w1 & _ & H).
    apply IH in H. subst c'. simpl.
    destruct xs as [| y ys]; simpl; f_equal; lia.
Qed.

End IOFacts.

(** ** The tasks of the columnar export and the pool *)

Section Tasks.

Context {ext : Externals}.

Lemma pa_table_signal_table (uuid a b c : string) (signal : Signal.t)
  (num : list Np.double) (txt : list string) (st bt : string) :
  pa_table (signal_table uuid a b c signal num txt st bt) =
  if Nat.eqb (List.length (Signal.timestamps signal)) (List.length num) &&
     Nat.eqb (List.length (Signal.timestamps signal)) (List.length txt)
  then Ok (signal_table uuid a b c signal num txt st bt)
  else Raise ArrowInvalid.
Proof.
  unfold pa_table, signal_table, Np.full.
  cbn [col_source_uuid col_name col_unit col_timestamp col_value
       col_value_string col_source col_channel_group_acq_name
       col_acq_source_name col_acq_source_path col_source_type col_bus_type
       forallb].
  rewrite !repeat_length, !Nat.eqb_refl. cbn [andb].
  destruct (Nat.eqb _ (List.length num)), (Nat.eqb _ (List.length txt));
    reflexivity.
Qed.

(** [processSignal] is its [try] block followed by the write, under a
    handler that swallows everything. *)
Lemma processSignal_eq (counter : nat) (a b c : string) (signal : Signal.t)
  (uuid targetdir : string) (w : world) :
  processSignal counter a b c signal uuid targetdir w =
  IO.try_except
    (IO.bind (IO.lift (partition_of uuid a b c signal))
       (fun table => write_to_dataset table targetdir))
    (fun _ => IO.ret tt) w.
Proof.
  unfold processSignal, partition_of, source_strings, signal_table,
    IO.try_except, IO.bind, IO.lift.
  destruct (extractSignalsByType signal) as [[num txt] | e]; [| reflexivity].
  cbn [Py.bind].
  destruct (dict_getitem SOURCE_TYPE_TO_STRING _) as [st | e]; [| reflexivity].
  cbn [Py.bind].
  destruct (dict_getitem BUS_TYPE_TO_STRING _) as [bt | e]; reflexivity.
Qed.

Lemma write_to_dataset_eq (table : Table) (root_path : string) (w : world) :
  write_to_dataset table root_path w =
  match fault (WriteToDataset root_path table) w with
  | Some e => (Raise e, w)
  | None =>
      (Ok tt, {| files := files w; dirs := dirs w;
                 datasets := datasets w ++ [(root_path, table)];
                 stdout := stdout w |})
  end.
Proof.
  unfold write_to_dataset, IO.bind, outside, IO.modify.
  destruct (fault _ w); reflexivity.
Qed.

Lemma processSignal_spec (counter : nat) (a b c : string)
  (signal : Signal.t) (uuid targetdir : string) (w : world) :
  processSignal counter a b c signal uuid targetdir w =
  match partition_of uuid a b c signal with
  | Ok table =>
      match fault (WriteToDataset targetdir table) w with
      | None =>
          (Ok tt, {| files := files w; dirs := dirs w;
                     datasets := datasets w ++ [(targetdir, table)];
                     stdout := stdout w |})
      | Some _ => (Ok tt, w)
      end
  | Raise _ => (Ok tt, w)
  end.
Proof.
  rewrite processSignal_eq. unfold IO.try_except, IO.bind, IO.lift, IO.ret.
  destruct (partition_of uuid a b c signal) as [table | e]; [| reflexivity].
  rewrite write_to_dataset_eq.
  destruct (fault (WriteToDataset targetdir table) w); reflexivity.
Qed.

Lemma partition_for_eq (mdf : MDF) (uuid : string) (signal : Signal.t) :
  partition_for mdf uuid signal =
  partition_of uuid (or_empty (lookup_acq_name mdf signal))
    (or_empty (lookup_acq_source_name mdf signal))
    (or_empty (lookup_acq_source_path mdf signal)) signal.
Proof. unfold partition_for. rewrite getSource_eq. reflexivity. Qed.

Lemma steps_snoc {A} (R : A -> world -> world -> Prop) (xs : list A) (x : A)
  (w w1 w2 : world) :
  steps R xs w w1 -> R x w1 w2 -> steps R (xs ++ [x]) w w2.
Proof.
  induction 1 as [w | y ys w wa wb Hy _ IH]; intros Hx; simpl.
  - econstructor; [exact Hx | constructor].
  - econstructor; [exact Hy | exact (IH Hx)].
Qed.

Variables (mdf : MDF) (uuid targetdir : string).

(** A task never raises, and what it does to the world is the step of its
    signal. *)
Lemma task_of_step (counter : nat) (signal : Signal.t) (w : world) :
  exists w',
    task_of mdf uuid targetdir counter signal w = (Ok tt, w') /\
    task_step mdf uuid targetdir signal w w'.
Proof.
  unfold task_of. rewrite processSignal_spec, <- partition_for_eq.
  unfold task_step, datasets_only.
  destruct (partition_for mdf uuid signal) as [table | e].
  - destruct (fault (WriteToDataset targetdir table) w) eqn:E;
      eexists; (split; [reflexivity |]); simpl.
    + split; [auto |]. split; [left; reflexivity |].
      intros t Ht Hf. inversion Ht. subst t. rewrite E in Hf. discriminate.
    + split; [auto |]. split; [right; exists table; auto |].
      intros t Ht _. inversion Ht. reflexivity.
  - eexists. split; [reflexivity |]. simpl.
    split; [auto |]. split; [left; reflexivity |].
    intros t Ht. discriminate.
Qed.

(** What a sequence of task steps adds up to. *)
Lemma task_steps_sum (xs : list Signal.t) (w w' : world) :
  steps (task_step mdf uuid targetdir) xs w w' ->
  datasets_only w w' /\
  exists added,
    datasets w' = datasets w ++ added /\
    List.length added <= List.length xs /\
    Forall (fun p => fst p = targetdir /\
                     exists signal, In signal xs /\
                                    partition_for mdf uuid signal = Ok (snd p))
      added.
Proof.
  induction 1 as [w | x xs w w1 w2 (Hfr & Hcase & _) _ (Hfr' & added & Hd & Hlen & Hall)].
  - split; [repeat split |]. exists []. rewrite app_nil_r.
    split; [reflexivity |]. split; [simpl; lia | constructor].
  - split.
    { destruct Hfr as (F1 & F2), Hfr' as (G1 & G2).
      split; congruence. }
    assert (Hall' : Forall
              (fun p => fst p = targetdir /\
                        exists signal, In signal (x :: xs) /\
                          partition_for mdf uuid signal = Ok (snd p)) added).
    { eapply Forall_impl; [| exact Hall].
      intros p (Hp & s & Hin & Hs). split; [exact Hp |].
      exists s. split; [right; exact Hin | exact Hs]. }
    destruct Hcase as [Hsame | (table & Ht & Happ)].
    + exists added. rewrite Hd, Hsame. split; [reflexivity |].
      split; [simpl; lia | exact Hall'].
    + exists ((targetdir, table) :: added).
      rewrite Hd, Happ, <- app_assoc. split; [reflexivity |].
      split; [simpl; lia |]. constructor; [| exact Hall'].
      split; [reflexivity |]. exists x. split; [left; reflexivity | exact Ht].
Qed.

(** With every partition buildable and a sink that takes every write, the
    steps add the partitions of the signals, one each, in their order. *)
Lemma task_steps_all (xs : list Signal.t) (w w' : world) :
  (forall table w0, fault (WriteToDataset targetdir table) w0 = None) ->
  Forall (fun signal => exists table, partition_for mdf uuid signal = Ok table)
    xs ->
  steps (task_step mdf uuid targetdir) xs w w' ->
  exists added,
    datasets w' = datasets w ++ added /\
    Forall2 (fun signal p => fst p = targetdir /\
                             partition_for mdf uuid signal = Ok (snd p))
      xs added.
Proof.
  intros Hsink Hall Hsteps.
  induction Hsteps as [w | x xs w w1 w2 (_ & _ & Hwrite) _ IH].
  - exists []. rewrite app_nil_r. split; [reflexivity | constructor].
  - inversion Hall as [| ? ? (table & Ht) Hall']. subst.
    destruct (IH Hall') as (added & Hd & Hf2).
    exists ((targetdir, table) :: added).
    rewrite Hd, (Hwrite table Ht (Hsink table w)), <- app_assoc.
    split; [reflexivity |]. constructor; [| exact Hf2].
    split; [reflexivity | exact Ht].
Qed.

(** *** Lists updated in place *)

Lemma nth_error_set_nth_eq {A} (k : nat) (x : A) (l : list A) :
  k < List.length l -> nth_error (set_nth k x l) k = Some x.
Proof.
  revert k. induction l as [| y l IH]; intros [| k] H; simpl in *;
    try lia; [reflexivity |]. apply IH. lia.
Qed.

Lemma nth_error_set_nth_neq {A} (k j : nat) (x : A) (l : list A) :
  j <> k -> nth_error (set_nth k x l) j = nth_error l j.
Proof.
  revert k j. induction l as [| y l IH]; intros [| k] [| j] H; simpl;
    try reflexivity; try congruence.
  apply IH. congruence.
Qed.

Lemma Forall2_nth_error_right {A B} (R : A -> B -> Prop) (xs : list A)
  (p : list B) (i : nat) (s : B) :
  Forall2 R xs p -> nth_error p i = Some s ->
  exists x, nth_error xs i = Some x /\ R x s.
Proof.
  intros H. revert i. induction H as [| x y xs p Hxy _ IH]; intros [| i] Hi;
    simpl in *; try discriminate.
  - inversion Hi. subst. exists x. auto.
  - exact (IH i Hi).
Qed.

Lemma Forall2_set_nth {A B} (R : A -> B -> Prop) (xs : list A) (p : list B)
  (i : nat) (x : A) (s : B) :
  Forall2 R xs p -> nth_error xs i = Some x -> R x s ->
  Forall2 R xs (set_nth i s p).
Proof.
  intros H. revert i. induction H as [| y t xs p Hy Hrest IH];
    intros [| i] Hi Hs; simpl in *; try discriminate.
  - inversion Hi. subst. constructor; assumption.
  - constructor; [exact Hy | exact (IH i Hi Hs)].
Qed.

(** *** The signals whose task has ended *)

Lemma ended_set_nth (xs : list Signal.t) (p : pool) (i : nat)
  (x : Signal.t) (task : IO.M unit) (r : result unit) :
  nth_error xs i = Some x ->
  nth_error p i = Some (Pending task) ->
  Permutation (ended xs (set_nth i (Done r) p)) (x :: ended xs p).
Proof.
  revert xs p. induction i as [| i IH]; intros [| y xs] [| s p] Hx Hp;
    simpl in *; try discriminate.
  - inversion Hx. inversion Hp. subst. simpl. apply Permutation_refl.
  - specialize (IH xs p Hx Hp). destruct (is_pending s).
    + exact IH.
    + eapply Permutation_trans; [apply perm_skip; exact IH | apply perm_swap].
Qed.

Lemma ended_app (xs : list Signal.t) (p : pool) (x : Signal.t) (s : slot) :
  List.length xs = List.length p ->
  ended (xs ++ [x]) (p ++ [s]) =
  ended xs p ++ (if is_pending s then [] else [x]).
Proof.
  revert p. induction xs as [| y xs IH]; intros [| t p] H; simpl in *;
    try discriminate.
  - destruct (is_pending s); reflexivity.
  - rewrite IH by lia. destruct (is_pending t); reflexivity.
Qed.

Lemma ended_all (xs : list Signal.t) (p : pool) :
  List.length xs = List.length p ->
  Forall (fun s => s = Done (Ok tt)) p ->
  ended xs p = xs.
Proof.
  revert p. induction xs as [| y xs IH]; intros [| t p] H Hall; simpl in *;
    try discriminate; [reflexivity |].
  inversion Hall as [| ? ? Ht Hp]. subst. simpl. f_equal. apply IH; [lia | exact Hp].
Qed.

(** *** The pool keeps its invariant *)

Local Abbreviation inv := (pool_inv mdf uuid targetdir).

Lemma pool_inv_length (xs : list Signal.t) (p : pool) (w0 w : world) :
  inv xs p w0 w -> List.length p = List.length xs.
Proof. intros (H & _). symmetry. exact (Forall2_length H). Qed.

Lemma kept_refl (p : pool) : kept p p.
Proof. intros i H. exact H. Qed.

Lemma kept_trans (p q r : pool) : kept p q -> kept q r -> kept p r.
Proof. intros H1 H2 i H. apply H2, H1, H. Qed.

(** A worker ends a task: its step is added to the world, and the task is
    marked as ended. *)
Lemma complete_inv (xs : list Signal.t) (p : pool) (w0 w : world) (i : nat) :
  inv xs p w0 w ->
  exists p' w',
    complete i p w = (Ok p', w') /\
    inv xs p' w0 w' /\
    kept p p' /\
    (i < List.length p -> nth_error p' i = Some (Done (Ok tt))).
Proof.
  intros (Hslots & order & Hperm & Hsteps). unfold complete.
  destruct (nth_error p i) as [[task | r] |] eqn:E.
  - destruct (Forall2_nth_error_right _ _ _ _ _ Hslots E)
      as (x & Hx & [Habs | (c & Htask)]); [discriminate |].
    inversion Htask. subst task.
    destruct (task_of_step c x w) as (w' & Hrun & Hstep). rewrite Hrun.
    exists (set_nth i (Done (Ok tt)) p), w'.
    split; [reflexivity |]. split; [| split].
    + split.
      * eapply Forall2_set_nth; [exact Hslots | exact Hx | left; reflexivity].
      * exists (order ++ [x]). split; [| eapply steps_snoc; eassumption].
        eapply Permutation_trans;
          [apply Permutation_sym, Permutation_cons_append |].
        eapply Permutation_trans; [apply perm_skip; exact Hperm |].
        apply Permutation_sym. eapply ended_set_nth; eassumption.
    + intros j Hj. rewrite nth_error_set_nth_neq; [exact Hj |].
      intros ->. rewrite E in Hj. discriminate.
    + intros Hi. apply nth_error_set_nth_eq. exact Hi.
  - exists p, w. split; [reflexivity |].
    split; [split; [exact Hslots | exists order; auto] |].
    split; [apply kept_refl |]. intros _.
    destruct (Forall2_nth_error_right _ _ _ _ _ Hslots E)
      as (x & _ & [Hdone | (c & Habs)]); [| discriminate].
    rewrite E, Hdone. reflexivity.
  - exists p, w. split; [reflexivity |].
    split; [split; [exact Hslots | exists order; auto] |].
    split; [apply kept_refl |]. intros Hi.
    apply nth_error_None in E. lia.
Qed.

Lemma completions_inv (tasks : list nat) (xs : list Signal.t) :
  forall p w0 w,
    inv xs p w0 w ->
    exists p' w',
      IO.for_in complete tasks p w = (Ok p', w') /\
      inv xs p' w0 w' /\ kept p p'.
Proof.
  induction tasks as [| i tasks IH]; intros p w0 w H; simpl.
  - exists p, w. split; [reflexivity |]. split; [exact H | apply kept_refl].
  - destruct (complete_inv xs p w0 w i H) as (p1 & w1 & H1 & Hinv1 & Hk1 & _).
    destruct (IH p1 w0 w1 Hinv1) as (p2 & w2 & H2 & Hinv2 & Hk2).
    exists p2, w2. rewrite (bind_ok _ _ _ _ _ H1).
    split; [exact H2 |]. split; [exact Hinv2 |].
    eapply kept_trans; eassumption.
Qed.

Lemma workers_inv (xs : list Signal.t) (p : pool) (w0 w : world) :
  inv xs p w0 w ->
  exists p' w',
    workers p w = (Ok p', w') /\ inv xs p' w0 w' /\ kept p p'.
Proof. intros H. unfold workers. apply completions_inv. exact H. Qed.

(** [apply_async] makes room for the task of one more signal. *)
Lemma apply_async_inv (xs : list Signal.t) (p : pool) (w0 w : world)
  (counter : nat) (x : Signal.t) :
  inv xs p w0 w ->
  exists p' w',
    apply_async (task_of mdf uuid targetdir counter x) p w =
      (Ok ({| task_id := List.length xs |}, p'), w') /\
    inv (xs ++ [x]) p' w0 w'.
Proof.
  intros H. pose proof (pool_inv_length _ _ _ _ H) as Hlen.
  destruct H as (Hslots & order & Hperm & Hsteps).
  assert (H' : inv (xs ++ [x])
                 (p ++ [Pending (task_of mdf uuid targetdir counter x)]) w0 w).
  { split.
    - apply Forall2_app; [exact Hslots |].
      constructor; [right; exists counter; reflexivity | constructor].
    - exists order. split; [| exact Hsteps].
      rewrite ended_app by lia. simpl. rewrite app_nil_r. exact Hperm. }
  destruct (workers_inv _ _ _ _ H') as (p' & w' & Hrun & Hinv & _).
  exists p', w'. unfold apply_async.
  rewrite (bind_ok _ _ _ _ _ Hrun), Hlen. split; [reflexivity | exact Hinv].
Qed.

(** [r.wait()] returns with the task of [r] ended. *)
Lemma wait_inv (xs : list Signal.t) (p : pool) (w0 w : world)
  (r : AsyncResult) :
  inv xs p w0 w ->
  exists p' w',
    wait r p w = (Ok p', w') /\
    inv xs p' w0 w' /\
    kept p p' /\
    (task_id r < List.length p ->
     nth_error p' (task_id r) = Some (Done (Ok tt))).
Proof.
  intros H.
  destruct (workers_inv _ _ _ _ H) as (p1 & w1 & H1 & Hinv1 & Hk1).
  destruct (complete_inv _ _ _ _ (task_id r) Hinv1)
    as (p2 & w2 & H2 & Hinv2 & Hk2 & Hr).
  exists p2, w2. unfold wait. rewrite (bind_ok _ _ _ _ _ H1).
  split; [exact H2 |]. split; [exact Hinv2 |].
  split; [eapply kept_trans; eassumption |].
  intros Hlt. apply Hr.
  rewrite (pool_inv_length _ _ _ _ Hinv1), <- (pool_inv_length _ _ _ _ H).
  exact Hlt.
Qed.

(** *** The two loops of [writeParquet] *)

Local Abbreviation dispatch :=
  (fun counter signal '(result, pool) =>
     (' (channel_group_acq_name, acq_source_name, acq_source_path) <-
        IO.lift (getSource mdf signal) ;;
      ' (r, pool) <-
        apply_async
          (processSignal counter channel_group_acq_name acq_source_name
             acq_source_path signal uuid targetdir) pool ;;
      IO.ret (result ++ [r], pool))%io).

Lemma dispatch_eq (counter : nat) (signal : Signal.t)
  (result : list AsyncResult) (p : pool) (w : world) :
  dispatch counter signal (result, p) w =
  (' (r, pool) <- apply_async (task_of mdf uuid targetdir counter signal) p ;;
   IO.ret (result ++ [r], pool))%io w.
Proof.
  cbv beta iota. unfold IO.bind at 1. rewrite getSource_eq. reflexivity.
Qed.

Lemma dispatch_loop (ys : list Signal.t) :
  forall xs result p w0 w counter,
    inv xs p w0 w ->
    map task_id result = seq 0 (List.length xs) ->
    exists result' p' w',
      IO.for_enumerate dispatch (List.length xs) ys counter (result, p) w =
        (Ok (last_index (List.length xs) ys counter, (result', p')), w') /\
      inv (xs ++ ys) p' w0 w' /\
      map task_id result' = seq 0 (List.length (xs ++ ys)).
Proof.
  induction ys as [| y ys IH]; intros xs result p w0 w counter Hinv Hids.
  - exists result, p, w. rewrite app_nil_r. split; [reflexivity | auto].
  - destruct (apply_async_inv xs p w0 w (List.length xs) y Hinv)
      as (p1 & w1 & H1 & Hinv1).
    assert (Hids1 : map task_id (result ++ [{| task_id := List.length xs |}])
                    = seq 0 (List.length (xs ++ [y]))).
    { rewrite map_app, Hids, length_app. simpl.
      rewrite Nat.add_1_r, seq_S. reflexivity. }
    destruct (IH (xs ++ [y]) _ p1 w0 w1 (Some (List.length xs)) Hinv1 Hids1)
      as (result' & p' & w' & H2 & Hinv2 & Hids2).
    exists result', p', w'.
    rewrite <- app_assoc in Hinv2, Hids2. simpl in Hinv2, Hids2.
    split; [| auto].
    cbn [IO.for_enumerate]. unfold IO.bind at 1.
    rewrite dispatch_eq. unfold IO.bind at 1. rewrite H1.
    cbv beta iota. unfold IO.ret at 1.
    rewrite length_app in H2. simpl in H2. rewrite Nat.add_1_r in H2.
    rewrite H2. destruct ys as [| z zs]; simpl; repeat f_equal; lia.
Qed.

Lemma wait_loop (rs : list AsyncResult) (xs : list Signal.t) :
  forall p w0 w,
    inv xs p w0 w ->
    exists p' w',
      IO.for_in (fun r pool => wait r pool) rs p w = (Ok p', w') /\
      inv xs p' w0 w' /\
      kept p p' /\
      forall r, In r rs -> task_id r < List.length xs ->
                nth_error p' (task_id r) = Some (Done (Ok tt)).
Proof.
  induction rs as [| r rs IH]; intros p w0 w Hinv; simpl.
  - exists p, w. split; [reflexivity |]. split; [exact Hinv |].
    split; [apply kept_refl | contradiction].
  - destruct (wait_inv xs p w0 w r Hinv) as (p1 & w1 & H1 & Hinv1 & Hk1 & Hr).
    destruct (IH p1 w0 w1 Hinv1) as (p2 & w2 & H2 & Hinv2 & Hk2 & Hrs).
    exists p2, w2. rewrite (bind_ok _ _ _ _ _ H1).
    split; [exact H2 |]. split; [exact Hinv2 |].
    split; [eapply kept_trans; eassumption |].
    intros r' [<- | Hin] Hlt.
    + apply Hk2, Hr. rewrite (pool_inv_length _ _ _ _ Hinv). exact Hlt.
    + exact (Hrs r' Hin Hlt).
Qed.

(** *** Two schedules *)

Lemma complete_ended (i : nat) (p : pool) (w : world) :
  Forall (fun s => is_pending s = false) p ->
  complete i p w = (Ok p, w).
Proof.
  intros H. unfold complete.
  destruct (nth_error p i) as [[task | r] |] eqn:E; try reflexivity.
  apply nth_error_In in E. rewrite Forall_forall in H.
  specialize (H _ E). discriminate.
Qed.

Lemma completions_ended (tasks : list nat) (p : pool) (w : world) :
  Forall (fun s => is_pending s = false) p ->
  IO.for_in complete tasks p w = (Ok p, w).
Proof.
  intros H. induction tasks as [| i tasks IH]; simpl; [reflexivity |].
  rewrite (bind_ok _ _ _ _ _ (complete_ended i p w H)). exact IH.
Qed.

Lemma completions_last (tasks : list nat) (p : pool) (task : IO.M unit)
  (w : world) :
  Forall (fun s => is_pending s = false) p ->
  In (List.length p) tasks ->
  IO.for_in complete tasks (p ++ [Pending task]) w =
  (Ok (p ++ [Done (fst (task w))]), snd (task w)).
Proof.
  intros Hp. induction tasks as [| i tasks IH]; intros Hin; [contradiction |].
  simpl. destruct (Nat.eq_dec i (List.length p)) as [-> | Hne].
  - assert (E : complete (List.length p) (p ++ [Pending task]) w =
                (Ok (p ++ [Done (fst (task w))]), snd (task w))).
    { unfold complete. rewrite nth_error_app2 by lia.
      rewrite Nat.sub_diag. simpl. destruct (task w) as [r w'] eqn:Et.
      simpl. repeat f_equal.
      clear. induction p as [| s p IH]; simpl; [reflexivity |].
      f_equal. exact IH. }
    rewrite (bind_ok _ _ _ _ _ E). apply completions_ended.
    apply Forall_app. split; [exact Hp | repeat constructor].
  - assert (E : complete i (p ++ [Pending task]) w =
                (Ok (p ++ [Pending task]), w)).
    { unfold complete.
      destruct (nth_error (p ++ [Pending task]) i) as [[t | r] |] eqn:E;
        try reflexivity.
      exfalso. destruct (Nat.lt_ge_cases i (List.length p)) as [Hlt | Hge].
      - rewrite nth_error_app1 in E by exact Hlt.
        apply nth_error_In in E. rewrite Forall_forall in Hp.
        specialize (Hp _ E). discriminate.
      - rewrite nth_error_app2 in E by exact Hge.
        destruct (i - List.length p) as [| k] eqn:Ek; [lia |].
        simpl in E. destruct k; discriminate. }
    rewrite (bind_ok _ _ _ _ _ E). apply IH.
    destruct Hin as [-> | Hin]; [congruence | exact Hin].
Qed.

(** Where no task ends before the parent waits for it, a turn of the first
    loop leaves the world alone and the task running. *)
Lemma dispatch_at_wait (counter : nat) (signal : Signal.t)
  (result : list AsyncResult) (p : pool) (w : world) :
  ends_at_wait ->
  dispatch counter signal (result, p) w =
  (Ok (result ++ [{| task_id := List.length p |}],
       p ++ [Pending (task_of mdf uuid targetdir counter signal)]), w).
Proof.
  intros Hlazy.
  etransitivity; [exact (dispatch_eq counter signal result p w) |].
  unfold IO.bind, apply_async, workers, IO.bind. rewrite Hlazy. reflexivity.
Qed.

(** The handles alone do not end a task.  Under the schedule in which no
    task ends before the parent waits for it, the first loop leaves every
    task running and the world as it was: it is the second loop, the wait
    on every handle, that the end of the tasks is due to. *)
Lemma nothing_ends_before_the_wait (ys : list Signal.t) :
  ends_at_wait ->
  forall start counter result p w,
    Forall (fun s => is_pending s = true) p ->
    exists result' p',
      IO.for_enumerate dispatch start ys counter (result, p) w =
        (Ok (last_index start ys counter, (result', p')), w) /\
      List.length p' = List.length p + List.length ys /\
      Forall (fun s => is_pending s = true) p'.
Proof.
  intros Hlazy.
  induction ys as [| y ys IH]; intros start counter result p w Hp.
  - exists result, p. split; [reflexivity |]. split; [simpl; lia | exact Hp].
  - cbn [IO.for_enumerate].
    rewrite (bind_ok _ _ _ _ _ (dispatch_at_wait start y result p w Hlazy)).
    destruct (IH (S start) (Some start)
                (result ++ [{| task_id := List.length p |}])
                (p ++ [Pending (task_of mdf uuid targetdir start y)]) w)
      as (result' & p' & H & Hlen & Hall).
    + apply Forall_app. split; [exact Hp | repeat constructor].
    + exists result', p'. rewrite H.
      split; [destruct ys; simpl; repeat f_equal; lia |].
      split; [rewrite Hlen, length_app; simpl; lia | exact Hall].
Qed.

(** Where every task ends at its dispatch, a turn of the first loop is the
    step of its signal. *)
Lemma dispatch_at_dispatch (counter : nat) (signal : Signal.t)
  (result : list AsyncResult) (p : pool) (w : world) :
  ends_at_dispatch ->
  Forall (fun s => is_pending s = false) p ->
  exists w',
    dispatch counter signal (result, p) w =
    (Ok (result ++ [{| task_id := List.length p |}], p ++ [Done (Ok tt)]),
     w') /\
    task_step mdf uuid targetdir signal w w'.
Proof.
  intros Heager Hp.
  destruct (task_of_step counter signal w) as (w' & Hrun & Hstep).
  exists w'. split; [| exact Hstep].
  etransitivity; [exact (dispatch_eq counter signal result p w) |].
  unfold IO.bind, apply_async, workers, IO.bind.
  rewrite completions_last;
    [| exact Hp
     | rewrite map_app; simpl;
       rewrite <- (length_map is_pending p); apply Heager].
  rewrite Hrun. reflexivity.
Qed.

Lemma dispatch_loop_in_order (ys : list Signal.t) :
  ends_at_dispatch ->
  forall start counter result p w,
    Forall (fun s => is_pending s = false) p ->
    exists result' p' w',
      IO.for_enumerate dispatch start ys counter (result, p) w =
        (Ok (last_index start ys counter, (result', p')), w') /\
      Forall (fun s => is_pending s = false) p' /\
      steps (task_step mdf uuid targetdir) ys w w'.
Proof.
  intros Heager.
  induction ys as [| y ys IH]; intros start counter result p w Hp.
  - exists result, p, w. split; [reflexivity |]. split; [exact Hp | constructor].
  - cbn [IO.for_enumerate].
    destruct (dispatch_at_dispatch start y result p w Heager Hp)
      as (w1 & H1 & Hstep).
    rewrite (bind_ok _ _ _ _ _ H1).
    destruct (IH (S start) (Some start)
                (result ++ [{| task_id := List.length p |}])
                (p ++ [Done (Ok tt)]) w1)
      as (result' & p' & w' & H & Hall & Hsteps).
    + apply Forall_app. split; [exact Hp | repeat constructor].
    + exists result', p', w'. rewrite H.
      split; [destruct ys; simpl; repeat f_equal; lia |].
      split; [exact Hall | econstructor; eassumption].
Qed.

Lemma wait_loop_ended (rs : list AsyncResult) (p : pool) (w : world) :
  Forall (fun s => is_pending s = false) p ->
  IO.for_in (fun r pool => wait r pool) rs p w = (Ok p, w).
Proof.
  intros Hp. induction rs as [| r rs IH]; simpl; [reflexivity |].
  assert (E : wait r p w = (Ok p, w)).
  { unfold wait, workers, IO.bind.
    rewrite (completions_ended _ p w Hp).
    apply complete_ended. exact Hp. }
  rewrite (bind_ok _ _ _ _ _ E). exact IH.
Qed.

End Tasks.

Section Barrier.

Context {ext : Externals}.

(** The two loops of [writeParquet], for every schedule of the pool: they
    never raise; every signal gets a task and a handle; when the second
    loop ends every task has ended; each has made its step, once, in the
    order in which the tasks ended. *)
Lemma dispatch_and_wait_spec (basename uuid target : string) (mdf : MDF)
  (w : world) :
  exists result p order w',
    dispatch_and_wait basename mdf uuid target w =
      (Ok (last_index 0 (iter_channels mdf) None, result, p), w') /\
    map task_id result = seq 0 (List.length (iter_channels mdf)) /\
    List.length p = List.length (iter_channels mdf) /\
    Forall (fun s => s = Done (Ok tt)) p /\
    Permutation order (iter_channels mdf) /\
    steps (task_step mdf uuid (path_join target (basename ++ "-" ++ uuid)))
      order w w'.
Proof.
  set (targetdir := path_join target (basename ++ "-" ++ uuid)).
  assert (H0 : pool_inv mdf uuid targetdir [] [] w w).
  { split; [constructor |]. exists []. split; constructor. }
  destruct (dispatch_loop mdf uuid targetdir (iter_channels mdf) [] [] [] w w
              None H0 eq_refl)
    as (result & p1 & w1 & H1 & Hinv1 & Hids).
  simpl in H1, Hinv1, Hids.
  destruct (wait_loop mdf uuid targetdir result (iter_channels mdf) p1 w w1
              Hinv1)
    as (p2 & w2 & H2 & Hinv2 & _ & Hdone).
  pose proof (pool_inv_length _ _ _ _ _ _ _ Hinv2) as Hlen.
  assert (Hall : Forall (fun s => s = Done (Ok tt)) p2).
  { apply Forall_forall. intros s Hs.
    apply In_nth_error in Hs. destruct Hs as (i & Hi).
    assert (Hlt : i < List.length (iter_channels mdf)).
    { rewrite <- Hlen. apply nth_error_Some. congruence. }
    assert (Hin : In i (map task_id result)).
    { rewrite Hids. apply in_seq. lia. }
    apply in_map_iff in Hin. destruct Hin as (r & Hr & Hin).
    specialize (Hdone r Hin). rewrite Hr in Hdone.
    specialize (Hdone Hlt). congruence. }
  destruct Hinv2 as (_ & order & Hperm & Hsteps).
  rewrite ended_all in Hperm by (try exact Hall; lia).
  exists result, p2, order, w2.
  split; [| auto].
  unfold dispatch_and_wait. cbv zeta. fold targetdir.
  rewrite (bind_ok _ _ _ _ _ H1). cbv beta iota.
  rewrite (bind_ok _ _ _ _ _ H2). reflexivity.
Qed.

(** The columnar export of a recording with at least one signal, for
    every schedule: it returns the index of the last signal, and the world
    it leaves is the world of the start after the step of every signal's
    task, in the order in which the tasks ended. *)
Lemma writeParquet_steps (basename uuid target : string) (mdf : MDF)
  (w : world) (signal : Signal.t) (rest : list Signal.t) :
  iter_channels mdf = signal :: rest ->
  exists w' order,
    writeParquet basename mdf uuid target w = (Ok (List.length rest), w') /\
    Permutation order (signal :: rest) /\
    steps (task_step mdf uuid (path_join target (basename ++ "-" ++ uuid)))
      order w w'.
Proof.
  intros Hch.
  destruct (dispatch_and_wait_spec basename uuid target mdf w)
    as (result & p & order & w' & Hrun & _ & _ & _ & Hperm & Hsteps).
  exists w', order. unfold writeParquet.
  rewrite (bind_ok _ _ _ _ _ Hrun), Hch in *.
  split; [reflexivity | auto].
Qed.

(** Where every task ends at its dispatch, the order is that of the
    signals. *)
Lemma writeParquet_steps_in_order (basename uuid target : string) (mdf : MDF)
  (w : world) (signal : Signal.t) (rest : list Signal.t) :
  ends_at_dispatch ->
  iter_channels mdf = signal :: rest ->
  exists w',
    writeParquet basename mdf uuid target w = (Ok (List.length rest), w') /\
    steps (task_step mdf uuid (path_join target (basename ++ "-" ++ uuid)))
      (signal :: rest) w w'.
Proof.
  intros Heager Hch.
  destruct (dispatch_loop_in_order mdf uuid
              (path_join target (basename ++ "-" ++ uuid))
              (iter_channels mdf) Heager 0 None [] [] w (Forall_nil _))
    as (result & p & w' & Hrun & Hp & Hsteps).
  exists w'. rewrite Hch in Hsteps. split; [| exact Hsteps].
  assert (Hdw : dispatch_and_wait basename mdf uuid target w =
                (Ok (last_index 0 (iter_channels mdf) None, result, p), w')).
  { unfold dispatch_and_wait. cbv zeta.
    rewrite (bind_ok _ _ _ _ _ Hrun). cbv beta iota.
    rewrite (bind_ok _ _ _ _ _ (wait_loop_ended result p w' Hp)).
    reflexivity. }
  unfold writeParquet. rewrite (bind_ok _ _ _ _ _ Hdw), Hch. reflexivity.
Qed.

End Barrier.

(** ** The count returned by the export step *)

Section Count.

Context {ext : Externals}.

(** The task boundary: whatever the classifier, the tables or the sink do,
    [processSignal] returns normally. *)
Lemma processSignal_never_raises (counter : nat) (a b c : string)
  (signal : Signal.t) (uuid targetdir : string) (w : world) :
  exists w', processSignal counter a b c signal uuid targetdir w = (Ok tt, w').
Proof.
  unfold processSignal, IO.try_except.
  match goal with
  | |- context [match ?m w with _ => _ end] => destruct (m w) as [[[] | e] w']
  end.
  - exists w'. reflexivity.
  - exists w'. reflexivity.
Qed.

(** The columnar export of a recording with at least one signal returns the
    index of the last signal, one less than the number of signals, and it
    does so whatever happened in the tasks. *)
Lemma writeParquet_returns_last_index (basename uuid target : string)
  (mdf : MDF) (w : world) (signal : Signal.t) (rest : list Signal.t) :
  iter_channels mdf = signal :: rest ->
  exists w', writeParquet basename mdf uuid target w = (Ok (List.length rest), w').
Proof.
  intros Hch.
  destruct (writeParquet_steps basename uuid target mdf w signal rest Hch)
    as (w' & order & Hrun & _).
  exists w'. exact Hrun.
Qed.

(** The row export, when it returns, returns the index of the last signal
    too. *)
Lemma writeCsv_returns_last_index (basename uuid target : string)
  (mdf : MDF) (w w' : world) (n : nat) :
  writeCsv basename mdf uuid target w = (Ok n, w') ->
  S n = List.length (iter_channels mdf).
Proof.
  unfold writeCsv. intros H.
  apply bind_ok_inv in H. destruct H as ([c u] & w1 & H1 & H2).
  apply for_enumerate_counter in H1. subst c.
  destruct (iter_channels mdf) as [| s rest]; simpl in H2.
  - discriminate.
  - inversion H2. simpl. reflexivity.
Qed.

(** So does the signal dump. *)
Lemma dumpSignals_returns_last_index (mdf : MDF) (w w' : world) (n : nat) :
  dumpSignals mdf w = (Ok n, w') ->
  S n = List.length (iter_channels mdf).
Proof.
  unfold dumpSignals. intros H.
  apply bind_ok_inv in H. destruct H as ([c u] & w1 & H1 & H2).
  apply for_enumerate_counter in H1. subst c.
  destruct (iter_channels mdf) as [| s rest]; simpl in H2.
  - discriminate.
  - inversion H2. simpl. reflexivity.
Qed.

(** C10.  On a recording without signals the three counting operations
    raise UnboundLocalError, the loop variable [counter] never having been
    bound; [processFile] does not handle it, so the run of the recording
    ends with that exception and the world as it was: no file, no
    manifest. *)
Theorem no_signal_unbound_counter (mdf : MDF) (w : world)
  (basename uuid tgt filename : string) (args : Args) :
  iter_channels mdf = [] ->
  dumpSignals mdf w = (Raise UnboundLocalError, w) /\
  writeParquet basename mdf uuid tgt w = (Raise UnboundLocalError, w) /\
  writeCsv basename mdf uuid tgt w = (Raise UnboundLocalError, w) /\
  (MDF_open filename = Ok mdf ->
   dump args = true \/ exportFormat args = "parquet" \/ exportFormat args = "csv" ->
   processFile args filename w = (Raise UnboundLocalError, w)).
Proof.
  intros H.
  assert (Hd : dumpSignals mdf w = (Raise UnboundLocalError, w))
    by (unfold dumpSignals; rewrite H; reflexivity).
  assert (Hp : forall b u t,
             writeParquet b mdf u t w = (Raise UnboundLocalError, w))
    by (intros; unfold writeParquet, dispatch_and_wait; rewrite H; reflexivity).
  assert (Hc : forall b u t,
             writeCsv b mdf u t w = (Raise UnboundLocalError, w))
    by (intros; unfold writeCsv; rewrite H; reflexivity).
  repeat split; auto.
  intros Hopen Hmode. unfold processFile. rewrite Hopen.
  unfold IO.lift. unfold IO.bind at 1.
  destruct (dump args) eqn:Edump.
  - rewrite (bind_raise _ _ _ _ _ Hd). reflexivity.
  - destruct Hmode as [Hm | [Hm | Hm]]; [discriminate | |]; rewrite Hm; simpl.
    + rewrite (bind_raise _ _ _ _ _ (Hp _ _ _)). reflexivity.
    + rewrite (bind_raise _ _ _ _ _ (Hc _ _ _)). reflexivity.
Qed.

End Count.

Lemma no_signal_unbound_counter_witness :
  iter_channels (Demo.recording []) = [] /\
  @processFile (Demo.externals (Demo.recording []) Demo.healthy)
    Demo.csv "drive.mf4" empty_world = (Raise UnboundLocalError, empty_world).
Proof.
  split; [reflexivity |].
  refine (proj2 (proj2 (proj2
    (@no_signal_unbound_counter
       (Demo.externals (Demo.recording []) Demo.healthy)
       (Demo.recording []) empty_world "" "" "" "drive.mf4" Demo.csv
       eq_refl))) eq_refl _).
  right. right. reflexivity.
Defined.

(** ** The manifest *)

Section Manifest.

Context {ext : Externals}.

Lemma get_file_set_file (path : string) (f : file) (fs : list (string * file)) :
  get_file path (set_file path f fs) = Some f.
Proof.
  induction fs as [| [p g] fs IH]; simpl.
  - rewrite String.eqb_refl. reflexivity.
  - destruct (String.eqb path p) eqn:E; simpl.
    + rewrite String.eqb_refl. reflexivity.
    + rewrite E. exact IH.
Qed.

Lemma get_file_set_file_other (path q : string) (f : file)
  (fs : list (string * file)) :
  q <> path -> get_file q (set_file path f fs) = get_file q fs.
Proof.
  intros Hne. induction fs as [| [p g] fs IH]; simpl.
  - destruct (String.eqb_spec q path); [contradiction | reflexivity].
  - destruct (String.eqb_spec path p) as [-> | Hp]; simpl.
    + destruct (String.eqb_spec q p); [contradiction | reflexivity].
    + destruct (String.eqb q p); [reflexivity | exact IH].
Qed.

Lemma outside_inv (c : syscall) (w w' : world) (u : unit) :
  outside c w = (Ok u, w') -> w' = w.
Proof.
  unfold outside. destruct (fault c w); intros H; inversion H. reflexivity.
Qed.

(** The loop that collects the signal descriptors leaves the world alone
    and adds one descriptor per signal. *)
Lemma descriptors_loop (mdf : MDF) (xs : list Signal.t) :
  forall (acc : list SignalDescriptor) (w : world) r w',
    IO.for_in
      (fun signal signals =>
         (' (channel_group_acq_name, acq_source_name, acq_source_path) <-
            IO.lift (getSource mdf signal) ;;
          source_type <- IO.lift (dict_getitem SOURCE_TYPE_TO_STRING
                                    (Source.source_type (Signal.source signal))) ;;
          bus_type <- IO.lift (dict_getitem BUS_TYPE_TO_STRING
                                 (Source.bus_type (Signal.source signal))) ;;
          IO.ret (signals ++
            [ {| d_name := Signal.name signal;
                 d_unit := Signal.unit signal;
                 d_comment := Signal.comment signal;
                 d_group_index := Signal.group_index signal;
                 d_channel_index := Signal.channel_index signal;
                 d_channel_group_acq_name := channel_group_acq_name;
                 d_acq_source_name := acq_source_name;
                 d_acq_source_path := acq_source_path;
                 d_source := Source.name (Signal.source signal);
                 d_source_type := source_type;
                 d_bus_type := bus_type |} ]))%io)
      xs acc w = (r, w') ->
    w' = w /\
    forall signals, r = Ok signals ->
      List.length signals = List.length acc + List.length xs /\
      map d_name signals = map d_name acc ++ map Signal.name xs.
Proof.
  induction xs as [| x xs IH]; intros acc w r w' H; simpl in H.
  - inversion H. split; [reflexivity |]. intros signals Hs. inversion Hs.
    rewrite app_nil_r. simpl. split; [lia | reflexivity].
  - unfold IO.bind at 1 in H. rewrite getSource_eq in H.
    unfold IO.lift at 1 in H. cbv beta iota in H.
    unfold IO.bind at 1 in H. unfold IO.lift at 1 in H.
    destruct (dict_getitem SOURCE_TYPE_TO_STRING _) as [st | e].
    2: { inversion H. split; [reflexivity | intros ? ?; discriminate]. }
    unfold IO.bind at 1 in H. unfold IO.lift at 1 in H.
    destruct (dict_getitem BUS_TYPE_TO_STRING _) as [bt | e].
    2: { inversion H. split; [reflexivity | intros ? ?; discriminate]. }
    unfold IO.ret in H.
    apply IH in H. destruct H as [Hw Hlen]. split; [exact Hw |].
    intros signals Hs. destruct (Hlen signals Hs) as [H1 H2].
    rewrite H1, H2, length_app, map_app. simpl.
    rewrite <- app_assoc. simpl. split; [lia | reflexivity].
Qed.

(** When [writeMetadata] returns, the manifest holds one document; its
    [numberOfChunks] is the argument it was called with, and it describes
    every signal of the recording, in order. *)
Lemma writeMetadata_writes (basename uuid tgt : string) (mdf : MDF)
  (numberOfChunks : nat) (w w' : world) :
  writeMetadata basename mdf uuid tgt numberOfChunks w = (Ok tt, w') ->
  exists doc,
    json_docs (metadata_path basename uuid tgt) w' = [doc] /\
    md_numberOfChunks doc = numberOfChunks /\
    map d_name (md_signals doc) = map Signal.name (iter_channels mdf).
Proof.
  unfold writeMetadata. intros H.
  apply bind_ok_inv in H. destruct H as ([] & w1 & Hopen & H).
  apply bind_ok_inv in H. destruct H as (signals & w2 & Hloop & H).
  apply descriptors_loop in Hloop. destruct Hloop as [-> Hsig].
  destruct (Hsig signals eq_refl) as [_ Hnames].
  unfold open_w in Hopen.
  apply bind_ok_inv in Hopen. destruct Hopen as ([] & w0 & Hout & Hmod).
  apply outside_inv in Hout. subst w0.
  unfold IO.modify in Hmod. inversion Hmod as [Hw1]. clear Hmod.
  unfold file_write in H.
  apply bind_ok_inv in H. destruct H as ([] & w3 & Hout & Hmod).
  apply outside_inv in Hout. subst w3.
  unfold IO.modify in Hmod. inversion Hmod as [Hw']. clear Hmod.
  assert (Hdocs : json_docs (metadata_path basename uuid tgt) w1 = []).
  { rewrite <- Hw1. unfold json_docs, with_files. simpl.
    rewrite get_file_set_file. reflexivity. }
  rewrite Hdocs. simpl.
  eexists. split.
  - unfold json_docs, with_files. simpl. rewrite get_file_set_file. reflexivity.
  - simpl. split; [reflexivity | exact Hnames].
Qed.

(** What the manifest of an export holds as [numberOfChunks]: in either
    export mode, for every recording whose run comes to its end, one less
    than the number of signals of the recording. *)
Lemma export_manifest_count (args : Args) (filename : string) (mdf : MDF)
  (w w' : world) :
  MDF_open filename = Ok mdf ->
  dump args = false ->
  exportFormat args = "parquet" \/ exportFormat args = "csv" ->
  processFile args filename w = (Ok tt, w') ->
  exists doc,
    json_docs (metadata_path (Path_stem filename) uuid4 (target args)) w' = [doc] /\
    S (md_numberOfChunks doc) = List.length (iter_channels mdf).
Proof.
  intros Hopen Hdump Hmode H. unfold processFile in H.
  rewrite Hopen, Hdump in H. unfold IO.bind at 1, IO.lift at 1 in H.
  apply bind_ok_inv in H. destruct H as (n & w1 & Hexp & Hmeta).
  apply writeMetadata_writes in Hmeta.
  destruct Hmeta as (doc & Hdocs & Hn & _).
  exists doc. split; [exact Hdocs |]. rewrite Hn.
  destruct Hmode as [Hm | Hm]; rewrite Hm in Hexp; simpl in Hexp.
  - destruct (iter_channels mdf) as [| s rest] eqn:Ech.
    + unfold writeParquet, dispatch_and_wait in Hexp. rewrite Ech in Hexp.
      discriminate.
    + destruct (writeParquet_returns_last_index (Path_stem filename) uuid4
                  (target args) mdf w s rest Ech) as (w2 & Hp).
      rewrite Hp in Hexp. inversion Hexp. reflexivity.
  - apply writeCsv_returns_last_index in Hexp. exact Hexp.
Qed.

End Manifest.

(** ** Runs on the test recordings *)

(** Row export of the numeric signal: the header and three rows, whose
    [value] is the sample and whose [value_string] is empty. *)
Example speed_row_export :
  let mdf := Demo.recording [Demo.speed] in
  let ext := Demo.externals mdf Demo.healthy in
  let run := @processFile ext Demo.csv "drive.mf4" empty_world in
  let rows := csv_rows "out/drive-6fa459ea/6fa459ea-0.csv.gz" (snd run) in
  fst run = Ok tt /\
  hd_error rows = Some csv_header /\
  map value_cell (tl rows) =
    [ Some (CFloat (Demo.dbl 10 0)); Some (CFloat (Demo.dbl 41 (-1)));
      Some (CFloat (Demo.dbl 30 0)) ] /\
  map (fun row => nth_error row 5) (tl rows) =
    [ Some (CStr ""); Some (CStr ""); Some (CStr "") ].
Proof. vm_compute. repeat split. Qed.

(** C1.  The export of a recording with one signal: one signal is
    enumerated, both export steps return [0], and the manifest holds
    [numberOfChunks] [0] in columnar and in row mode. *)
Theorem manifest_count_of_one_signal :
  let mdf := Demo.recording [Demo.speed] in
  let ext := Demo.externals mdf Demo.healthy in
  let manifest := "out/drive-6fa459ea.metadata.json" in
  List.length (iter_channels mdf) = 1 /\
  fst (@writeParquet ext "drive" mdf "6fa459ea" "out" empty_world) = Ok 0 /\
  fst (@writeCsv ext "drive" mdf "6fa459ea" "out" empty_world) = Ok 0 /\
  map md_numberOfChunks
    (json_docs manifest
       (snd (@processFile ext Demo.parquet "drive.mf4" empty_world))) = [0] /\
  map md_numberOfChunks
    (json_docs manifest
       (snd (@processFile ext Demo.csv "drive.mf4" empty_world))) = [0].
Proof. vm_compute. repeat split. Qed.

(** C3.  A recording whose single signal fails in the sink.  In columnar
    mode the failure stays in the task, the run ends normally and the
    manifest is written, with [numberOfChunks] [0].  In row mode the
    exception leaves [processSignalCSV], [writeCsv] and [processFile]: no
    manifest is written.  With a second signal after the failing one, row
    mode never reaches it, while columnar mode writes its partition. *)
Theorem failing_sink_runs :
  let manifest := "out/drive-6fa459ea.metadata.json" in
  let one := Demo.recording [Demo.frame] in
  let two := Demo.recording [Demo.frame; Demo.speed] in
  let ext1 := Demo.externals one (Demo.sink_down_for "CAN_DataFrame") in
  let ext2 := Demo.externals two (Demo.sink_down_for "CAN_DataFrame") in
  let columnar1 := @processFile ext1 Demo.parquet "drive.mf4" empty_world in
  let row1 := @processFile ext1 Demo.csv "drive.mf4" empty_world in
  let columnar2 := @processFile ext2 Demo.parquet "drive.mf4" empty_world in
  let row2 := @processFile ext2 Demo.csv "drive.mf4" empty_world in
  (fst columnar1 = Ok tt /\
   datasets (snd columnar1) = [] /\
   map md_numberOfChunks (json_docs manifest (snd columnar1)) = [0]) /\
  (fst row1 = Raise OSError /\
   get_file manifest (files (snd row1)) = None) /\
  (fst columnar2 = Ok tt /\
   map (fun p => col_name (snd p)) (datasets (snd columnar2))
     = [["Speed"; "Speed"; "Speed"]] /\
   map md_numberOfChunks (json_docs manifest (snd columnar2)) = [1]) /\
  (fst row2 = Raise OSError /\
   get_file "out/drive-6fa459ea/6fa459ea-1.csv.gz" (files (snd row2)) = None /\
   get_file manifest (files (snd row2)) = None).
Proof. vm_compute. repeat split. Qed.

(** C2.  Row export of a record signal and of a text signal.  No sample of
    theirs converts to a float, and the [value] field of every row written
    for them is the float [0.0] of the classifier's numeric column, not the
    empty placeholder. *)
Theorem row_value_of_unconvertible_samples :
  let mdf := Demo.recording [Demo.frame; Demo.gear] in
  let ext := Demo.externals mdf Demo.healthy in
  let run := @processFile ext Demo.csv "drive.mf4" empty_world in
  let rows0 := csv_rows "out/drive-6fa459ea/6fa459ea-0.csv.gz" (snd run) in
  let rows1 := csv_rows "out/drive-6fa459ea/6fa459ea-1.csv.gz" (snd run) in
  Np.to_float (@float_of_str ext) (Np.SRec [("ID", "291"); ("DLC", "8")])
    = Raise TypeError /\
  Np.to_float (@float_of_str ext) (Np.SStr "park") = Raise ValueError /\
  Np.to_float (@float_of_str ext) (Np.SStr "drive") = Raise ValueError /\
  fst run = Ok tt /\
  map value_cell (tl rows0) = [Some (CFloat Np.zero)] /\
  map value_cell (tl rows1) = [Some (CFloat Np.zero); Some (CFloat Np.zero)] /\
  CFloat Np.zero <> empty_placeholder.
Proof. vm_compute. repeat split. discriminate. Qed.

(** ** Strings and file names *)

Section Strings.

Lemma append_inv_head (p s1 s2 : string) :
  (p ++ s1 = p ++ s2)%string -> s1 = s2.
Proof.
  induction p as [| c p IH]; simpl; intros H; [exact H |].
  injection H as H. apply IH, H.
Qed.

Lemma list_ascii_of_append (s1 s2 : string) :
  list_ascii_of_string (s1 ++ s2) =
  list_ascii_of_string s1 ++ list_ascii_of_string s2.
Proof. induction s1 as [| c s1 IH]; simpl; [| rewrite IH]; reflexivity. Qed.

Lemma append_inv_tail (s1 s2 t : string) :
  (s1 ++ t = s2 ++ t)%string -> s1 = s2.
Proof.
  intros H. apply (f_equal list_ascii_of_string) in H.
  rewrite !list_ascii_of_append in H. apply app_inv_tail in H.
  rewrite <- (string_of_list_ascii_of_string s1),
          <- (string_of_list_ascii_of_string s2), H.
  reflexivity.
Qed.

(** [str] is injective on the non-negative ints. *)
Lemma str_of_nat_inj (i j : nat) : str_of_nat i = str_of_nat j -> i = j.
Proof.
  unfold str_of_nat. intros H.
  apply Unsigned.to_uint_inj.
  apply (f_equal NilEmpty.uint_of_string) in H.
  rewrite !NilEmpty.usu in H. injection H as H. exact H.
Qed.

Lemma prefix_empty (s : string) : String.prefix "" s = true.
Proof. destruct s; reflexivity. Qed.

(** Whether the name of a signal's file is absolute depends on the run id
    alone. *)
Lemma prefix_sep_append (uuid s : string) :
  String.prefix "/" (uuid ++ "-" ++ s) = String.prefix "/" (uuid ++ "-").
Proof.
  destruct uuid as [| c u]; [reflexivity |].
  cbn [String.append String.prefix].
  destruct (ascii_dec "/" c); [| reflexivity].
  rewrite !prefix_empty. reflexivity.
Qed.

(** The path of a signal's file: a prefix that does not depend on the
    signal, the index, the extension. *)
Lemma csv_path_split (targetdir uuid : string) (counter : nat) :
  path_join targetdir (csv_filename uuid counter) =
  (path_join targetdir (uuid ++ "-") ++ str_of_nat counter ++ ".csv.gz")%string.
Proof.
  unfold path_join, csv_filename.
  rewrite prefix_sep_append.
  destruct (String.prefix "/" (uuid ++ "-")).
  - rewrite append_assoc. reflexivity.
  - destruct (String.eqb targetdir "" || endswith_sep targetdir).
    + rewrite !append_assoc. reflexivity.
    + rewrite !append_assoc. reflexivity.
Qed.

Lemma csv_path_inj (targetdir uuid : string) (i j : nat) :
  path_join targetdir (csv_filename uuid i) =
  path_join targetdir (csv_filename uuid j) -> i = j.
Proof.
  rewrite !csv_path_split. intros H.
  apply append_inv_head, append_inv_tail in H.
  apply str_of_nat_inj, H.
Qed.

Lemma csv_filename_contains (uuid : string) (i : nat) :
  contains uuid (csv_filename uuid i) /\
  contains (str_of_nat i) (csv_filename uuid i).
Proof.
  unfold contains, csv_filename. split.
  - exists "", ("-" ++ str_of_nat i ++ ".csv.gz")%string. reflexivity.
  - exists (uuid ++ "-")%string, ".csv.gz". rewrite !append_assoc. reflexivity.
Qed.

End Strings.

(** ** Row sink *)

Section RowSink.

Context {ext : Externals}.

Lemma lift_ok_inv {A} (r : result A) (w w' : world) (a : A) :
  IO.lift r w = (Ok a, w') -> r = Ok a /\ w' = w.
Proof. unfold IO.lift. intros H. inversion H. split; reflexivity. Qed.

Lemma outside_frame (c : syscall) (w w' : world) (r : result unit) :
  outside c w = (r, w') -> w' = w.
Proof.
  unfold outside. destruct (fault c w); intros H; inversion H; reflexivity.
Qed.

Lemma set_file_frame (path q : string) (f : file) (w : world) :
  q <> path -> same_file q w (with_files w (set_file path f (files w))).
Proof. intros H. unfold same_file. simpl. apply get_file_set_file_other, H. Qed.

Lemma writerow_frame (path q : string) (row : list cell) (w w' : world)
  (r : result unit) :
  q <> path -> writerow path row w = (r, w') -> same_file q w w'.
Proof.
  intros Hq H. unfold writerow, IO.bind in H.
  destruct (outside _ w) as [[[] | e] w1] eqn:E; apply outside_frame in E; subst w1.
  - unfold IO.modify in H. inversion H. apply set_file_frame, Hq.
  - inversion H. reflexivity.
Qed.

Lemma gzip_open_frame (path q : string) (w w' : world) (r : result unit) :
  q <> path -> gzip_open path w = (r, w') -> same_file q w w'.
Proof.
  intros Hq H. unfold gzip_open, IO.bind in H.
  destruct (outside _ w) as [[[] | e] w1] eqn:E; apply outside_frame in E; subst w1.
  - unfold IO.modify in H. inversion H. apply set_file_frame, Hq.
  - inversion H. reflexivity.
Qed.

Lemma os_makedirs_frame (dir q : string) (w w' : world) (r : result unit) :
  os_makedirs dir w = (r, w') -> same_file q w w'.
Proof.
  intros H. unfold os_makedirs, IO.bind in H.
  destruct (outside _ w) as [[[] | e] w1] eqn:E; apply outside_frame in E; subst w1.
  - unfold IO.modify in H. inversion H. reflexivity.
  - inversion H. reflexivity.
Qed.

Lemma writerow_ok (path : string) (row : list cell) (w w' : world) :
  writerow path row w = (Ok tt, w') ->
  csv_rows path w' = csv_rows path w ++ [row].
Proof.
  intros H. unfold writerow in H.
  apply bind_ok_inv in H. destruct H as ([] & w1 & Hout & H).
  apply outside_inv in Hout. subst w1.
  unfold IO.modify in H. inversion H.
  unfold csv_rows at 1. simpl. rewrite get_file_set_file. reflexivity.
Qed.

Lemma gzip_open_ok (path : string) (w w' : world) :
  gzip_open path w = (Ok tt, w') -> csv_rows path w' = [].
Proof.
  intros H. unfold gzip_open in H.
  apply bind_ok_inv in H. destruct H as ([] & w1 & Hout & H).
  apply outside_inv in Hout. subst w1.
  unfold IO.modify in H. inversion H.
  unfold csv_rows. simpl. rewrite get_file_set_file. reflexivity.
Qed.

Section Entries.

Variables (path : string)
  (channel_group_acq_name acq_source_name acq_source_path : string)
  (signal : Signal.t) (uuid : string)
  (numericSignals : list Np.double) (stringSignals : list string).

Local Abbreviation entry :=
  (write_entry path channel_group_acq_name acq_source_name acq_source_path
     signal uuid numericSignals stringSignals).

Local Abbreviation entry_row := (entry_row numericSignals).

(** The attempt to convert the sample never raises and has no effect. *)
Lemma numericValue_bound (indx : nat) (w : world) :
  exists v,
    IO.lift
      (try_except
         (x <- Np.getitem (Signal.samples signal) indx ;;
          d <- Np.to_float float_of_str x ;;
          Ok (NvFloat d))%py
         (fun _ => Ok (NvTuple [""]))) w = (Ok v, w).
Proof.
  unfold IO.lift, try_except.
  destruct (Np.getitem (Signal.samples signal) indx) as [x |]; simpl;
    [destruct (Np.to_float float_of_str x); simpl |]; eexists; reflexivity.
Qed.

Lemma write_entry_ok (indx : nat) (w w' : world) :
  entry indx w = (Ok tt, w') ->
  exists row, entry_row indx row /\
              csv_rows path w' = csv_rows path w ++ [row].
Proof.
  unfold write_entry. intros H.
  destruct (numericValue_bound indx w) as (v & Hv).
  rewrite (bind_ok _ _ _ _ _ Hv) in H.
  apply bind_ok_inv in H. destruct H as (ts & w1 & H1 & H).
  apply lift_ok_inv in H1. destruct H1 as [_ ->].
  apply bind_ok_inv in H. destruct H as (d & w1 & H1 & H).
  apply lift_ok_inv in H1. destruct H1 as [Hd ->].
  apply bind_ok_inv in H. destruct H as (vs & w1 & H1 & H).
  apply lift_ok_inv in H1. destruct H1 as [_ ->].
  apply bind_ok_inv in H. destruct H as (st & w1 & H1 & H).
  apply lift_ok_inv in H1. destruct H1 as [_ ->].
  apply bind_ok_inv in H. destruct H as (bt & w1 & H1 & H).
  apply lift_ok_inv in H1. destruct H1 as [_ ->].
  apply writerow_ok in H.
  eexists. split; [| exact H].
  exists d. split; [| reflexivity].
  unfold getitem_nat in Hd.
  destruct (nth_error numericSignals indx); [inversion Hd; reflexivity | discriminate].
Qed.

Lemma write_entry_frame (q : string) (indx : nat) (w w' : world)
  (r : result unit) :
  q <> path -> entry indx w = (r, w') -> same_file q w w'.
Proof.
  intros Hq. unfold write_entry. revert w r w'.
  repeat (apply bind_frame;
          [ reflexivity
          | unfold same_file; intros; congruence
          | intros w r w' H; unfold IO.lift in H; inversion H; reflexivity
          | intros ? ]).
  intros w r w'. apply writerow_frame, Hq.
Qed.

Lemma entries_ok (idxs : list nat) :
  forall w w',
    IO.for_in (fun indx _ => entry indx) idxs tt w = (Ok tt, w') ->
    exists rows, Forall2 entry_row idxs rows /\
                 csv_rows path w' = csv_rows path w ++ rows.
Proof.
  induction idxs as [| i idxs IH]; intros w w' H; simpl in H.
  - inversion H. exists []. split; [constructor | rewrite app_nil_r; reflexivity].
  - apply bind_ok_inv in H. destruct H as ([] & w1 & H1 & H).
    apply write_entry_ok in H1. destruct H1 as (row & Hrow & Hw1).
    apply IH in H. destruct H as (rows & Hrows & Hw').
    exists (row :: rows). split; [constructor; assumption |].
    rewrite Hw', Hw1, <- app_assoc. reflexivity.
Qed.

Lemma entries_frame (q : string) (idxs : list nat) :
  q <> path ->
  forall w r w',
    IO.for_in (fun indx _ => entry indx) idxs tt w = (r, w') ->
    same_file q w w'.
Proof.
  intros Hq. induction idxs as [| i idxs IH]; intros w r w' H; simpl in H.
  - inversion H. reflexivity.
  - revert w r w' H. apply bind_frame.
    + reflexivity.
    + unfold same_file; intros; congruence.
    + intros w r w'. apply write_entry_frame, Hq.
    + intros [] w r w'. apply IH.
Qed.

End Entries.

(** When [processSignalCSV] returns, the signal's file holds the header and
    one row per timestamp; the [value] of row [i] is the float at index [i]
    of the classifier's numeric column. *)
Lemma processSignalCSV_ok (counter : nat) (a b c : string) (signal : Signal.t)
  (uuid targetdir basename : string) (w w' : world) :
  processSignalCSV counter a b c signal uuid targetdir basename w = (Ok tt, w') ->
  exists numericSignals stringSignals rows,
    extractSignalsByType signal = Ok (numericSignals, stringSignals) /\
    csv_rows (path_join targetdir (csv_filename uuid counter)) w'
      = csv_header :: rows /\
    Forall2 (entry_row numericSignals)
      (seq 0 (List.length (Signal.timestamps signal))) rows.
Proof.
  unfold processSignalCSV. intros H.
  apply bind_ok_inv in H. destruct H as ([num txt] & w1 & H1 & H).
  apply lift_ok_inv in H1. destruct H1 as [Hcls ->].
  apply bind_ok_inv in H. destruct H as ([] & w1 & _ & H).
  cbv zeta in H.
  apply bind_ok_inv in H. destruct H as ([] & w2 & Hopen & H).
  apply gzip_open_ok in Hopen.
  apply bind_ok_inv in H. destruct H as ([] & w3 & Hhdr & H).
  apply writerow_ok in Hhdr. rewrite Hopen in Hhdr. simpl in Hhdr.
  apply entries_ok in H. destruct H as (rows & Hrows & Hw').
  exists num, txt, rows. split; [exact Hcls |].
  rewrite Hw', Hhdr. split; [reflexivity | exact Hrows].
Qed.

(** Whatever happens, [processSignalCSV] touches no file but the one named
    after the run id and its own index. *)
Lemma processSignalCSV_frame (counter : nat) (a b c : string)
  (signal : Signal.t) (uuid targetdir basename q : string)
  (w w' : world) (r : result unit) :
  q <> path_join targetdir (csv_filename uuid counter) ->
  processSignalCSV counter a b c signal uuid targetdir basename w = (r, w') ->
  same_file q w w'.
Proof.
  intros Hq. unfold processSignalCSV. revert w r w'.
  apply bind_frame.
  - reflexivity.
  - unfold same_file; intros; congruence.
  - intros w r w' H. unfold IO.lift in H. inversion H. reflexivity.
  - intros [num txt]. apply bind_frame.
    + reflexivity.
    + unfold same_file; intros; congruence.
    + intros w r w'. apply os_makedirs_frame.
    + intros []. cbv zeta. apply bind_frame.
      * reflexivity.
      * unfold same_file; intros; congruence.
      * intros w r w'. apply gzip_open_frame, Hq.
      * intros []. apply bind_frame.
        -- reflexivity.
        -- unfold same_file; intros; congruence.
        -- intros w r w'. apply writerow_frame, Hq.
        -- intros [] w r w'. apply entries_frame, Hq.
Qed.

End RowSink.

(** ** Row export: one file per signal *)

Section RowExport.

Context {ext : Externals}.

Lemma csv_rows_cons (path : string) (w : world) (r : list cell)
  (rs : list (list cell)) :
  csv_rows path w = r :: rs ->
  get_file path (files w) = Some (CsvFile (r :: rs)).
Proof.
  unfold csv_rows.
  destruct (get_file path (files w)) as [[rows | docs] |]; intros H;
    try discriminate.
  rewrite H. reflexivity.
Qed.

Variables (basename : string) (mdf : MDF) (uuid targetdir : string).

Local Abbreviation path i := (path_join targetdir (csv_filename uuid i)).

(** The loop of [writeCsv] from index [start] on: when it runs to its end,
    the file of every signal is in place under its own index, and no other
    file has changed. *)
Lemma csv_loop_files (xs : list Signal.t) :
  forall start counter w c' w',
    IO.for_enumerate
      (fun counter signal (_ : unit) =>
         (' (channel_group_acq_name, acq_source_name, acq_source_path) <-
            IO.lift (getSource mdf signal) ;;
          processSignalCSV counter channel_group_acq_name acq_source_name
            acq_source_path signal uuid targetdir basename)%io)
      start xs counter tt w = (Ok (c', tt), w') ->
    (forall i signal, nth_error xs i = Some signal ->
       exists rows,
         get_file (path (start + i)) (files w')
           = Some (CsvFile (csv_header :: rows)) /\
         List.length rows = List.length (Signal.timestamps signal)) /\
    (forall q, (forall i, i < List.length xs -> q <> path (start + i)) ->
               same_file q w w').
Proof.
  induction xs as [| x xs IH]; intros start counter w c' w' H; simpl in H.
  - inversion H. split.
    + intros [| i] signal Hi; discriminate.
    + intros q _. reflexivity.
  - apply bind_ok_inv in H. destruct H as ([] & w1 & Hx & H).
    unfold IO.bind at 1 in Hx. rewrite getSource_eq in Hx.
    unfold IO.lift in Hx. cbv beta iota in Hx.
    apply IH in H. destruct H as [Hfiles Hframe].
    split.
    + intros [| i] signal Hi; simpl in Hi.
      * inversion Hi. subst signal.
        pose proof (processSignalCSV_ok _ _ _ _ _ _ _ _ _ _ Hx)
          as (num & txt & rows & _ & Hrows & Hall).
        exists rows. split.
        -- rewrite Nat.add_0_r. rewrite Hframe.
           ++ apply csv_rows_cons, Hrows.
           ++ intros i _ Heq. apply csv_path_inj in Heq. lia.
        -- apply Forall2_length in Hall. rewrite length_seq in Hall.
           symmetry. exact Hall.
      * destruct (Hfiles i signal Hi) as (rows & Hget & Hlen).
        exists rows. rewrite <- Nat.add_succ_comm. split; assumption.
    + intros q Hq. unfold same_file.
      rewrite Hframe.
      * eapply processSignalCSV_frame; [| exact Hx].
        specialize (Hq 0). rewrite Nat.add_0_r in Hq. apply Hq. simpl. lia.
      * intros i Hi. rewrite Nat.add_succ_comm. apply Hq. simpl. lia.
Qed.

End RowExport.

(** C8.  In row mode the file of the signal at enumeration index [i] is
    called [f"{uuid}-{i}.csv.gz"]: the name contains the run id and the
    index; two indices never give one name, nor one path in the run's
    directory; and when the export returns, every signal of the recording
    has its file, header first and one row per timestamp, at the path of
    its own index. *)
Theorem row_files_by_run_and_index {ext : Externals}
  (basename uuid tgt : string) (mdf : MDF) (w w' : world) (n : nat) :
  let targetdir := path_join tgt (basename ++ "-" ++ uuid)%string in
  (forall i, contains uuid (csv_filename uuid i) /\
             contains (str_of_nat i) (csv_filename uuid i)) /\
  (forall i j, csv_filename uuid i = csv_filename uuid j -> i = j) /\
  (forall i j, path_join targetdir (csv_filename uuid i) =
               path_join targetdir (csv_filename uuid j) -> i = j) /\
  (writeCsv basename mdf uuid tgt w = (Ok n, w') ->
   forall i signal,
     nth_error (iter_channels mdf) i = Some signal ->
     exists rows,
       get_file (path_join targetdir (csv_filename uuid i)) (files w')
         = Some (CsvFile (csv_header :: rows)) /\
       List.length rows = List.length (Signal.timestamps signal)).
Proof.
  intros targetdir. split; [apply csv_filename_contains |].
  split.
  { intros i j H. apply (csv_path_inj "" uuid).
    unfold path_join. rewrite H. reflexivity. }
  split; [intros i j; apply csv_path_inj |].
  intros H i signal Hi. unfold writeCsv in H.
  apply bind_ok_inv in H. destruct H as ([c []] & w1 & Hloop & Hret).
  assert (w1 = w') as ->.
  { destruct c; simpl in Hret; inversion Hret; reflexivity. }
  apply csv_loop_files in Hloop. destruct Hloop as [Hfiles _].
  apply (Hfiles i signal Hi).
Qed.

Lemma row_files_by_run_and_index_witness :
  let ext := Demo.externals (Demo.recording [Demo.speed; Demo.gear]) Demo.healthy in
  let run := @writeCsv ext "drive" (Demo.recording [Demo.speed; Demo.gear])
               "6fa459ea" "out" empty_world in
  fst run = Ok 1 /\
  exists rows,
    get_file "out/drive-6fa459ea/6fa459ea-1.csv.gz" (files (snd run))
      = Some (CsvFile (csv_header :: rows)) /\
    List.length rows = 2.
Proof.
  intros ext run. split; [reflexivity |].
  assert (Hrun : run = (Ok 1, snd run)) by reflexivity.
  exact (proj2 (proj2 (proj2
    (@row_files_by_run_and_index ext "drive" "6fa459ea" "out"
       (Demo.recording [Demo.speed; Demo.gear]) empty_world (snd run) 1)))
    Hrun 1 Demo.gear eq_refl).
Defined.

(** ** The barrier before the manifest *)

Section ManifestLast.

Context {ext : Externals}.

(** The manifest writer adds no partition. *)
Lemma writeMetadata_keeps_dataset (basename uuid tgt : string) (mdf : MDF)
  (numberOfChunks : nat) (w w' : world) (r : result unit) :
  writeMetadata basename mdf uuid tgt numberOfChunks w = (r, w') ->
  datasets w' = datasets w.
Proof.
  assert (Hout : forall (k : world -> world) s w0 r0 w0',
             (forall w1, datasets (k w1) = datasets w1) ->
             IO.bind (outside s) (fun _ => IO.modify k) w0 = (r0, w0') ->
             datasets w0' = datasets w0).
  { intros k s w0 r0 w0' Hk H. unfold IO.bind, outside, IO.modify in H.
    destruct (fault s w0); inversion H; [reflexivity | apply Hk]. }
  unfold writeMetadata. cbv zeta. revert w r w'.
  apply (bind_frame (fun w w' => datasets w' = datasets w)).
  - reflexivity.
  - intros w1 w2 w3 H1 H2. congruence.
  - intros w r w'. apply Hout. reflexivity.
  - intros []. apply (bind_frame (fun w w' => datasets w' = datasets w)).
    + reflexivity.
    + intros w1 w2 w3 H1 H2. congruence.
    + intros w r w' H. apply descriptors_loop in H. destruct H as [-> _].
      reflexivity.
    + intros signals w r w'. apply Hout. reflexivity.
Qed.

End ManifestLast.

(** C9.  In columnar mode, for every schedule of the pool: the two loops of
    [writeParquet] give every signal a task and a handle and, when the
    wait on the handles is through, every task has ended, none with an
    exception (a failure was caught inside the task).  The world at that
    moment is the world of the start after the step of every task, once
    each, in the order in which the tasks ended; no file has been touched
    yet, so nothing of the manifest is written.  What [processFile] does
    from there is the read of [counter] and the call of [writeMetadata],
    nothing else: the manifest writer starts in a world where every task
    has ended, and no partition is added after it. *)
Theorem manifest_after_every_task {ext : Externals} (args : Args)
  (filename : string) (mdf : MDF) (w : world) :
  MDF_open filename = Ok mdf ->
  dump args = false ->
  exportFormat args = "parquet" ->
  exists result p order w1,
    dispatch_and_wait (Path_stem filename) mdf uuid4 (target args) w =
      (Ok (last_index 0 (iter_channels mdf) None, result, p), w1) /\
    map task_id result = seq 0 (List.length (iter_channels mdf)) /\
    List.length p = List.length (iter_channels mdf) /\
    Forall (fun s => s = Done (Ok tt)) p /\
    Permutation order (iter_channels mdf) /\
    steps (task_step mdf uuid4
             (path_join (target args) (Path_stem filename ++ "-" ++ uuid4)))
      order w w1 /\
    files w1 = files w /\
    processFile args filename w =
      (numberOfChunks <- IO.local (last_index 0 (iter_channels mdf) None) ;;
       writeMetadata (Path_stem filename) mdf uuid4 (target args)
         numberOfChunks)%io w1 /\
    forall r w', processFile args filename w = (r, w') ->
                 datasets w' = datasets w1.
Proof.
  intros Hopen Hdump Hfmt.
  destruct (dispatch_and_wait_spec (Path_stem filename) uuid4 (target args)
              mdf w)
    as (result & p & order & w1 & Hrun & Hids & Hlen & Hall & Hperm & Hsteps).
  exists result, p, order, w1.
  assert (Hfile : processFile args filename w =
                  (numberOfChunks <-
                     IO.local (last_index 0 (iter_channels mdf) None) ;;
                   writeMetadata (Path_stem filename) mdf uuid4 (target args)
                     numberOfChunks)%io w1).
  { unfold processFile. rewrite Hopen, Hdump, Hfmt.
    unfold IO.bind at 1, IO.lift at 1. cbv beta iota. simpl String.eqb.
    cbv beta iota zeta. unfold writeParquet.
    unfold IO.bind at 1 2. rewrite Hrun. reflexivity. }
  repeat (split; [assumption |]).
  split.
  { apply task_steps_sum in Hsteps. destruct Hsteps as ((Hf & _) & _).
    exact Hf. }
  split; [exact Hfile |].
  intros r w' H. rewrite Hfile in H. unfold IO.bind, IO.local in H.
  destruct (last_index 0 (iter_channels mdf) None) as [c |].
  - unfold IO.ret in H. eapply writeMetadata_keeps_dataset. exact H.
  - unfold IO.raise in H. inversion H. reflexivity.
Qed.

Lemma manifest_after_every_task_witness :
  let mdf := Demo.recording [Demo.frame; Demo.speed] in
  let ext := Demo.environment "" (Demo.last_first 2) mdf
               (Demo.sink_down_for "CAN_DataFrame") in
  @MDF_open ext "drive.mf4" = Ok mdf /\
  dump Demo.parquet = false /\
  exportFormat Demo.parquet = "parquet" /\
  exists result p order w1,
    @dispatch_and_wait ext "drive" mdf "6fa459ea" "out" empty_world =
      (Ok (Some 1, result, p), w1) /\
    Forall (fun s => s = Done (Ok tt)) p /\
    Permutation order [Demo.frame; Demo.speed] /\
    @processFile ext Demo.parquet "drive.mf4" empty_world =
      @writeMetadata ext "drive" mdf "6fa459ea" "out" 1 w1.
Proof.
  intros mdf ext.
  split; [reflexivity |]. split; [reflexivity |]. split; [reflexivity |].
  destruct (@manifest_after_every_task ext Demo.parquet "drive.mf4" mdf
              empty_world eq_refl eq_refl eq_refl)
    as (result & p & order & w1 & Hrun & _ & _ & Hall & Hperm & _ & _ & Hfile & _).
  exists result, p, order, w1.
  split; [exact Hrun |]. split; [exact Hall |]. split; [exact Hperm |].
  exact Hfile.
Defined.

(** A run in which the tasks end last in, first out: the partitions come
    in that order, and the manifest is written all the same. *)
Example last_first_run :
  let mdf := Demo.recording [Demo.speed; Demo.gear] in
  let ext := Demo.environment "" (Demo.last_first 2) mdf Demo.healthy in
  let run := @processFile ext Demo.parquet "drive.mf4" empty_world in
  fst run = Ok tt /\
  map (fun p => hd_error (col_name (snd p))) (datasets (snd run)) =
    [Some "Gear"; Some "Speed"] /\
  map md_numberOfChunks
    (json_docs "out/drive-6fa459ea.metadata.json" (snd run)) = [1].
Proof. vm_compute. repeat split. Qed.

(** A run in which no task ends before the parent waits for it. *)
Example lazy_run :
  let mdf := Demo.recording [Demo.speed; Demo.gear] in
  let ext := Demo.environment "" Demo.lazy mdf Demo.healthy in
  let run := @processFile ext Demo.parquet "drive.mf4" empty_world in
  fst run = Ok tt /\
  map (fun p => hd_error (col_name (snd p))) (datasets (snd run)) =
    [Some "Speed"; Some "Gear"] /\
  map md_numberOfChunks
    (json_docs "out/drive-6fa459ea.metadata.json" (snd run)) = [1].
Proof. vm_compute. repeat split. Qed.

(* ================================================================== *)
(** * Further properties of the script                                 *)
(* ================================================================== *)

(** ** Classifier: the columns without the length invariant *)

(** X1.  When the classifier returns, the lengths of its two columns
    follow different arrays: for numeric samples the numeric column is as
    long as the samples and the text column as long as the timestamps; for
    record and text samples it is the other way round. *)
Theorem classifier_column_lengths {ext : Externals} (signal : Signal.t)
  (numericColumn : list Np.double) (textColumn : list string) :
  extractSignalsByType signal = Ok (numericColumn, textColumn) ->
  if Np.issubdtype (Signal.samples signal) Np.np_number
  then List.length numericColumn = Np.len (Signal.samples signal) /\
       List.length textColumn = List.length (Signal.timestamps signal)
  else List.length numericColumn = List.length (Signal.timestamps signal) /\
       List.length textColumn = Np.len (Signal.samples signal).
Proof.
  intros H. pose proof (classifier_lengths signal _ _ H) as Hlen.
  destruct (Np.issubdtype (Signal.samples signal) Np.np_number);
    destruct Hlen as [H1 H2]; split; assumption.
Qed.

Lemma classifier_column_lengths_witness :
  let ext := Demo.externals (Demo.recording []) Demo.healthy in
  @extractSignalsByType ext Cases.ragged =
    Ok ([Np.double_of_Z 1; Np.double_of_Z 2], [""; ""; ""]) /\
  List.length [Np.double_of_Z 1; Np.double_of_Z 2] = 2 /\
  List.length [""; ""; ""] = 3.
Proof.
  intros ext. split; [reflexivity |].
  exact (@classifier_column_lengths ext Cases.ragged
           [Np.double_of_Z 1; Np.double_of_Z 2] [""; ""; ""] eq_refl).
Defined.

(** X2.  Text samples in bytes, as the reader hands them out: when every
    byte of every sample is ASCII the classifier returns a numeric column
    of [0.0], one per timestamp, and as text column the samples decoded,
    character for byte and in order; when a sample has a byte above 127 it
    raises UnicodeDecodeError. *)
Theorem classify_text {ext : Externals} (signal : Signal.t)
  (xs : list string) :
  Signal.samples signal = Np.BytesArray xs ->
  extractSignalsByType signal =
  if forallb Np.is_ascii xs
  then Ok (repeat Np.zero (List.length (Signal.timestamps signal)), xs)
  else Raise UnicodeDecodeError.
Proof.
  intros H. rewrite (extractSignalsByType_bytes signal xs H).
  destruct (forallb Np.is_ascii xs); reflexivity.
Qed.

Lemma classify_text_witness :
  let ext := Demo.externals (Demo.recording []) Demo.healthy in
  Signal.samples Cases.lever = Np.BytesArray ["park"; "drive"] /\
  @extractSignalsByType ext Cases.lever =
    Ok ([Np.zero; Np.zero], ["park"; "drive"]) /\
  @extractSignalsByType ext Cases.menu = Raise UnicodeDecodeError.
Proof.
  intros ext. split; [reflexivity |]. split.
  - exact (@classify_text ext Cases.lever _ eq_refl).
  - exact (@classify_text ext Cases.menu _ eq_refl).
Defined.



(** ** Source resolver: indices from the end *)

Lemma getitem_negative {A} (l : list A) (i : Z) :
  (- Z.of_nat (List.length l) <= i < 0)%Z ->
  getitem l i = getitem l (i + Z.of_nat (List.length l)).
Proof.
  intros H. unfold getitem. cbv zeta.
  assert (E1 : (i <? 0)%Z = true) by (apply Z.ltb_lt; lia).
  assert (E2 : (i + Z.of_nat (List.length l) <? 0)%Z = false)
    by (apply Z.ltb_ge; lia).
  rewrite E1, E2. cbv iota. rewrite E2. reflexivity.
Qed.

(** X3.  A negative group index within [-len(groups), -1] is not absent:
    as with every Python list it counts from the end, so the signal gets
    the source metadata of the group [len(groups) + group_index]. *)
Theorem getSource_counts_from_the_end (mdf : MDF) (signal signal' : Signal.t) :
  (- Z.of_nat (List.length (groups mdf)) <= Signal.group_index signal < 0)%Z ->
  Signal.group_index signal' =
    (Signal.group_index signal + Z.of_nat (List.length (groups mdf)))%Z ->
  getSource mdf signal = getSource mdf signal'.
Proof.
  intros Hneg Hidx. rewrite !getSource_eq.
  unfold lookup_acq_name, lookup_acq_source_name, lookup_acq_source_path,
    lookup_channel_group.
  rewrite (getitem_negative _ _ Hneg), Hidx. reflexivity.
Qed.

Lemma getSource_counts_from_the_end_witness :
  (- Z.of_nat (List.length (groups (Demo.recording [])))
   <= Signal.group_index Cases.from_the_end < 0)%Z /\
  getSource (Demo.recording []) Cases.from_the_end =
  getSource (Demo.recording []) Demo.speed.
Proof.
  split; [simpl; lia |].
  apply getSource_counts_from_the_end; [simpl; lia | reflexivity].
Defined.

(** ** Columnar sink *)

Section Columnar.

Context {ext : Externals}.

Lemma processSignal_cases (counter : nat) (a b c : string)
  (signal : Signal.t) (uuid targetdir : string) (w : world) :
  processSignal counter a b c signal uuid targetdir w = (Ok tt, w) \/
  exists table,
    partition_of uuid a b c signal = Ok table /\
    fault (WriteToDataset targetdir table) w = None /\
    processSignal counter a b c signal uuid targetdir w =
    (Ok tt, {| files := files w; dirs := dirs w;
               datasets := datasets w ++ [(targetdir, table)];
               stdout := stdout w |}).
Proof.
  rewrite processSignal_eq. unfold IO.try_except, IO.bind, IO.lift, IO.ret.
  destruct (partition_of uuid a b c signal) as [table | e]; [| left; reflexivity].
  rewrite write_to_dataset_eq.
  destruct (fault (WriteToDataset targetdir table) w) eqn:E.
  - left. reflexivity.
  - right. exists table. repeat split. exact E.
Qed.

(** A partition is built exactly when the classifier's columns are as long
    as the timestamps and the two tables know the source. *)
Lemma partition_of_ok (uuid a b c : string) (signal : Signal.t)
  (table : Table) :
  partition_of uuid a b c signal = Ok table <->
  exists num txt st bt,
    extractSignalsByType signal = Ok (num, txt) /\
    source_strings signal = Ok (st, bt) /\
    List.length num = List.length (Signal.timestamps signal) /\
    List.length txt = List.length (Signal.timestamps signal) /\
    table = signal_table uuid a b c signal num txt st bt.
Proof.
  unfold partition_of. split.
  - destruct (extractSignalsByType signal) as [[num txt] | e];
      [| discriminate].
    cbn [Py.bind].
    destruct (source_strings signal) as [[st bt] | e]; [| discriminate].
    cbn [Py.bind]. rewrite pa_table_signal_table.
    destruct (Nat.eqb_spec (List.length (Signal.timestamps signal))
                (List.length num)) as [H1 | H1]; [| discriminate].
    destruct (Nat.eqb_spec (List.length (Signal.timestamps signal))
                (List.length txt)) as [H2 | H2]; [| discriminate].
    cbn [andb]. intros H. inversion H.
    exists num, txt, st, bt. auto.
  - intros (num & txt & st & bt & Hc & Hs & H1 & H2 & ->).
    rewrite Hc. cbn [Py.bind]. rewrite Hs. cbn [Py.bind].
    rewrite pa_table_signal_table, H1, H2, !Nat.eqb_refl. reflexivity.
Qed.

Lemma partition_of_ragged (uuid a b c : string) (signal : Signal.t) :
  Np.len (Signal.samples signal) <> List.length (Signal.timestamps signal) ->
  exists e, partition_of uuid a b c signal = Raise e.
Proof.
  intros Hne.
  destruct (partition_of uuid a b c signal) as [table | e] eqn:E;
    [| exists e; reflexivity].
  apply partition_of_ok in E.
  destruct E as (num & txt & st & bt & Hc & _ & H1 & H2 & _).
  pose proof (classifier_lengths signal num txt Hc) as Hlen.
  destruct (Np.issubdtype (Signal.samples signal) Np.np_number);
    destruct Hlen as [L1 L2]; exfalso; apply Hne; congruence.
Qed.

End Columnar.

(** X4.  The task of the columnar export is all or nothing and never
    raises: [processSignal] returns normally whatever the classifier, the
    tables and the sink do; it leaves files and directories as they were;
    and the dataset either is as before or has gained exactly one
    partition under the target directory, the table of this signal. *)
Theorem processSignal_all_or_nothing {ext : Externals} (counter : nat)
  (a b c : string) (signal : Signal.t) (uuid targetdir : string)
  (w : world) :
  exists w',
    processSignal counter a b c signal uuid targetdir w = (Ok tt, w') /\
    datasets_only w w' /\
    (datasets w' = datasets w \/
     exists table,
       partition_of uuid a b c signal = Ok table /\
       datasets w' = datasets w ++ [(targetdir, table)]).
Proof.
  destruct (processSignal_cases counter a b c signal uuid targetdir w)
    as [H | (table & Hp & _ & H)]; rewrite H; eexists;
    (split; [reflexivity |]); (split; [repeat split |]).
  - left. reflexivity.
  - right. exists table. split; [exact Hp | reflexivity].
Qed.

(** X5.  When the signal has as many samples as timestamps, the two tables
    know its source and the sink accepts the write, [processSignal] appends
    one partition: the run id, name, unit, source and source metadata
    repeated on every row, the timestamps, and the two columns of the
    classifier. *)
Theorem processSignal_writes_partition {ext : Externals} (counter : nat)
  (a b c : string) (signal : Signal.t) (uuid targetdir : string)
  (w : world) (num : list Np.double) (txt : list string) (st bt : string) :
  List.length (Signal.timestamps signal) = Np.len (Signal.samples signal) ->
  extractSignalsByType signal = Ok (num, txt) ->
  source_strings signal = Ok (st, bt) ->
  fault (WriteToDataset targetdir
           (signal_table uuid a b c signal num txt st bt)) w = None ->
  exists w',
    processSignal counter a b c signal uuid targetdir w = (Ok tt, w') /\
    datasets w' = datasets w ++
      [(targetdir, signal_table uuid a b c signal num txt st bt)] /\
    files w' = files w /\ dirs w' = dirs w.
Proof.
  intros Hinv Hc Hs Hfault.
  assert (Hp : partition_of uuid a b c signal =
               Ok (signal_table uuid a b c signal num txt st bt)).
  { apply partition_of_ok. exists num, txt, st, bt.
    pose proof (classifier_lengths signal num txt Hc) as Hlen.
    destruct (Np.issubdtype (Signal.samples signal) Np.np_number);
      destruct Hlen as [L1 L2]; repeat split; congruence. }
  rewrite processSignal_eq. unfold IO.try_except, IO.bind, IO.lift.
  rewrite Hp, write_to_dataset_eq, Hfault.
  eexists. split; [reflexivity |]. repeat split.
Qed.

Lemma processSignal_writes_partition_witness :
  let ext := Demo.externals (Demo.recording [Demo.speed]) Demo.healthy in
  List.length (Signal.timestamps Demo.speed) = Np.len (Signal.samples Demo.speed) /\
  map (fun p => (fst p, col_value (snd p), col_value_string (snd p)))
    (datasets (snd (@processSignal ext 0 "Frame1" "CAN1" "CAN1.Frame1"
                      Demo.speed "6fa459ea" "out/drive-6fa459ea" empty_world)))
  = [("out/drive-6fa459ea",
      [Demo.dbl 10 0; Demo.dbl 41 (-1); Demo.dbl 30 0], [""; ""; ""])].
Proof.
  intros ext. split; [reflexivity |].
  destruct (@processSignal_writes_partition ext 0 "Frame1" "CAN1"
              "CAN1.Frame1" Demo.speed "6fa459ea" "out/drive-6fa459ea"
              empty_world
              [Demo.dbl 10 0; Demo.dbl 41 (-1); Demo.dbl 30 0] [""; ""; ""]
              "ECU" "CAN" eq_refl eq_refl eq_refl eq_refl)
    as (w' & Hrun & Hdata & _).
  rewrite Hrun. simpl. rewrite Hdata. reflexivity.
Defined.

(** X6.  A signal whose samples and timestamps differ in number is dropped
    without a trace in columnar mode: the table cannot be built, the
    handler swallows the error, and [processSignal] returns normally with
    files, directories and dataset exactly as they were. *)
Theorem processSignal_drops_ragged_signal {ext : Externals} (counter : nat)
  (a b c : string) (signal : Signal.t) (uuid targetdir : string)
  (w : world) :
  Np.len (Signal.samples signal) <> List.length (Signal.timestamps signal) ->
  exists w',
    processSignal counter a b c signal uuid targetdir w = (Ok tt, w') /\
    files w' = files w /\ dirs w' = dirs w /\ datasets w' = datasets w.
Proof.
  intros Hne. rewrite processSignal_eq.
  destruct (partition_of_ragged uuid a b c signal Hne) as (e & He).
  unfold IO.try_except, IO.bind, IO.lift. rewrite He.
  exists w. repeat split.
Qed.

Lemma processSignal_drops_ragged_signal_witness :
  Np.len (Signal.samples Cases.ragged)
    <> List.length (Signal.timestamps Cases.ragged) /\
  exists w',
    @processSignal (Demo.externals (Demo.recording [Cases.ragged]) Demo.healthy)
      0 "Frame1" "CAN1" "CAN1.Frame1" Cases.ragged "6fa459ea"
      "out/drive-6fa459ea" empty_world = (Ok tt, w') /\
    datasets w' = [].
Proof.
  split; [vm_compute; lia |].
  destruct (@processSignal_drops_ragged_signal
              (Demo.externals (Demo.recording [Cases.ragged]) Demo.healthy)
              0 "Frame1" "CAN1" "CAN1.Frame1" Cases.ragged "6fa459ea"
              "out/drive-6fa459ea" empty_world)
    as (w' & Hrun & _ & _ & Hdata); [vm_compute; lia |].
  exists w'. split; [exact Hrun | exact Hdata].
Defined.

(** ** Columnar export *)



(** X8.  When every signal of the recording has a buildable partition (as
    many samples as timestamps, classifiable samples, a source the tables
    know) and the sink takes every write, the columnar export adds exactly
    one partition per signal under the run's directory, in the order in
    which the pool ended the tasks, whatever that order; where every task
    ends at its dispatch, that is the order of the signals. *)
Theorem writeParquet_one_partition_per_signal {ext : Externals}
  (basename uuid target : string) (mdf : MDF) (w : world)
  (signal : Signal.t) (rest : list Signal.t) :
  iter_channels mdf = signal :: rest ->
  (forall table w0,
     fault (WriteToDataset (path_join target (basename ++ "-" ++ uuid)) table)
       w0 = None) ->
  Forall (fun s => exists table, partition_for mdf uuid s = Ok table)
    (iter_channels mdf) ->
  (exists w' order added,
     writeParquet basename mdf uuid target w = (Ok (List.length rest), w') /\
     datasets w' = datasets w ++ added /\
     Permutation order (iter_channels mdf) /\
     Forall2 (fun s p =>
                fst p = path_join target (basename ++ "-" ++ uuid) /\
                partition_for mdf uuid s = Ok (snd p))
       order added) /\
  (ends_at_dispatch ->
   exists w' added,
     writeParquet basename mdf uuid target w = (Ok (List.length rest), w') /\
     datasets w' = datasets w ++ added /\
     Forall2 (fun s p =>
                fst p = path_join target (basename ++ "-" ++ uuid) /\
                partition_for mdf uuid s = Ok (snd p))
       (iter_channels mdf) added).
Proof.
  intros Hch Hsink Hall. split.
  - destruct (writeParquet_steps basename uuid target mdf w signal rest Hch)
      as (w' & order & Hrun & Hperm & Hsteps).
    assert (Hall' : Forall (fun s => exists table,
                              partition_for mdf uuid s = Ok table) order).
    { apply Forall_forall. intros s Hs. rewrite Forall_forall in Hall.
      apply Hall. rewrite Hch. eapply Permutation_in; eassumption. }
    destruct (task_steps_all mdf uuid _ _ w w' Hsink Hall' Hsteps)
      as (added & Hd & Hf2).
    exists w', order, added. rewrite Hch. auto.
  - intros Heager.
    destruct (writeParquet_steps_in_order basename uuid target mdf w signal
                rest Heager Hch) as (w' & Hrun & Hsteps).
    rewrite Hch in Hall |- *.
    destruct (task_steps_all mdf uuid _ _ w w' Hsink Hall Hsteps)
      as (added & Hd & Hf2).
    exists w', added. auto.
Qed.

Lemma writeParquet_one_partition_per_signal_witness :
  let mdf := Demo.recording [Demo.speed; Demo.gear] in
  let ext := Demo.externals mdf Demo.healthy in
  iter_channels mdf = [Demo.speed; Demo.gear] /\
  @ends_at_dispatch ext /\
  exists w' added,
    @writeParquet ext "drive" mdf "6fa459ea" "out" empty_world = (Ok 1, w') /\
    datasets w' = added /\ List.length added = 2.
Proof.
  intros mdf ext. split; [reflexivity |].
  assert (Heager : @ends_at_dispatch ext).
  { intros pending b w0. simpl. unfold Demo.eager.
    apply in_seq. rewrite length_app. simpl. lia. }
  split; [exact Heager |].
  destruct (@writeParquet_one_partition_per_signal ext "drive" "6fa459ea"
              "out" mdf empty_world Demo.speed [Demo.gear] eq_refl)
    as (_ & H).
  - intros table w0. reflexivity.
  - repeat constructor; eexists; vm_compute; reflexivity.
  - destruct (H Heager) as (w' & added & H1 & H2 & H3).
    exists w', added. split; [exact H1 |]. split; [exact H2 |].
    apply Forall2_length in H3. symmetry. exact H3.
Defined.

(** ** Row sink: the rows, the ragged signal, the frame *)

Section RowSinkRows.

Context {ext : Externals}.

Lemma Forall2_seq_nth {B} (P : nat -> B -> Prop) (n : nat) :
  forall start (rows : list B),
    Forall2 P (seq start n) rows ->
    forall i, i < n -> exists row, P (start + i) row.
Proof.
  induction n as [| n IH]; intros start rows H i Hi; [lia |].
  simpl in H. inversion H as [| ? row ? rows' Hrow Hrest]. subst.
  destruct i as [| i].
  - exists row. rewrite Nat.add_0_r. exact Hrow.
  - destruct (IH (S start) rows' Hrest i) as (r & Hr); [lia |].
    exists r. rewrite <- Nat.add_succ_comm. exact Hr.
Qed.

Section OneSignal.

Variables (path uuid a b c : string) (signal : Signal.t)
  (num : list Np.double) (txt : list string).

Local Abbreviation entry :=
  (write_entry path a b c signal uuid num txt).

Lemma write_entry_row (indx : nat) (w w' : world) :
  entry indx w = (Ok tt, w') ->
  exists row, is_row_of uuid a b c signal num txt indx row /\
              csv_rows path w' = csv_rows path w ++ [row].
Proof.
  unfold write_entry. intros H.
  destruct (numericValue_bound signal indx w) as (v & Hv).
  rewrite (bind_ok _ _ _ _ _ Hv) in H.
  apply bind_ok_inv in H. destruct H as (ts & w1 & H1 & H).
  apply lift_ok_inv in H1. destruct H1 as [Hts ->].
  apply bind_ok_inv in H. destruct H as (d & w1 & H1 & H).
  apply lift_ok_inv in H1. destruct H1 as [Hd ->].
  apply bind_ok_inv in H. destruct H as (vs & w1 & H1 & H).
  apply lift_ok_inv in H1. destruct H1 as [Hvs ->].
  apply bind_ok_inv in H. destruct H as (st & w1 & H1 & H).
  apply lift_ok_inv in H1. destruct H1 as [Hst ->].
  apply bind_ok_inv in H. destruct H as (bt & w1 & H1 & H).
  apply lift_ok_inv in H1. destruct H1 as [Hbt ->].
  apply writerow_ok in H.
  eexists. split; [| exact H].
  exists ts, d, vs, st, bt.
  unfold getitem_nat in Hts, Hd, Hvs.
  destruct (nth_error (Signal.timestamps signal) indx); [| discriminate].
  destruct (nth_error num indx); [| discriminate].
  destruct (nth_error txt indx); [| discriminate].
  inversion Hts. inversion Hd. inversion Hvs. subst.
  unfold source_strings. rewrite Hst. cbn [Py.bind]. rewrite Hbt.
  repeat split.
Qed.

Lemma entries_rows (idxs : list nat) :
  forall w w',
    IO.for_in (fun indx _ => entry indx) idxs tt w = (Ok tt, w') ->
    exists rows, Forall2 (is_row_of uuid a b c signal num txt) idxs rows /\
                 csv_rows path w' = csv_rows path w ++ rows.
Proof.
  induction idxs as [| i idxs IH]; intros w w' H; simpl in H.
  - inversion H. exists []. split; [constructor | rewrite app_nil_r; reflexivity].
  - apply bind_ok_inv in H. destruct H as ([] & w1 & H1 & H).
    apply write_entry_row in H1. destruct H1 as (row & Hrow & Hw1).
    apply IH in H. destruct H as (rows & Hrows & Hw').
    exists (row :: rows). split; [constructor; assumption |].
    rewrite Hw', Hw1, <- app_assoc. reflexivity.
Qed.

(** An entry within the columns succeeds when the tables know the source
    and the sink takes the row. *)
Lemma write_entry_succeeds (indx : nat) (w : world) (st bt : string) :
  (forall row w0, fault (WriteRow path row) w0 = None) ->
  source_strings signal = Ok (st, bt) ->
  indx < List.length (Signal.timestamps signal) ->
  indx < List.length num ->
  indx < List.length txt ->
  exists w', entry indx w = (Ok tt, w').
Proof.
  intros Hsink Hs Hts Hnum Htxt. unfold write_entry.
  destruct (numericValue_bound signal indx w) as (v & Hv).
  rewrite (bind_ok _ _ _ _ _ Hv).
  unfold IO.bind, IO.lift, getitem_nat.
  apply nth_error_Some in Hts, Hnum, Htxt.
  destruct (nth_error (Signal.timestamps signal) indx); [| contradiction].
  destruct (nth_error num indx); [| contradiction].
  destruct (nth_error txt indx); [| contradiction].
  unfold source_strings in Hs.
  destruct (dict_getitem SOURCE_TYPE_TO_STRING _) as [st' |]; [| discriminate].
  cbn [Py.bind] in Hs.
  destruct (dict_getitem BUS_TYPE_TO_STRING _) as [bt' |]; [| discriminate].
  unfold writerow, IO.bind, outside, IO.modify. rewrite Hsink.
  eexists. reflexivity.
Qed.

Lemma entries_succeed (idxs : list nat) (st bt : string) :
  (forall row w0, fault (WriteRow path row) w0 = None) ->
  source_strings signal = Ok (st, bt) ->
  Forall (fun indx => indx < List.length (Signal.timestamps signal) /\
                      indx < List.length num /\ indx < List.length txt) idxs ->
  forall w, exists w',
    IO.for_in (fun indx _ => entry indx) idxs tt w = (Ok tt, w').
Proof.
  intros Hsink Hs Hall.
  induction Hall as [| i idxs (H1 & H2 & H3) _ IH]; intros w; simpl.
  - exists w. reflexivity.
  - destruct (write_entry_succeeds i w st bt Hsink Hs H1 H2 H3) as (w1 & Hw1).
    destruct (IH w1) as (w2 & Hw2).
    exists w2. rewrite (bind_ok _ _ _ _ _ Hw1). exact Hw2.
Qed.

End OneSignal.

Lemma processSignalCSV_rows_inv (counter : nat) (a b c : string)
  (signal : Signal.t) (uuid targetdir basename : string) (w w' : world) :
  processSignalCSV counter a b c signal uuid targetdir basename w = (Ok tt, w') ->
  exists num txt rows,
    extractSignalsByType signal = Ok (num, txt) /\
    get_file (path_join targetdir (csv_filename uuid counter)) (files w')
      = Some (CsvFile (csv_header :: rows)) /\
    Forall2 (is_row_of uuid a b c signal num txt)
      (seq 0 (List.length (Signal.timestamps signal))) rows.
Proof.
  unfold processSignalCSV. intros H.
  apply bind_ok_inv in H. destruct H as ([num txt] & w1 & H1 & H).
  apply lift_ok_inv in H1. destruct H1 as [Hcls ->].
  apply bind_ok_inv in H. destruct H as ([] & w1 & _ & H).
  cbv zeta in H.
  apply bind_ok_inv in H. destruct H as ([] & w2 & Hopen & H).
  apply gzip_open_ok in Hopen.
  apply bind_ok_inv in H. destruct H as ([] & w3 & Hhdr & H).
  apply writerow_ok in Hhdr. rewrite Hopen in Hhdr. simpl in Hhdr.
  apply entries_rows in H. destruct H as (rows & Hrows & Hw').
  exists num, txt, rows. split; [exact Hcls |].
  rewrite Hhdr in Hw'. split; [apply csv_rows_cons, Hw' | exact Hrows].
Qed.

(** The row export of one signal leaves the dataset alone. *)
Lemma processSignalCSV_files_only (counter : nat) (a b c : string)
  (signal : Signal.t) (uuid targetdir basename : string)
  (w w' : world) (r : result unit) :
  processSignalCSV counter a b c signal uuid targetdir basename w = (r, w') ->
  files_only w w'.
Proof.
  assert (Hrefl : forall w0, files_only w0 w0) by (intros; reflexivity).
  assert (Htrans : forall w1 w2 w3,
             files_only w1 w2 -> files_only w2 w3 -> files_only w1 w3).
  { unfold files_only. intros w1 w2 w3 A B. congruence. }
  assert (Hlift : forall A (x : result A) w0 r0 w0',
             IO.lift x w0 = (r0, w0') -> files_only w0 w0').
  { intros A x w0 r0 w0' H. unfold IO.lift in H. inversion H. apply Hrefl. }
  assert (Hout : forall (k : world -> world) s w0 r0 w0',
             (forall w1, files_only w1 (k w1)) ->
             IO.bind (outside s) (fun _ => IO.modify k) w0 = (r0, w0') ->
             files_only w0 w0').
  { intros k s w0 r0 w0' Hk H. unfold IO.bind, outside, IO.modify in H.
    destruct (fault s w0); inversion H; [apply Hrefl | apply Hk]. }
  assert (Hrow : forall p row w0 r0 w0',
             writerow p row w0 = (r0, w0') -> files_only w0 w0').
  { intros p row w0 r0 w0'. apply Hout. intros w1. reflexivity. }
  unfold processSignalCSV. revert w r w'.
  apply bind_frame; auto.
  { intros ? ? ?. apply Hlift. }
  intros [num txt]. apply bind_frame; auto.
  { intros w r w'. apply Hout. intros w1. reflexivity. }
  intros []. cbv zeta. apply bind_frame; auto.
  { intros w r w'. apply Hout. intros w1. reflexivity. }
  intros []. apply bind_frame; auto.
  { intros w r w'. apply Hrow. }
  intros [].
  generalize (seq 0 (List.length (Signal.timestamps signal))).
  intros idxs. induction idxs as [| i idxs IH]; intros w r w' H; simpl in H.
  - inversion H. apply Hrefl.
  - revert w r w' H. apply bind_frame; auto.
    + unfold write_entry.
      repeat (apply bind_frame; auto;
              [intros ? ? ?; apply Hlift | intros ?]).
      intros w r w'. apply Hrow.
    + intros []. exact IH.
Qed.

End RowSinkRows.

(** X9.  When the row export of a signal returns, its file holds the header
    and one row per timestamp, in order; row [i] carries the run id, name
    and unit, timestamp [i], entry [i] of the classifier's numeric column
    as [value] and of its text column as [value_string], then source, source
    metadata, source type and bus type.  What the file held before is
    gone. *)
Theorem processSignalCSV_rows {ext : Externals} (counter : nat)
  (a b c : string) (signal : Signal.t) (uuid targetdir basename : string)
  (w w' : world) :
  processSignalCSV counter a b c signal uuid targetdir basename w = (Ok tt, w') ->
  exists num txt rows,
    extractSignalsByType signal = Ok (num, txt) /\
    get_file (path_join targetdir (csv_filename uuid counter)) (files w')
      = Some (CsvFile (csv_header :: rows)) /\
    List.length rows = List.length (Signal.timestamps signal) /\
    Forall2 (is_row_of uuid a b c signal num txt)
      (seq 0 (List.length (Signal.timestamps signal))) rows.
Proof.
  intros H. apply processSignalCSV_rows_inv in H.
  destruct H as (num & txt & rows & Hc & Hfile & Hrows).
  exists num, txt, rows. repeat split; try assumption.
  apply Forall2_length in Hrows. rewrite length_seq in Hrows.
  symmetry. exact Hrows.
Qed.

Lemma processSignalCSV_rows_witness :
  let ext := Demo.externals (Demo.recording [Demo.gear]) Demo.healthy in
  let run := @processSignalCSV ext 0 "Frame1" "CAN1" "CAN1.Frame1" Demo.gear
               "6fa459ea" "out/drive-6fa459ea" "drive" empty_world in
  fst run = Ok tt /\
  exists rows,
    get_file "out/drive-6fa459ea/6fa459ea-0.csv.gz" (files (snd run))
      = Some (CsvFile (csv_header :: rows)) /\
    List.length rows = 2.
Proof.
  intros ext run. split; [reflexivity |].
  assert (Hrun : run = (Ok tt, snd run)) by reflexivity.
  destruct (@processSignalCSV_rows ext 0 "Frame1" "CAN1" "CAN1.Frame1"
              Demo.gear "6fa459ea" "out/drive-6fa459ea" "drive" empty_world
              (snd run) Hrun) as (num & txt & rows & _ & Hfile & Hlen & _).
  exists rows. split; [exact Hfile | exact Hlen].
Defined.

(** X10.  A signal with fewer samples than timestamps cannot be exported in
    row mode: [processSignalCSV] raises (the index runs past the shorter
    column), where the columnar task drops the signal silently. *)
Theorem processSignalCSV_raises_on_short_samples {ext : Externals}
  (counter : nat) (a b c : string) (signal : Signal.t)
  (uuid targetdir basename : string) (w : world) :
  Np.len (Signal.samples signal) < List.length (Signal.timestamps signal) ->
  exists e w',
    processSignalCSV counter a b c signal uuid targetdir basename w
    = (Raise e, w').
Proof.
  intros Hshort.
  destruct (processSignalCSV counter a b c signal uuid targetdir basename w)
    as [[[] | e] w'] eqn:E; [| exists e, w'; reflexivity].
  exfalso.
  apply processSignalCSV_rows_inv in E.
  destruct E as (num & txt & rows & Hc & _ & Hrows).
  destruct (Forall2_seq_nth _ _ _ _ Hrows (Np.len (Signal.samples signal)) Hshort)
    as (row & ts & v & vs & st & bt & _ & Hv & Hvs & _).
  simpl in Hv, Hvs.
  assert (Lv : Np.len (Signal.samples signal) < List.length num)
    by (apply nth_error_Some; rewrite Hv; discriminate).
  assert (Lvs : Np.len (Signal.samples signal) < List.length txt)
    by (apply nth_error_Some; rewrite Hvs; discriminate).
  pose proof (classifier_lengths signal num txt Hc) as Hlen.
  destruct (Np.issubdtype (Signal.samples signal) Np.np_number);
    destruct Hlen as [L1 L2]; lia.
Qed.

Lemma processSignalCSV_raises_on_short_samples_witness :
  Np.len (Signal.samples Cases.ragged)
    < List.length (Signal.timestamps Cases.ragged) /\
  exists e w',
    @processSignalCSV
      (Demo.externals (Demo.recording [Cases.ragged]) Demo.healthy)
      0 "Frame1" "CAN1" "CAN1.Frame1" Cases.ragged "6fa459ea"
      "out/drive-6fa459ea" "drive" empty_world = (Raise e, w').
Proof.
  split; [vm_compute; lia |].
  apply processSignalCSV_raises_on_short_samples. vm_compute. lia.
Defined.

(** X11.  Whatever its outcome, the row export of one signal adds no
    partition to the dataset, and of all files it touches only the one
    named after the run id and its own index. *)
Theorem processSignalCSV_touches_own_file_only {ext : Externals}
  (counter : nat) (a b c : string) (signal : Signal.t)
  (uuid targetdir basename : string) (w w' : world) (r : result unit) :
  processSignalCSV counter a b c signal uuid targetdir basename w = (r, w') ->
  datasets w' = datasets w /\
  forall q, q <> path_join targetdir (csv_filename uuid counter) ->
            get_file q (files w') = get_file q (files w).
Proof.
  intros H. split.
  - exact (processSignalCSV_files_only _ _ _ _ _ _ _ _ _ _ _ H).
  - intros q Hq. eapply processSignalCSV_frame; eassumption.
Qed.

Lemma processSignalCSV_touches_own_file_only_witness :
  let ext := Demo.externals (Demo.recording [Demo.gear])
               (Demo.sink_down_for "Gear") in
  let run := @processSignalCSV ext 3 "Frame1" "CAN1" "CAN1.Frame1" Demo.gear
               "6fa459ea" "out/drive-6fa459ea" "drive" empty_world in
  fst run = Raise OSError /\
  datasets (snd run) = [] /\
  get_file "out/drive-6fa459ea/6fa459ea-0.csv.gz" (files (snd run)) = None.
Proof.
  intros ext run. split; [reflexivity |].
  assert (Hrun : run = (Raise OSError, snd run)) by reflexivity.
  destruct (@processSignalCSV_touches_own_file_only ext 3 "Frame1" "CAN1"
              "CAN1.Frame1" Demo.gear "6fa459ea" "out/drive-6fa459ea" "drive"
              empty_world (snd run) (Raise OSError) Hrun) as (H1 & H3).
  split; [exact H1 |].
  apply H3. vm_compute. discriminate.
Defined.

(** ** Row export: success and failure *)

Section RowRuns.

Context {ext : Externals}.

Lemma path_join_suffix (a b : string) :
  exists p, path_join a b = (p ++ b)%string.
Proof.
  unfold path_join.
  destruct (String.prefix "/" b); [exists ""; reflexivity |].
  destruct (String.eqb a "" || endswith_sep a); [exists a; reflexivity |].
  exists (a ++ "/")%string. rewrite append_assoc. reflexivity.
Qed.

(** The manifest and the file of a signal never share a path: one ends in
    [.json], the other in [.gz]. *)
Lemma metadata_path_not_csv (basename uuid target dir uuid' : string)
  (i : nat) :
  metadata_path basename uuid target <> path_join dir (csv_filename uuid' i).
Proof.
  unfold metadata_path, csv_filename.
  destruct (path_join_suffix target (basename ++ "-" ++ uuid ++ ".metadata.json"))
    as (p & ->).
  destruct (path_join_suffix dir (uuid' ++ "-" ++ str_of_nat i ++ ".csv.gz"))
    as (q & ->).
  intros H.
  apply (f_equal (fun s => List.rev (list_ascii_of_string s))) in H.
  rewrite !list_ascii_of_append, !rev_app_distr in H. simpl in H.
  discriminate H.
Qed.

Lemma processSignalCSV_succeeds (counter : nat) (a b c : string)
  (signal : Signal.t) (uuid targetdir basename : string) (w : world)
  (st bt : string) :
  (forall call w0, fault call w0 = None) ->
  classifiable (Signal.samples signal) ->
  source_strings signal = Ok (st, bt) ->
  List.length (Signal.timestamps signal) <= Np.len (Signal.samples signal) ->
  exists w',
    processSignalCSV counter a b c signal uuid targetdir basename w
    = (Ok tt, w').
Proof.
  intros Hfault Hcls Hs Hlen. unfold processSignalCSV.
  apply classifier_returns in Hcls. destruct Hcls as (num & txt & Hc).
  pose proof (classifier_lengths signal num txt Hc) as Hcols.
  unfold IO.bind at 1, IO.lift at 1. rewrite Hc.
  unfold os_makedirs, gzip_open, writerow.
  unfold IO.bind at 1. unfold IO.bind at 1. unfold outside at 1.
  rewrite Hfault. unfold IO.modify at 1. cbv zeta.
  unfold IO.bind at 1. unfold IO.bind at 1. unfold outside at 1.
  rewrite Hfault. unfold IO.modify at 1.
  unfold IO.bind at 1. unfold IO.bind at 1. unfold outside at 1.
  rewrite Hfault. unfold IO.modify at 1.
  apply (entries_succeed _ uuid a b c signal num txt _ st bt).
  - intros row w0. apply Hfault.
  - exact Hs.
  - apply Forall_forall. intros i Hi. apply in_seq in Hi.
    destruct (Np.issubdtype (Signal.samples signal) Np.np_number);
      destruct Hcols as [L1 L2]; lia.
Qed.

Variables (basename : string) (mdf : MDF) (uuid targetdir : string).

Local Abbreviation path i := (path_join targetdir (csv_filename uuid i)).

Local Abbreviation turn := (csv_turn basename mdf uuid targetdir).

Lemma csv_turn_eq (counter : nat) (signal : Signal.t) (w : world) :
  turn counter signal tt w =
  processSignalCSV counter (or_empty (lookup_acq_name mdf signal))
    (or_empty (lookup_acq_source_name mdf signal))
    (or_empty (lookup_acq_source_path mdf signal))
    signal uuid targetdir basename w.
Proof.
  unfold csv_turn. unfold IO.bind at 1. rewrite getSource_eq. reflexivity.
Qed.

Lemma csv_loop_succeeds (xs : list Signal.t) :
  (forall call w0, fault call w0 = None) ->
  Forall (fun signal =>
            classifiable (Signal.samples signal) /\
            List.length (Signal.timestamps signal)
              <= Np.len (Signal.samples signal) /\
            exists st bt, source_strings signal = Ok (st, bt)) xs ->
  forall start counter w,
  exists w',
    IO.for_enumerate turn start xs counter tt w =
    (Ok (last_index start xs counter, tt), w').
Proof.
  intros Hfault Hall.
  induction Hall as [| x xs (Hcls & Hlen & st & bt & Hs) _ IH];
    intros start counter w; simpl.
  - exists w. reflexivity.
  - destruct (processSignalCSV_succeeds start
                (or_empty (lookup_acq_name mdf x))
                (or_empty (lookup_acq_source_name mdf x))
                (or_empty (lookup_acq_source_path mdf x))
                x uuid targetdir basename w st bt Hfault Hcls Hs Hlen)
      as (w1 & H1).
    rewrite <- csv_turn_eq in H1.
    destruct (IH (S start) (Some start) w1) as (w2 & H2).
    exists w2. rewrite (bind_ok _ _ _ _ _ H1), H2.
    destruct xs as [| y ys]; simpl; repeat f_equal; lia.
Qed.

(** When the loop of [writeCsv] raises, it does so in the turn of one
    signal, after the turns of the signals before it have returned. *)
Lemma csv_loop_raise_at (xs : list Signal.t) :
  forall start counter w e w',
    IO.for_enumerate turn start xs counter tt w = (Raise e, w') ->
    exists pre signal post w1,
      xs = pre ++ signal :: post /\
      IO.for_enumerate turn start pre counter tt w =
        (Ok (last_index start pre counter, tt), w1) /\
      turn (start + List.length pre) signal tt w1 = (Raise e, w').
Proof.
  induction xs as [| x xs IH]; intros start counter w e w' H; simpl in H.
  - discriminate.
  - unfold IO.bind at 1 in H.
    destruct (turn start x tt w) as [[[] | e0] w1] eqn:E.
    + apply IH in H. destruct H as (pre & s & post & w2 & -> & Hpre & Hs).
      exists (x :: pre), s, post, w2. split; [reflexivity |].
      split.
      * simpl. rewrite (bind_ok _ _ _ _ _ E), Hpre.
        destruct pre as [| y ys]; simpl; repeat f_equal; lia.
      * simpl. rewrite <- Nat.add_succ_comm. exact Hs.
    + inversion H. subst. exists [], x, xs, w.
      split; [reflexivity |]. split; [reflexivity |].
      simpl. rewrite Nat.add_0_r. exact E.
Qed.

End RowRuns.

(** X12.  On a recording with at least one signal, each with classifiable
    samples (numeric, unicode text, ASCII byte text, records with a
    field), no fewer samples than timestamps and a source the tables know,
    and with no outside call failing, the row export returns, and returns
    the index of the last signal. *)
Theorem writeCsv_succeeds {ext : Externals} (basename uuid target : string)
  (mdf : MDF) (w : world) (signal : Signal.t) (rest : list Signal.t) :
  iter_channels mdf = signal :: rest ->
  (forall call w0, fault call w0 = None) ->
  Forall (fun s =>
            classifiable (Signal.samples s) /\
            List.length (Signal.timestamps s) <= Np.len (Signal.samples s) /\
            exists st bt, source_strings s = Ok (st, bt))
    (iter_channels mdf) ->
  exists w', writeCsv basename mdf uuid target w = (Ok (List.length rest), w').
Proof.
  intros Hch Hfault Hall. unfold writeCsv. cbv zeta.
  destruct (csv_loop_succeeds basename mdf uuid
              (path_join target (basename ++ "-" ++ uuid))
              (iter_channels mdf) Hfault Hall 0 None w) as (w' & H).
  exists w'. unfold csv_turn in H. rewrite (bind_ok _ _ _ _ _ H), Hch.
  reflexivity.
Qed.

Lemma writeCsv_succeeds_witness :
  let mdf := Demo.recording [Demo.speed; Cases.lever] in
  let ext := Demo.externals mdf Demo.healthy in
  iter_channels mdf = [Demo.speed; Cases.lever] /\
  exists w', @writeCsv ext "drive" mdf "6fa459ea" "out" empty_world = (Ok 1, w').
Proof.
  intros mdf ext. split; [reflexivity |].
  apply (@writeCsv_succeeds ext "drive" "6fa459ea" "out" mdf empty_world
           Demo.speed [Cases.lever] eq_refl).
  - intros call w0. reflexivity.
  - constructor; [| constructor; [| constructor]].
    + split; [exact I |]. split; [vm_compute; lia |].
      exists "ECU", "CAN". reflexivity.
    + split; [repeat constructor |]. split; [vm_compute; lia |].
      exists "ECU", "CAN". reflexivity.
Defined.

(** The row export has no task boundary: a signal the classifier cannot
    handle ends the export, and with it the run of the recording. *)
Example unclassifiable_signal_ends_the_row_export :
  let mdf := Demo.recording [Demo.speed; Cases.menu; Demo.gear] in
  let ext := Demo.externals mdf Demo.healthy in
  let run := @processFile ext Demo.csv "drive.mf4" empty_world in
  fst run = Raise UnicodeDecodeError /\
  map fst (files (snd run)) = ["out/drive-6fa459ea/6fa459ea-0.csv.gz"].
Proof. vm_compute. repeat split. Qed.

(** X13.  In row mode the first signal that fails ends the run of the
    recording.  When [writeCsv] raises, [processFile] raises the same
    exception without calling [writeMetadata], and the manifest is as it
    was before the run (none, on a fresh target).  Unless the recording
    has no signal (then the exception is the UnboundLocalError of
    [return counter] and nothing was written), there is one signal in
    whose turn the exception was raised: the turns of the signals before
    it have returned, and their files are complete, with the header and
    one row per timestamp; the files of the signals after it are as they
    were before the run. *)
Theorem row_failure_stops_the_run {ext : Externals} (args : Args)
  (filename : string) (mdf : MDF) (w w' : world) (e : exn) :
  MDF_open filename = Ok mdf ->
  dump args = false ->
  exportFormat args = "csv" ->
  writeCsv (Path_stem filename) mdf uuid4 (target args) w = (Raise e, w') ->
  processFile args filename w = (Raise e, w') /\
  get_file (metadata_path (Path_stem filename) uuid4 (target args)) (files w')
    = get_file (metadata_path (Path_stem filename) uuid4 (target args))
        (files w) /\
  ((iter_channels mdf = [] /\ e = UnboundLocalError /\ w' = w) \/
   exists pre signal post w1,
     iter_channels mdf = pre ++ signal :: post /\
     IO.for_enumerate
       (csv_turn (Path_stem filename) mdf uuid4
          (path_join (target args) (Path_stem filename ++ "-" ++ uuid4)))
       0 pre None tt w = (Ok (last_index 0 pre None, tt), w1) /\
     csv_turn (Path_stem filename) mdf uuid4
       (path_join (target args) (Path_stem filename ++ "-" ++ uuid4))
       (List.length pre) signal tt w1 = (Raise e, w') /\
     (forall i s,
        nth_error pre i = Some s ->
        exists rows,
          get_file (path_join
                      (path_join (target args)
                         (Path_stem filename ++ "-" ++ uuid4))
                      (csv_filename uuid4 i)) (files w')
            = Some (CsvFile (csv_header :: rows)) /\
          List.length rows = List.length (Signal.timestamps s)) /\
     (forall j,
        List.length pre < j ->
        get_file (path_join
                    (path_join (target args)
                       (Path_stem filename ++ "-" ++ uuid4))
                    (csv_filename uuid4 j)) (files w')
        = get_file (path_join
                      (path_join (target args)
                         (Path_stem filename ++ "-" ++ uuid4))
                      (csv_filename uuid4 j)) (files w))).
Proof.
  intros Hopen Hdump Hfmt Hraise.
  set (targetdir := path_join (target args) (Path_stem filename ++ "-" ++ uuid4))
    in *.
  split.
  { unfold processFile. rewrite Hopen, Hdump, Hfmt.
    unfold IO.bind at 1, IO.lift at 1. simpl.
    rewrite (bind_raise _ _ _ _ _ Hraise). reflexivity. }
  assert (Hw : writeCsv (Path_stem filename) mdf uuid4 (target args) w =
               IO.bind
                 (IO.for_enumerate
                    (csv_turn (Path_stem filename) mdf uuid4 targetdir)
                    0 (iter_channels mdf) None tt)
                 (fun '(counter, _) => IO.local counter) w)
    by reflexivity.
  rewrite Hw in Hraise. clear Hw.
  destruct (IO.for_enumerate (csv_turn (Path_stem filename) mdf uuid4 targetdir)
              0 (iter_channels mdf) None tt w)
    as [[[counter []] | e0] w1] eqn:Eloop.
  - (* the loop ran to its end: only [return counter] can have raised *)
    rewrite (bind_ok _ _ _ _ _ Eloop) in Hraise.
    apply for_enumerate_counter in Eloop as Hcounter.
    destruct (iter_channels mdf) as [| s rest] eqn:Ech.
    + simpl in Eloop. inversion Eloop. subst.
      simpl in Hraise. inversion Hraise. subst.
      split; [reflexivity |]. left. auto.
    + subst counter. simpl in Hraise. discriminate.
  - rewrite (bind_raise _ _ _ _ _ Eloop) in Hraise.
    inversion Hraise. subst e0 w1.
    apply csv_loop_raise_at in Eloop.
    destruct Eloop as (pre & signal & post & w1 & Hxs & Hpre & Hturn).
    simpl in Hturn.
    pose proof (csv_loop_files (Path_stem filename) mdf uuid4 targetdir pre
                  0 None w _ w1 Hpre) as [Hfiles Hframe].
    pose proof Hturn as Hcall. rewrite csv_turn_eq in Hcall.
    assert (Hlast : forall q,
               q <> path_join targetdir (csv_filename uuid4 (List.length pre)) ->
               same_file q w1 w').
    { intros q Hq. eapply processSignalCSV_frame; [exact Hq | exact Hcall]. }
    split.
    + transitivity (get_file (metadata_path (Path_stem filename) uuid4
                                (target args)) (files w1)).
      * apply Hlast. apply metadata_path_not_csv.
      * apply Hframe. intros i _. apply metadata_path_not_csv.
    + right. exists pre, signal, post, w1.
      split; [exact Hxs |]. split; [exact Hpre |]. split; [exact Hturn |].
      split.
      * intros i s Hi. destruct (Hfiles i s Hi) as (rows & Hget & Hlen).
        exists rows. split; [| exact Hlen].
        simpl in Hget. rewrite <- Hget. apply Hlast.
        intros Heq. apply csv_path_inj in Heq.
        assert (i < List.length pre) by (apply nth_error_Some; congruence).
        lia.
      * intros j Hj.
        transitivity (get_file (path_join targetdir (csv_filename uuid4 j))
                        (files w1)).
        -- apply Hlast. intros Heq. apply csv_path_inj in Heq. lia.
        -- apply Hframe. intros i Hi Heq. apply csv_path_inj in Heq.
           simpl in Heq. lia.
Qed.

Lemma row_failure_stops_the_run_witness :
  let mdf := Demo.recording [Demo.speed; Demo.frame; Demo.gear] in
  let ext := Demo.externals mdf (Demo.sink_down_for "CAN_DataFrame") in
  let run := @processFile ext Demo.csv "drive.mf4" empty_world in
  @MDF_open ext "drive.mf4" = Ok mdf /\
  dump Demo.csv = false /\
  exportFormat Demo.csv = "csv" /\
  @writeCsv ext "drive" mdf "6fa459ea" "out" empty_world
    = (Raise OSError, snd run) /\
  fst run = Raise OSError /\
  get_file "out/drive-6fa459ea.metadata.json" (files (snd run)) = None /\
  exists pre signal post,
    [Demo.speed; Demo.frame; Demo.gear] = pre ++ signal :: post.
Proof.
  intros mdf ext run.
  assert (H : @writeCsv ext (@Path_stem ext "drive.mf4") mdf (@uuid4 ext)
                (target Demo.csv) empty_world = (Raise OSError, snd run))
    by reflexivity.
  split; [reflexivity |]. split; [reflexivity |]. split; [reflexivity |].
  split; [exact H |].
  destruct (@row_failure_stops_the_run ext Demo.csv "drive.mf4" mdf
              empty_world (snd run) OSError eq_refl eq_refl eq_refl H)
    as (H1 & H2 & [(Habs & _) | (pre & signal & post & w1 & Hxs & _)]).
  - discriminate Habs.
  - split; [exact (f_equal fst H1) |]. split; [exact H2 |].
    exists pre, signal, post. exact Hxs.
Defined.

(** The run of the witness, file by file: the first signal's file is
    complete, the failing one's holds the header only, the third was never
    opened. *)
Example row_failure_files :
  let mdf := Demo.recording [Demo.speed; Demo.frame; Demo.gear] in
  let ext := Demo.externals mdf (Demo.sink_down_for "CAN_DataFrame") in
  let run := @processFile ext Demo.csv "drive.mf4" empty_world in
  map (fun f => (fst f, List.length (csv_rows (fst f) (snd run))))
    (files (snd run)) =
  [("out/drive-6fa459ea/6fa459ea-0.csv.gz", 4);
   ("out/drive-6fa459ea/6fa459ea-1.csv.gz", 1)].
Proof. vm_compute. reflexivity. Qed.

(** ** Manifest: the document, the truncated manifest, the count *)

Section ManifestContent.

Context {ext : Externals}.

Lemma traverse_Forall2 {A B} (f : A -> result B) (xs : list A) (ys : list B) :
  Np.traverse f xs = Ok ys <-> Forall2 (fun x y => f x = Ok y) xs ys.
Proof.
  revert ys. induction xs as [| x xs IH]; intros ys; simpl; split; intros H.
  - inversion H. constructor.
  - inversion H. reflexivity.
  - destruct (f x) as [y |] eqn:E; simpl in H; [| discriminate].
    destruct (Np.traverse f xs) as [ys' |]; simpl in H; [| discriminate].
    inversion H. constructor; [exact E | apply IH; reflexivity].
  - inversion H as [| ? y ? ys' Hy Hrest]. subst.
    rewrite Hy. simpl. apply IH in Hrest. rewrite Hrest. reflexivity.
Qed.

(** The first element that raises decides, when the others can raise
    nothing else. *)
Lemma traverse_raises {A B} (f : A -> result B) (e : exn) (xs : list A) :
  (forall x, In x xs -> (exists y, f x = Ok y) \/ f x = Raise e) ->
  (exists x, In x xs /\ f x = Raise e) ->
  Np.traverse f xs = Raise e.
Proof.
  induction xs as [| x xs IH]; intros Hall (x0 & Hin & Hx0); [contradiction |].
  simpl.
  destruct (Hall x (or_introl eq_refl)) as [(y & Hy) | Hr].
  - rewrite Hy. simpl. rewrite IH; [reflexivity | |].
    + intros z Hz. apply Hall. right. exact Hz.
    + destruct Hin as [-> | Hin]; [congruence |].
      exists x0. split; assumption.
  - rewrite Hr. reflexivity.
Qed.

Lemma source_strings_cases (signal : Signal.t) :
  (exists st bt, source_strings signal = Ok (st, bt)) \/
  source_strings signal = Raise KeyError.
Proof.
  unfold source_strings, dict_getitem.
  destruct (SOURCE_TYPE_TO_STRING _) as [st |]; [| right; reflexivity].
  destruct (BUS_TYPE_TO_STRING _) as [bt |]; [| right; reflexivity].
  left. exists st, bt. reflexivity.
Qed.

Lemma descriptor_of_cases (mdf : MDF) (signal : Signal.t) :
  (exists d, descriptor_of mdf signal = Ok d) \/
  descriptor_of mdf signal = Raise KeyError.
Proof.
  unfold descriptor_of. rewrite getSource_eq. cbn [Py.bind].
  destruct (source_strings_cases signal) as [(st & bt & ->) | ->].
  - left. eexists. reflexivity.
  - right. reflexivity.
Qed.

Lemma descriptor_of_unknown (mdf : MDF) (signal : Signal.t) :
  source_strings signal = Raise KeyError ->
  descriptor_of mdf signal = Raise KeyError.
Proof.
  intros H. unfold descriptor_of. rewrite getSource_eq. cbn [Py.bind].
  rewrite H. reflexivity.
Qed.

(** The loop of [writeMetadata] computes the descriptors and does nothing
    else. *)
Lemma descriptors_loop_eq (mdf : MDF) (xs : list Signal.t) :
  forall (acc : list SignalDescriptor) (w : world),
    IO.for_in
      (fun signal signals =>
         (' (channel_group_acq_name, acq_source_name, acq_source_path) <-
            IO.lift (getSource mdf signal) ;;
          source_type <- IO.lift (dict_getitem SOURCE_TYPE_TO_STRING
                                    (Source.source_type (Signal.source signal))) ;;
          bus_type <- IO.lift (dict_getitem BUS_TYPE_TO_STRING
                                 (Source.bus_type (Signal.source signal))) ;;
          IO.ret (signals ++
            [ {| d_name := Signal.name signal;
                 d_unit := Signal.unit signal;
                 d_comment := Signal.comment signal;
                 d_group_index := Signal.group_index signal;
                 d_channel_index := Signal.channel_index signal;
                 d_channel_group_acq_name := channel_group_acq_name;
                 d_acq_source_name := acq_source_name;
                 d_acq_source_path := acq_source_path;
                 d_source := Source.name (Signal.source signal);
                 d_source_type := source_type;
                 d_bus_type := bus_type |} ]))%io)
      xs acc w =
    (match Np.traverse (descriptor_of mdf) xs with
     | Ok ds => Ok (acc ++ ds)
     | Raise e => Raise e
     end, w).
Proof.
  induction xs as [| x xs IH]; intros acc w; simpl.
  - rewrite app_nil_r. reflexivity.
  - unfold IO.bind at 1. unfold IO.bind at 1. rewrite getSource_eq.
    unfold IO.lift at 1. cbv beta iota.
    unfold descriptor_of, source_strings. rewrite getSource_eq.
    cbn [Py.bind].
    unfold IO.bind at 1, IO.lift at 1.
    destruct (dict_getitem SOURCE_TYPE_TO_STRING _) as [st | e];
      [| reflexivity].
    unfold IO.bind at 1, IO.lift at 1. cbn [Py.bind].
    destruct (dict_getitem BUS_TYPE_TO_STRING _) as [bt | e];
      [| reflexivity].
    unfold IO.ret. cbn [Py.bind]. rewrite IH.
    unfold descriptor_of, source_strings, signal_descriptor.
    destruct (Np.traverse _ xs) as [ds | e]; simpl;
      [rewrite <- app_assoc |]; reflexivity.
Qed.

(** [writeMetadata], outcome by outcome. *)
Lemma writeMetadata_spec (basename uuid tgt : string) (mdf : MDF)
  (numberOfChunks : nat) (w : world) :
  let path := metadata_path basename uuid tgt in
  let w1 := with_files w (set_file path (JsonFile []) (files w)) in
  writeMetadata basename mdf uuid tgt numberOfChunks w =
  match fault (OpenW path) w with
  | Some e => (Raise e, w)
  | None =>
      match Np.traverse (descriptor_of mdf) (iter_channels mdf) with
      | Raise e => (Raise e, w1)
      | Ok signals =>
          match fault (FileWrite path) w1 with
          | Some e => (Raise e, w1)
          | None =>
              (Ok tt,
               with_files w1
                 (set_file path
                    (JsonFile
                       [ {| md_name := basename;
                            md_source_uuid := uuid;
                            md_preparation_startDate := utcnow;
                            md_signals := signals;
                            md_comments := header_comment mdf;
                            md_numberOfChunks := numberOfChunks |} ])
                    (files w1)))
          end
      end
  end.
Proof.
  intros path w1. unfold writeMetadata. cbv zeta. fold path.
  unfold IO.bind at 1. unfold open_w, IO.bind at 1, outside, IO.modify.
  destruct (fault (OpenW path) w); [reflexivity |]. fold w1.
  unfold IO.bind at 1. rewrite descriptors_loop_eq.
  destruct (Np.traverse (descriptor_of mdf) (iter_channels mdf)) as [ds | e];
    [| reflexivity].
  simpl app. unfold file_write, IO.bind, outside, IO.modify.
  destruct (fault (FileWrite path) w1); [reflexivity |].
  assert (Hdocs : json_docs path w1 = []).
  { unfold json_docs, w1, with_files. simpl.
    rewrite get_file_set_file. reflexivity. }
  rewrite Hdocs. reflexivity.
Qed.

End ManifestContent.

Lemma writeMetadata_document_inv {ext : Externals}
  (basename uuid tgt : string) (mdf : MDF) (numberOfChunks : nat)
  (w w' : world) :
  writeMetadata basename mdf uuid tgt numberOfChunks w = (Ok tt, w') ->
  exists signals,
    Forall2 (fun signal d => descriptor_of mdf signal = Ok d)
      (iter_channels mdf) signals /\
    get_file (metadata_path basename uuid tgt) (files w') =
      Some (JsonFile
              [ {| md_name := basename;
                   md_source_uuid := uuid;
                   md_preparation_startDate := utcnow;
                   md_signals := signals;
                   md_comments := header_comment mdf;
                   md_numberOfChunks := numberOfChunks |} ]) /\
    dirs w' = dirs w /\ datasets w' = datasets w /\
    forall q, q <> metadata_path basename uuid tgt ->
              get_file q (files w') = get_file q (files w).
Proof.
  rewrite writeMetadata_spec. cbv zeta.
  destruct (fault (OpenW _) w); [discriminate |].
  destruct (Np.traverse (descriptor_of mdf) (iter_channels mdf))
    as [signals | e] eqn:E; [| discriminate].
  destruct (fault (FileWrite _) _); [discriminate |].
  intros H. inversion H. clear H.
  exists signals. split; [apply traverse_Forall2, E |].
  unfold with_files. simpl.
  split; [apply get_file_set_file |].
  repeat split.
  intros q Hq. rewrite !get_file_set_file_other by exact Hq. reflexivity.
Qed.

(** X14.  When [writeMetadata] returns, the manifest holds exactly one
    document, whatever the file held before: name, run id and start date
    as given, the comment of the recording's header, the [numberOfChunks]
    it was called with, and one descriptor per signal, in order, each with
    the signal's identity, its source metadata as [getSource] resolves it
    and its source and bus type as the tables name them.  Directories,
    dataset and every other file are as they were. *)
Theorem writeMetadata_document {ext : Externals}
  (basename uuid tgt : string) (mdf : MDF) (numberOfChunks : nat)
  (w w' : world) :
  writeMetadata basename mdf uuid tgt numberOfChunks w = (Ok tt, w') ->
  exists signals,
    Forall2 (fun signal d => descriptor_of mdf signal = Ok d)
      (iter_channels mdf) signals /\
    get_file (metadata_path basename uuid tgt) (files w') =
      Some (JsonFile
              [ {| md_name := basename;
                   md_source_uuid := uuid;
                   md_preparation_startDate := utcnow;
                   md_signals := signals;
                   md_comments := header_comment mdf;
                   md_numberOfChunks := numberOfChunks |} ]) /\
    dirs w' = dirs w /\ datasets w' = datasets w /\
    forall q, q <> metadata_path basename uuid tgt ->
              get_file q (files w') = get_file q (files w).
Proof.
  intros H. apply writeMetadata_document_inv in H.
  destruct H as (signals & Hall & Hfile & Hrest).
  exists signals. split; [exact Hall |]. split; [exact Hfile | exact Hrest].
Qed.

Lemma writeMetadata_document_witness :
  let mdf := Demo.recording [Demo.speed] in
  let ext := Demo.externals mdf Demo.healthy in
  let run := @writeMetadata ext "drive" mdf "6fa459ea" "out" 5 empty_world in
  fst run = Ok tt /\
  exists signals,
    get_file "out/drive-6fa459ea.metadata.json" (files (snd run)) =
      Some (JsonFile
              [ {| md_name := "drive";
                   md_source_uuid := "6fa459ea";
                   md_preparation_startDate := "2024-01-01 00:00:00";
                   md_signals := signals;
                   md_comments := "demo";
                   md_numberOfChunks := 5 |} ]) /\
    List.length signals = 1.
Proof.
  intros mdf ext run. split; [reflexivity |].
  assert (Hrun : run = (Ok tt, snd run)) by reflexivity.
  destruct (@writeMetadata_document ext "drive" "6fa459ea" "out" mdf 5
              empty_world (snd run) Hrun) as (signals & Hall & Hfile & _).
  exists signals. split; [exact Hfile |].
  apply Forall2_length in Hall. symmetry. exact Hall.
Defined.

(** X15.  A signal whose source type or bus type the tables do not know
    breaks the manifest: once the file is open, [writeMetadata] raises
    KeyError in its loop and leaves the manifest created and empty. *)
Theorem writeMetadata_unknown_source {ext : Externals}
  (basename uuid tgt : string) (mdf : MDF) (numberOfChunks : nat)
  (w : world) (signal : Signal.t) :
  fault (OpenW (metadata_path basename uuid tgt)) w = None ->
  In signal (iter_channels mdf) ->
  source_strings signal = Raise KeyError ->
  exists w',
    writeMetadata basename mdf uuid tgt numberOfChunks w = (Raise KeyError, w') /\
    get_file (metadata_path basename uuid tgt) (files w') = Some (JsonFile []).
Proof.
  intros Hopen Hin Hunknown.
  rewrite writeMetadata_spec. cbv zeta. rewrite Hopen.
  rewrite (traverse_raises (descriptor_of mdf) KeyError).
  - eexists. split; [reflexivity |].
    unfold with_files. simpl. apply get_file_set_file.
  - intros x _. apply descriptor_of_cases.
  - exists signal. split; [exact Hin | apply descriptor_of_unknown, Hunknown].
Qed.

Lemma writeMetadata_unknown_source_witness :
  let mdf := Demo.recording [Demo.speed; Cases.stranger] in
  let ext := Demo.externals mdf Demo.healthy in
  In Cases.stranger (iter_channels mdf) /\
  exists w',
    @writeMetadata ext "drive" mdf "6fa459ea" "out" 1 empty_world
      = (Raise KeyError, w') /\
    get_file "out/drive-6fa459ea.metadata.json" (files w') = Some (JsonFile []).
Proof.
  intros mdf ext. split; [right; left; reflexivity |].
  apply (@writeMetadata_unknown_source ext "drive" "6fa459ea" "out" mdf 1
           empty_world Cases.stranger).
  - reflexivity.
  - right. left. reflexivity.
  - reflexivity.
Defined.

(** X16.  In either export mode, whenever the run of a recording comes to
    its end, the manifest names every signal of the recording, in order,
    and holds as [numberOfChunks] one less than the number of signals. *)
Theorem export_manifest_names_and_count {ext : Externals} (args : Args)
  (filename : string) (mdf : MDF) (w w' : world) :
  MDF_open filename = Ok mdf ->
  dump args = false ->
  exportFormat args = "parquet" \/ exportFormat args = "csv" ->
  processFile args filename w = (Ok tt, w') ->
  exists doc,
    json_docs (metadata_path (Path_stem filename) uuid4 (target args)) w'
      = [doc] /\
    map d_name (md_signals doc) = map Signal.name (iter_channels mdf) /\
    S (md_numberOfChunks doc) = List.length (iter_channels mdf).
Proof.
  intros Hopen Hdump Hmode H. unfold processFile in H.
  rewrite Hopen, Hdump in H. unfold IO.bind at 1, IO.lift at 1 in H.
  apply bind_ok_inv in H. destruct H as (n & w1 & Hexp & Hmeta).
  apply writeMetadata_writes in Hmeta.
  destruct Hmeta as (doc & Hdocs & Hn & Hnames).
  exists doc. split; [exact Hdocs |]. split; [exact Hnames |]. rewrite Hn.
  destruct Hmode as [Hm | Hm]; rewrite Hm in Hexp; simpl in Hexp.
  - destruct (iter_channels mdf) as [| s rest] eqn:Ech.
    + unfold writeParquet, dispatch_and_wait in Hexp. rewrite Ech in Hexp.
      discriminate.
    + destruct (writeParquet_returns_last_index (Path_stem filename) uuid4
                  (target args) mdf w s rest Ech) as (w2 & Hp).
      rewrite Hp in Hexp. inversion Hexp. reflexivity.
  - apply writeCsv_returns_last_index in Hexp. exact Hexp.
Qed.

Lemma export_manifest_names_and_count_witness :
  let mdf := Demo.recording [Demo.speed; Demo.gear] in
  let ext := Demo.externals mdf Demo.healthy in
  let run := @processFile ext Demo.csv "drive.mf4" empty_world in
  fst run = Ok tt /\
  exists doc,
    json_docs "out/drive-6fa459ea.metadata.json" (snd run) = [doc] /\
    map d_name (md_signals doc) = ["Speed"; "Gear"] /\
    md_numberOfChunks doc = 1.
Proof.
  intros mdf ext run. split; [reflexivity |].
  assert (Hrun : run = (Ok tt, snd run)) by reflexivity.
  destruct (@export_manifest_names_and_count ext Demo.csv "drive.mf4" mdf
              empty_world (snd run) eq_refl eq_refl (or_intror eq_refl) Hrun)
    as (doc & H1 & H2 & H3).
  exists doc. split; [exact H1 |]. split; [exact H2 |].
  simpl in H3. injection H3 as H3. exact H3.
Defined.

(** X17.  With an export format that is neither [parquet] nor [csv] the
    run of a recording prints the usage message, exports no data, and
    still writes the manifest, with [numberOfChunks] [0] and every signal
    named: when it returns, dataset, directories and every file but the
    manifest are as they were. *)
Theorem unknown_format_writes_manifest_only {ext : Externals} (args : Args)
  (filename : string) (mdf : MDF) (w w' : world) :
  MDF_open filename = Ok mdf ->
  dump args = false ->
  exportFormat args <> "parquet" ->
  exportFormat args <> "csv" ->
  processFile args filename w = (Ok tt, w') ->
  In "No export Format selected, use --format with parquet or csv"
    (stdout w') /\
  datasets w' = datasets w /\
  dirs w' = dirs w /\
  (forall q, q <> metadata_path (Path_stem filename) uuid4 (target args) ->
             get_file q (files w') = get_file q (files w)) /\
  exists doc,
    json_docs (metadata_path (Path_stem filename) uuid4 (target args)) w'
      = [doc] /\
    md_numberOfChunks doc = 0 /\
    map d_name (md_signals doc) = map Signal.name (iter_channels mdf).
Proof.
  intros Hopen Hdump Hp Hc H. unfold processFile in H.
  rewrite Hopen, Hdump in H. unfold IO.bind at 1, IO.lift at 1 in H.
  apply String.eqb_neq in Hp, Hc. rewrite Hp, Hc in H.
  unfold IO.bind at 1 in H. unfold IO.bind at 1 in H.
  unfold print, IO.modify, IO.ret in H.
  assert (Hout : stdout w' = stdout w ++
            ["No export Format selected, use --format with parquet or csv"]).
  { rewrite writeMetadata_spec in H. cbv zeta in H.
    destruct (fault (OpenW _) _); [discriminate |].
    destruct (Np.traverse _ _); [| discriminate].
    destruct (fault (FileWrite _) _); [discriminate |].
    inversion H. reflexivity. }
  apply writeMetadata_document_inv in H as Hdoc.
  destruct Hdoc as (signals & _ & _ & Hdirs & Hdata & Hframe).
  apply writeMetadata_writes in H.
  simpl in Hdirs, Hdata, Hframe.
  split; [rewrite Hout; apply in_or_app; right; left; reflexivity |].
  repeat split; auto.
Qed.

Lemma unknown_format_writes_manifest_only_witness :
  let mdf := Demo.recording [Demo.speed] in
  let ext := Demo.externals mdf Demo.healthy in
  let run := @processFile ext Cases.json "drive.mf4" empty_world in
  fst run = Ok tt /\
  datasets (snd run) = [] /\
  exists doc,
    json_docs "out/drive-6fa459ea.metadata.json" (snd run) = [doc] /\
    md_numberOfChunks doc = 0.
Proof.
  intros mdf ext run. split; [reflexivity |].
  assert (Hrun : run = (Ok tt, snd run)) by reflexivity.
  destruct (@unknown_format_writes_manifest_only ext Cases.json "drive.mf4"
              mdf empty_world (snd run) eq_refl eq_refl) as
    (_ & Hdata & _ & _ & doc & H1 & H2 & _);
    [vm_compute; discriminate | vm_compute; discriminate | exact Hrun |].
  split; [exact Hdata |]. exists doc. split; assumption.
Defined.

(** ** Signal dump *)

(** The binding of [counter] after a loop that ran to its end, read off a
    result of either kind. *)
Lemma for_enumerate_counter_any {A St} (body : nat -> A -> St -> IO.M St)
  (xs : list A) (start : nat) (counter : option nat) (s : St) (w w' : world)
  (r : result (option nat * St)) :
  IO.for_enumerate body start xs counter s w = (r, w') ->
  forall c' s', r = Ok (c', s') -> c' = last_index start xs counter.
Proof.
  intros H c' s' ->. eapply for_enumerate_counter. exact H.
Qed.

Section Dump.

Context {ext : Externals}.

Variable mdf : MDF.

Local Abbreviation dump_turn :=
  (fun (counter : nat) signal (_ : unit) =>
     (' (channel_group_acq_name, acq_source_name, acq_source_path) <-
        IO.lift (getSource mdf signal) ;;
      source_type <- IO.lift (dict_getitem SOURCE_TYPE_TO_STRING
                                (Source.source_type (Signal.source signal))) ;;
      bus_type <- IO.lift (dict_getitem BUS_TYPE_TO_STRING
                             (Source.bus_type (Signal.source signal))) ;;
      print (String.concat ", "
               [ Source.name (Signal.source signal);
                 channel_group_acq_name; acq_source_name; acq_source_path;
                 Signal.name signal; Signal.unit signal;
                 source_type; bus_type;
                 str_of_Z (Signal.group_index signal);
                 str_of_Z (Signal.channel_index signal) ]))%io).

(** One turn of the loop of [dumpSignals]: the line of the signal, or the
    exception of its lookups. *)
Lemma dump_turn_eq (counter : nat) (signal : Signal.t) (w : world) :
  dump_turn counter signal tt w =
  match dump_line mdf signal with
  | Ok line =>
      (Ok tt, {| files := files w; dirs := dirs w; datasets := datasets w;
                 stdout := stdout w ++ [line] |})
  | Raise e => (Raise e, w)
  end.
Proof.
  unfold IO.bind at 1. unfold dump_line, source_strings.
  rewrite getSource_eq. unfold IO.lift at 1. cbv beta iota. cbn [Py.bind].
  unfold IO.bind at 1, IO.lift at 1.
  destruct (dict_getitem SOURCE_TYPE_TO_STRING _) as [st | e]; [| reflexivity].
  unfold IO.bind at 1, IO.lift at 1. cbn [Py.bind].
  destruct (dict_getitem BUS_TYPE_TO_STRING _) as [bt | e]; reflexivity.
Qed.

Lemma dump_line_unknown (signal : Signal.t) :
  source_strings signal = Raise KeyError ->
  dump_line mdf signal = Raise KeyError.
Proof.
  intros H. unfold dump_line. rewrite getSource_eq. cbn [Py.bind].
  rewrite H. reflexivity.
Qed.

(** What the loop has done when it stops, with or without exception. *)
Lemma dump_loop_inv (xs : list Signal.t) :
  forall start counter w r w',
    IO.for_enumerate dump_turn start xs counter tt w = (r, w') ->
    stdout_only w w' /\
    exists lines,
      stdout w' = stdout w ++ lines /\
      match r with
      | Ok _ => Forall2 (fun s line => dump_line mdf s = Ok line) xs lines
      | Raise e =>
          exists pre s post,
            xs = pre ++ s :: post /\
            Forall2 (fun s line => dump_line mdf s = Ok line) pre lines /\
            dump_line mdf s = Raise e
      end.
Proof.
  induction xs as [| x xs IH]; intros start counter w r w' H; simpl in H.
  - inversion H. split; [repeat split |].
    exists []. rewrite app_nil_r. split; [reflexivity | constructor].
  - unfold IO.bind at 1 in H. rewrite (dump_turn_eq start) in H.
    destruct (dump_line mdf x) as [line | e] eqn:E.
    + apply IH in H. destruct H as ((F1 & F2 & F3) & lines & Hout & Hr).
      simpl in F1, F2, F3, Hout.
      split; [repeat split; assumption |].
      exists (line :: lines). rewrite Hout, <- app_assoc.
      split; [reflexivity |].
      destruct r as [u | e].
      * constructor; assumption.
      * destruct Hr as (pre & s & post & -> & Hpre & Hs).
        exists (x :: pre), s, post. split; [reflexivity |].
        split; [constructor; assumption | exact Hs].
    + inversion H. subst. split; [repeat split |].
      exists []. rewrite app_nil_r. split; [reflexivity |].
      exists [], x, xs. split; [reflexivity |]. split; [constructor | exact E].
Qed.

(** The loop prints the lines of the signals it can describe and stops at
    the first one it cannot. *)
Lemma dump_loop_stops (pre : list Signal.t) (lines : list string) :
  Forall2 (fun s line => dump_line mdf s = Ok line) pre lines ->
  forall s post e start counter w,
    dump_line mdf s = Raise e ->
    exists w',
      IO.for_enumerate dump_turn start (pre ++ s :: post) counter tt w
      = (Raise e, w') /\
      stdout_only w w' /\
      stdout w' = stdout w ++ lines.
Proof.
  induction 1 as [| x line pre lines Hx _ IH];
    intros s post e start counter w Hs; simpl.
  - unfold IO.bind at 1. rewrite (dump_turn_eq start), Hs.
    exists w. split; [reflexivity |]. split; [repeat split |].
    rewrite app_nil_r. reflexivity.
  - unfold IO.bind at 1. rewrite (dump_turn_eq start), Hx.
    destruct (IH s post e (S start) (Some start)
                {| files := files w; dirs := dirs w; datasets := datasets w;
                   stdout := stdout w ++ [line] |} Hs)
      as (w' & Hrun & (F1 & F2 & F3) & Hout).
    simpl in F1, F2, F3, Hout.
    exists w'. split; [exact Hrun |]. split; [repeat split; assumption |].
    rewrite Hout, <- app_assoc. reflexivity.
Qed.

End Dump.

(** X18.  In dump mode the run of a recording exports nothing: whatever
    its outcome, files, directories and dataset are as before, the manifest
    included.  It returns only when the recording has at least one signal
    and the line of every signal could be built. *)
Theorem dump_mode_only_prints {ext : Externals} (args : Args)
  (filename : string) (w w' : world) (r : result unit) :
  dump args = true ->
  processFile args filename w = (r, w') ->
  files w' = files w /\ dirs w' = dirs w /\ datasets w' = datasets w /\
  (r = Ok tt ->
   exists mdf lines,
     MDF_open filename = Ok mdf /\
     iter_channels mdf <> [] /\
     Forall2 (fun s line => dump_line mdf s = Ok line)
       (iter_channels mdf) lines).
Proof.
  intros Hdump H. unfold processFile in H.
  unfold IO.bind at 1, IO.lift at 1 in H.
  destruct (MDF_open filename) as [mdf | e] eqn:Hopen.
  2: { inversion H. repeat split. intros; discriminate. }
  rewrite Hdump in H. unfold IO.bind at 1 in H. unfold dumpSignals in H.
  unfold IO.bind at 1 in H.
  match type of H with
  | context [IO.for_enumerate ?body 0 ?xs None tt w] =>
      destruct (IO.for_enumerate body 0 xs None tt w) as [rl w1] eqn:Eloop
  end.
  pose proof (for_enumerate_counter_any _ _ _ _ _ _ _ _ Eloop) as Hcounter.
  apply dump_loop_inv in Eloop.
  destruct Eloop as ((F1 & F2 & F3) & lines & Hout & Hr).
  destruct rl as [[counter []] | e].
  - specialize (Hcounter counter tt eq_refl). subst counter.
    destruct (iter_channels mdf) as [| s rest] eqn:Ech; simpl in H.
    + inversion H. subst. repeat split; auto. intros; discriminate.
    + inversion H. subst. repeat split; auto.
      intros _. exists mdf, lines. rewrite Ech.
      repeat split; auto. discriminate.
  - inversion H. subst. repeat split; auto. intros; discriminate.
Qed.

Lemma dump_mode_only_prints_witness :
  let mdf := Demo.recording [Demo.speed; Demo.gear] in
  let ext := Demo.externals mdf Demo.healthy in
  let run := @processFile ext Cases.dump_only "drive.mf4" empty_world in
  fst run = Ok tt /\
  files (snd run) = [] /\ datasets (snd run) = [].
Proof.
  intros mdf ext run.
  assert (Hrun : run = (Ok tt, snd run)) by reflexivity.
  destruct (@dump_mode_only_prints ext Cases.dump_only "drive.mf4"
              empty_world (snd run) (Ok tt) eq_refl Hrun)
    as (Hfiles & _ & Hdata & _).
  split; [reflexivity |]. split; [exact Hfiles | exact Hdata].
Defined.

(** X19.  [dumpSignals] stops at the first signal whose source type or bus
    type the tables do not know: it raises KeyError there, having printed
    the lines of the signals before it and nothing else. *)
Theorem dumpSignals_stops_at_unknown_source {ext : Externals} (mdf : MDF)
  (pre post : list Signal.t) (signal : Signal.t) (lines : list string)
  (w : world) :
  iter_channels mdf = pre ++ signal :: post ->
  Forall2 (fun s line => dump_line mdf s = Ok line) pre lines ->
  source_strings signal = Raise KeyError ->
  exists w',
    dumpSignals mdf w = (Raise KeyError, w') /\
    stdout w' = stdout w ++ lines /\
    files w' = files w /\ dirs w' = dirs w /\ datasets w' = datasets w.
Proof.
  intros Hch Hpre Hunknown. unfold dumpSignals. rewrite Hch.
  destruct (dump_loop_stops mdf pre lines Hpre signal post KeyError 0 None w
              (dump_line_unknown mdf signal Hunknown))
    as (w' & Hrun & (F1 & F2 & F3) & Hout).
  exists w'. rewrite (bind_raise _ _ _ _ _ Hrun). auto.
Qed.

Lemma dumpSignals_stops_at_unknown_source_witness :
  let mdf := Demo.recording [Demo.speed; Cases.stranger; Demo.gear] in
  let ext := Demo.externals mdf Demo.healthy in
  iter_channels mdf = [Demo.speed] ++ Cases.stranger :: [Demo.gear] /\
  exists w',
    @dumpSignals ext mdf empty_world = (Raise KeyError, w') /\
    List.length (stdout w') = 1.
Proof.
  intros mdf ext. split; [reflexivity |].
  destruct (@dumpSignals_stops_at_unknown_source ext mdf [Demo.speed]
              [Demo.gear] Cases.stranger
              ["ECU1, Frame1, CAN1, CAN1.Frame1, Speed, km/h, ECU, CAN, 0, 1"]
              empty_world eq_refl)
    as (w' & Hrun & Hout & _).
  - repeat constructor.
  - reflexivity.
  - exists w'. split; [exact Hrun |]. rewrite Hout. reflexivity.
Defined.

(** X23.  When [dumpSignals] returns, it has printed exactly one line per
    signal, in the order of the signals, each line being the source name,
    the three fields of [getSource], name, unit, source type, bus type,
    group index and channel index joined by [", "]; the value it returns
    is the index of the last signal; files, directories and dataset are
    untouched. *)
Theorem dumpSignals_listing {ext : Externals} (mdf : MDF) (w w' : world)
  (n : nat) :
  dumpSignals mdf w = (Ok n, w') ->
  S n = List.length (iter_channels mdf) /\
  files w' = files w /\ dirs w' = dirs w /\ datasets w' = datasets w /\
  exists lines,
    Forall2 (fun s line => dump_line mdf s = Ok line)
      (iter_channels mdf) lines /\
    stdout w' = stdout w ++ lines.
Proof.
  intros H.
  split; [eapply dumpSignals_returns_last_index; exact H |].
  unfold dumpSignals in H.
  apply bind_ok_inv in H. destruct H as ([c []] & w1 & Hloop & Hret).
  assert (w1 = w') as ->.
  { destruct c; simpl in Hret; inversion Hret; reflexivity. }
  apply dump_loop_inv in Hloop.
  destruct Hloop as ((F1 & F2 & F3) & lines & Hout & Hall).
  repeat split; try assumption.
  exists lines. split; assumption.
Qed.

Lemma dumpSignals_listing_witness :
  let mdf := Demo.recording [Demo.speed] in
  let ext := Demo.externals mdf Demo.healthy in
  let run := @dumpSignals ext mdf empty_world in
  fst run = Ok 0 /\
  exists lines, stdout (snd run) = lines /\ List.length lines = 1.
Proof.
  intros mdf ext run. split; [reflexivity |].
  assert (Hrun : run = (Ok 0, snd run)) by reflexivity.
  destruct (@dumpSignals_listing ext mdf empty_world (snd run) 0 Hrun)
    as (_ & _ & _ & _ & lines & Hall & Hout).
  exists lines. split; [exact Hout |].
  apply Forall2_length in Hall. symmetry. exact Hall.
Defined.

(** ** A directory of recordings *)

Section Directory.

Variables (fs : FileSystem) (env : string -> Externals).

Lemma for_in_app {A St} (body : A -> St -> IO.M St) (xs ys : list A) :
  forall s w,
    IO.for_in body (xs ++ ys) s w =
    IO.bind (IO.for_in body xs s) (fun s' => IO.for_in body ys s') w.
Proof.
  induction xs as [| x xs IH]; intros s w; simpl.
  - reflexivity.
  - unfold IO.bind.
    destruct (body x s w) as [[s1 | e] w1]; [| reflexivity].
    rewrite IH. reflexivity.
Qed.

Lemma entries_skipped (args : Args) (directoryname : string)
  (listing : list string) (w : world) :
  (forall path, In path listing ->
     os_path_isfile fs (path_join directoryname path) w = false) ->
  IO.for_in (fun path _ => process_entry fs env args directoryname path)
    listing tt w = (Ok tt, w).
Proof.
  induction listing as [| p listing IH]; intros H; simpl.
  - reflexivity.
  - unfold IO.bind, process_entry. rewrite (H p (or_introl eq_refl)).
    simpl. apply IH. intros q Hq. apply H. right. exact Hq.
Qed.

End Directory.

(** X20.  A recording whose run raises ends the batch: when the entries
    before it went through and the entry is a regular file on which
    [processFile] raises, [processDirectory] raises the same exception in
    the world that run left, and no later entry of the listing is looked
    at. *)
Theorem processDirectory_halts_at_first_failure (fs : FileSystem)
  (env : string -> Externals) (args : Args) (directoryname : string)
  (pre post : list string) (path : string) (w w1 w2 : world) (e : exn) :
  os_listdir fs directoryname = Ok (pre ++ path :: post) ->
  IO.for_in (fun p _ => process_entry fs env args directoryname p) pre tt w
    = (Ok tt, w1) ->
  os_path_isfile fs (path_join directoryname path) w1 = true ->
  @processFile (env (path_join directoryname path)) args
    (path_join directoryname path) w1 = (Raise e, w2) ->
  processDirectory fs env args directoryname w = (Raise e, w2).
Proof.
  intros Hlist Hpre Hfile Hrun. unfold processDirectory.
  unfold IO.bind at 1, IO.lift at 1. rewrite Hlist.
  rewrite for_in_app. rewrite (bind_ok _ _ _ _ _ Hpre). simpl.
  unfold IO.bind, process_entry. rewrite Hfile, Hrun. reflexivity.
Qed.

Lemma processDirectory_halts_at_first_failure_witness :
  os_listdir Cases.folder "in" = Ok (["logs"] ++ "empty.mf4" :: ["drive.mf4"]) /\
  processDirectory Cases.folder Cases.folder_env Demo.csv "in" empty_world
    = (Raise UnboundLocalError, empty_world).
Proof.
  split; [reflexivity |].
  apply (processDirectory_halts_at_first_failure Cases.folder Cases.folder_env
           Demo.csv "in" ["logs"] ["drive.mf4"] "empty.mf4"
           empty_world empty_world empty_world UnboundLocalError);
    reflexivity.
Defined.

(** X21.  [processDirectory] does not descend: in a directory none of
    whose entries is a regular file it opens no recording, changes nothing
    and returns normally. *)
Theorem processDirectory_skips_non_files (fs : FileSystem)
  (env : string -> Externals) (args : Args) (directoryname : string)
  (listing : list string) (w : world) :
  os_listdir fs directoryname = Ok listing ->
  (forall path, In path listing ->
     os_path_isfile fs (path_join directoryname path) w = false) ->
  processDirectory fs env args directoryname w = (Ok tt, w).
Proof.
  intros Hlist Hnone. unfold processDirectory.
  unfold IO.bind at 1, IO.lift at 1. rewrite Hlist.
  apply entries_skipped, Hnone.
Qed.

Lemma processDirectory_skips_non_files_witness :
  processDirectory
    {| os_listdir := fun _ => Ok ["logs"; "old"];
       os_path_isfile := fun _ _ => false |}
    Cases.folder_env Demo.csv "in" empty_world = (Ok tt, empty_world).
Proof.
  apply processDirectory_skips_non_files with (listing := ["logs"; "old"]).
  - reflexivity.
  - intros path _. reflexivity.
Defined.
